(** * notify-hub-api: the schedule execution and retry engine

    A shallow embedding of the schedule store
    ([app/repositories/schedule_repository.py]), of the sender selection of
    the e-mail service ([app/services/email_service.py],
    [ncloud_mailer/config.py]) and of the execution endpoints of
    [app/routers/email_router.py], followed by the properties of the engine.

    Conventions of the embedding.
    - A naive [datetime] is the number of microseconds elapsed since
      0001-01-01T00:00:00; Python datetimes have no leap seconds, so the
      [second] and [microsecond] components are remainders of that number.
    - The [schedules] table is a finite map from the primary key to the row;
      a stored row carries its key in its [id] column ([store_wf]).  The
      [email_logs] table is the list of its rows in the order of insertion.
    - Code with effects runs in [Exec]: it threads the [World] (tables,
      process environment, number of clock readings made so far) and either
      returns a value or raises a Python exception.  State written before an
      exception is raised stays written, as every write is committed at once.
    - What the repository does not contain (the system clock, the JSON and
      validation libraries, the mail provider, the task queue of the web
      framework) is a field of the class [Collaborators].
    - Runs of the engine come in two forms: [engine_step] handles one
      request after the other, the units of a cycle included;
      [interleaved_step] lets requests and waiting units take turns. *)

From stdpp Require Import gmap strings list fin_maps pretty sorting.
From Stdlib Require Import ZArith Lia Ascii.

#[local] Open Scope Z_scope.

(** ** Python exceptions and outcomes *)

Inductive exn : Type :=
| ValueError (msg : string)
| RequestException (msg : string)
| ApiError (msg : string)
| OverflowError (msg : string)
| OtherException (msg : string).

(** [str(e)] *)
Definition str_exn (e : exn) : string :=
  match e with
  | ValueError m | RequestException m | ApiError m
  | OverflowError m | OtherException m => m
  end.

Inductive outcome (A : Type) : Type :=
| Returned (a : A)
| Raised (e : exn).
Arguments Returned {A} a.
Arguments Raised {A} e.

(** ** [datetime] and [timedelta] *)

Module PyDatetime.

Definition datetime : Type := Z.
Definition timedelta : Type := Z.

Definition us_per_second : Z := 1000000.
Definition us_per_minute : Z := 60 * us_per_second.
Definition us_per_day : Z := 86400 * us_per_second.

(** [date.max.toordinal()]: 9999-12-31 *)
Definition MAXORDINAL : Z := 3652059.

(** [datetime.max], 9999-12-31T23:59:59.999999 *)
Definition datetime_max : datetime := MAXORDINAL * us_per_day - 1.

Definition representable (t : Z) : bool :=
  (0 <=? t) && (t <=? datetime_max).

Definition microsecond (t : datetime) : Z := t mod us_per_second.
Definition second (t : datetime) : Z := (t / us_per_second) mod 60.

(** [t.replace(second=s, microsecond=us)] *)
Definition replace_second_microsecond (t : datetime) (s us : Z) : datetime :=
  t - (second t * us_per_second + microsecond t) + (s * us_per_second + us).

(** [timedelta(seconds=n)]: the day count of the normalised value is
    limited to nine digits. *)
Definition timedelta_of_seconds (n : Z) : outcome timedelta :=
  let days := n / 86400 in
  if 999999999 <? Z.abs days
  then Raised (OverflowError
                 ("days=" +:+ pretty days +:+ "; must have magnitude <= 999999999"))
  else Returned (n * us_per_second).

(** [t + d] *)
Definition add (t : datetime) (d : timedelta) : outcome datetime :=
  if representable (t + d) then Returned (t + d)
  else Raised (OverflowError "date value out of range").

End PyDatetime.
Import PyDatetime.

(** ** Models ([app/models]) *)

Inductive ScheduleType : Type := EMAIL | SMS | KAKAO.
Inductive ScheduleStatus : Type :=
  PENDING | PROCESSING | COMPLETED | FAILED | CANCELLED.

#[global] Instance ScheduleType_eq_dec : EqDecision ScheduleType.
Proof. solve_decision. Defined.
#[global] Instance ScheduleStatus_eq_dec : EqDecision ScheduleStatus.
Proof. solve_decision. Defined.

(** [ScheduleStatus.value] *)
Definition status_value (st : ScheduleStatus) : string :=
  match st with
  | PENDING => "pending"
  | PROCESSING => "processing"
  | COMPLETED => "completed"
  | FAILED => "failed"
  | CANCELLED => "cancelled"
  end.

Module Schedule.

Record t : Type := mk {
  id : Z;
  api_key_id : Z;
  schedule_name : string;
  schedule_type : ScheduleType;
  scheduled_at : datetime;
  timezone : string;
  payload : string;
  status : ScheduleStatus;
  executed_at : option datetime;
  max_retry : Z;
  retry_count : Z;
  retry_interval : Z;
  result : option string;
  error_message : option string;
  created_at : datetime;
  updated_at : datetime
}.

(** Attribute assignments [schedule.x = v]. *)
Definition set_status (v : ScheduleStatus) (s : t) : t :=
  mk (id s) (api_key_id s) (schedule_name s) (schedule_type s)
     (scheduled_at s) (timezone s) (payload s) v (executed_at s)
     (max_retry s) (retry_count s) (retry_interval s) (result s)
     (error_message s) (created_at s) (updated_at s).

Definition set_executed_at (v : option datetime) (s : t) : t :=
  mk (id s) (api_key_id s) (schedule_name s) (schedule_type s)
     (scheduled_at s) (timezone s) (payload s) (status s) v
     (max_retry s) (retry_count s) (retry_interval s) (result s)
     (error_message s) (created_at s) (updated_at s).

Definition set_result (v : option string) (s : t) : t :=
  mk (id s) (api_key_id s) (schedule_name s) (schedule_type s)
     (scheduled_at s) (timezone s) (payload s) (status s) (executed_at s)
     (max_retry s) (retry_count s) (retry_interval s) v
     (error_message s) (created_at s) (updated_at s).

Definition set_updated_at (v : datetime) (s : t) : t :=
  mk (id s) (api_key_id s) (schedule_name s) (schedule_type s)
     (scheduled_at s) (timezone s) (payload s) (status s) (executed_at s)
     (max_retry s) (retry_count s) (retry_interval s) (result s)
     (error_message s) (created_at s) v.

Definition set_retry_count (v : Z) (s : t) : t :=
  mk (id s) (api_key_id s) (schedule_name s) (schedule_type s)
     (scheduled_at s) (timezone s) (payload s) (status s) (executed_at s)
     (max_retry s) v (retry_interval s) (result s)
     (error_message s) (created_at s) (updated_at s).

Definition set_error_message (v : option string) (s : t) : t :=
  mk (id s) (api_key_id s) (schedule_name s) (schedule_type s)
     (scheduled_at s) (timezone s) (payload s) (status s) (executed_at s)
     (max_retry s) (retry_count s) (retry_interval s) (result s)
     v (created_at s) (updated_at s).

Definition set_scheduled_at (v : datetime) (s : t) : t :=
  mk (id s) (api_key_id s) (schedule_name s) (schedule_type s)
     v (timezone s) (payload s) (status s) (executed_at s)
     (max_retry s) (retry_count s) (retry_interval s) (result s)
     (error_message s) (created_at s) (updated_at s).

End Schedule.

Module ApiKey.

Record t : Type := mk {
  id : Z;
  key_name : string;
  api_key : string;
  service_name : string;
  is_active : bool
}.

End ApiKey.

(** A row of [email_logs] ([app/models/email_log.py]).  The primary key,
    which no code of the service reads, is left out; the table is the list
    of its rows in the order of their insertion. *)
Module EmailLog.

Record t : Type := mk {
  api_key_id : Z;
  request_id : string;
  sender_email : string;
  sender_name : option string;
  recipient_email : string;
  recipient_name : option string;
  subject : string;
  body_text : option string;
  body_html : option string;
  status : string;
  ncloud_request_id : option string;
  ncloud_response : option string;
  scheduled_at : option datetime;
  sent_at : option datetime;
  has_attachments : bool;
  attachment_info : option string;
  error_message : option string;
  retry_count : Z;
  created_at : datetime;
  updated_at : datetime
}.

Definition set_status (v : string) (l : t) : t :=
  mk (api_key_id l) (request_id l) (sender_email l) (sender_name l)
     (recipient_email l) (recipient_name l) (subject l) (body_text l)
     (body_html l) v (ncloud_request_id l) (ncloud_response l)
     (scheduled_at l) (sent_at l) (has_attachments l) (attachment_info l)
     (error_message l) (retry_count l) (created_at l) (updated_at l).

Definition set_ncloud_request_id (v : option string) (l : t) : t :=
  mk (api_key_id l) (request_id l) (sender_email l) (sender_name l)
     (recipient_email l) (recipient_name l) (subject l) (body_text l)
     (body_html l) (status l) v (ncloud_response l) (scheduled_at l)
     (sent_at l) (has_attachments l) (attachment_info l) (error_message l)
     (retry_count l) (created_at l) (updated_at l).

Definition set_ncloud_response (v : option string) (l : t) : t :=
  mk (api_key_id l) (request_id l) (sender_email l) (sender_name l)
     (recipient_email l) (recipient_name l) (subject l) (body_text l)
     (body_html l) (status l) (ncloud_request_id l) v (scheduled_at l)
     (sent_at l) (has_attachments l) (attachment_info l) (error_message l)
     (retry_count l) (created_at l) (updated_at l).

Definition set_sent_at (v : option datetime) (l : t) : t :=
  mk (api_key_id l) (request_id l) (sender_email l) (sender_name l)
     (recipient_email l) (recipient_name l) (subject l) (body_text l)
     (body_html l) (status l) (ncloud_request_id l) (ncloud_response l)
     (scheduled_at l) v (has_attachments l) (attachment_info l)
     (error_message l) (retry_count l) (created_at l) (updated_at l).

Definition set_error_message (v : option string) (l : t) : t :=
  mk (api_key_id l) (request_id l) (sender_email l) (sender_name l)
     (recipient_email l) (recipient_name l) (subject l) (body_text l)
     (body_html l) (status l) (ncloud_request_id l) (ncloud_response l)
     (scheduled_at l) (sent_at l) (has_attachments l) (attachment_info l) v
     (retry_count l) (created_at l) (updated_at l).

Definition set_updated_at (v : datetime) (l : t) : t :=
  mk (api_key_id l) (request_id l) (sender_email l) (sender_name l)
     (recipient_email l) (recipient_name l) (subject l) (body_text l)
     (body_html l) (status l) (ncloud_request_id l) (ncloud_response l)
     (scheduled_at l) (sent_at l) (has_attachments l) (attachment_info l)
     (error_message l) (retry_count l) (created_at l) v.

End EmailLog.

(** ** The world the code runs in *)

Record World : Type := mkWorld {
  schedules : gmap Z Schedule.t;      (* table [schedules], by primary key *)
  api_keys : gmap Z ApiKey.t;         (* table [api_keys], by primary key *)
  environ : gmap string string;       (* [os.environ] *)
  next_schedule_id : Z;               (* AUTO_INCREMENT of [schedules] *)
  ticks : nat;                        (* clock readings made so far *)
  email_logs : list EmailLog.t        (* table [email_logs] *)
}.

Definition with_schedules (m : gmap Z Schedule.t) (w : World) : World :=
  mkWorld m (api_keys w) (environ w) (next_schedule_id w) (ticks w) (email_logs w).

Definition with_ticks (n : nat) (w : World) : World :=
  mkWorld (schedules w) (api_keys w) (environ w) (next_schedule_id w) n
          (email_logs w).

Definition with_next_schedule_id (n : Z) (w : World) : World :=
  mkWorld (schedules w) (api_keys w) (environ w) n (ticks w) (email_logs w).

Definition with_email_logs (l : list EmailLog.t) (w : World) : World :=
  mkWorld (schedules w) (api_keys w) (environ w) (next_schedule_id w) (ticks w) l.

(** Every stored row carries its primary key. *)
Definition store_wf (w : World) : Prop :=
  map_Forall (λ k s, Schedule.id s = k) (schedules w).

(** ** The monad of effectful code *)

Definition Exec (A : Type) : Type := World → World * outcome A.

Definition ret {A} (a : A) : Exec A := λ w, (w, Returned a).
Definition raise {A} (e : exn) : Exec A := λ w, (w, Raised e).

Definition bind {A B} (m : Exec A) (k : A → Exec B) : Exec B :=
  λ w, match m w with
       | (w', Returned a) => k a w'
       | (w', Raised e) => (w', Raised e)
       end.

(** [try: m  except Exception as e: h e] *)
Definition try_except {A} (m : Exec A) (h : exn → Exec A) : Exec A :=
  λ w, match m w with
       | (w', Returned a) => (w', Returned a)
       | (w', Raised e) => h e w'
       end.

(** A computation without effect on the world. *)
Definition lift {A} (o : outcome A) : Exec A := λ w, (w, o).

Definition get_world : Exec World := λ w, (w, Returned w).

(** The table [email_logs] is written. *)
Definition put_email_logs (l : list EmailLog.t) : Exec unit :=
  λ w, (with_email_logs l w, Returned tt).

#[global] Instance Exec_ret : MRet Exec := @ret.
#[global] Instance Exec_bind : MBind Exec := λ A B k m, bind m k.

(** Truthiness of an [Optional[str]]: [None] and the empty string are false. *)
Definition truthy (o : option string) : option string :=
  match o with
  | Some s => if decide (s = "") then None else Some s
  | None => None
  end.

(** ** Request and response schemas ([app/schemas/email.py]) *)

Module EmailRequest.
Record t : Type := mk {
  to_email : string;
  to_name : option string;
  subject : string;
  html_body : string;
  sender_address : option string
}.
End EmailRequest.

Module EmailRecipient.
Record t : Type := mk { email : string; name : option string }.
End EmailRecipient.

Module BulkEmailRequest.
Record t : Type := mk {
  recipients : list EmailRecipient.t;
  subject : string;
  html_body : string;
  sender_address : option string
}.
End BulkEmailRequest.

(** [BaseRetrySettings]: [max_retry] in 0..10, [retry_interval] in 60..3600. *)
Definition BaseRetrySettings_valid (max_retry retry_interval : Z) : bool :=
  (0 <=? max_retry) && (max_retry <=? 10)
  && (60 <=? retry_interval) && (retry_interval <=? 3600).

Module EmailScheduleRequest.
Record t : Type := mk {
  schedule_name : string;
  scheduled_at : datetime;
  timezone : string;
  subject : string;
  html_body : string;
  sender_address : option string;
  template_id : option Z;
  template_variables : option (list (string * string));
  max_retry : Z;
  retry_interval : Z;
  to_email : string;
  to_name : option string
}.
End EmailScheduleRequest.

Module BulkEmailScheduleRequest.
Record t : Type := mk {
  schedule_name : string;
  scheduled_at : datetime;
  timezone : string;
  subject : string;
  html_body : string;
  sender_address : option string;
  template_id : option Z;
  template_variables : option (list (string * string));
  max_retry : Z;
  retry_interval : Z;
  recipients : list EmailRecipient.t
}.
End BulkEmailScheduleRequest.

Module EmailScheduleResponse.
Record t : Type := mk {
  success : bool;
  message : string;
  schedule_id : Z;
  schedule_name : string;
  scheduled_at : datetime;
  status : string;
  created_at : datetime
}.
End EmailScheduleResponse.

(** One entry of [execution_details]. *)
Module ExecutionDetail.
Record t : Type := mk {
  schedule_id : Z;
  schedule_name : string;
  status : string;
  error : option string
}.
End ExecutionDetail.

Module EmailScheduleExecuteResponse.
Record t : Type := mk {
  message : string;
  executed_count : Z;
  failed_count : Z;
  execution_time : datetime;
  details : list ExecutionDetail.t
}.
End EmailScheduleExecuteResponse.

(** The response body of the mail provider, as far as the service reads it:
    [result.get("requestId")] and [result.get("count")]. *)
Module NCloudResponse.
Record t : Type := mk { requestId : option string; count : option Z }.
End NCloudResponse.

(** The dictionary returned by [send_single_email] and [send_bulk_email]. *)
Module SendResult.
Record t : Type := mk {
  success : bool;
  message : string;
  request_id : option string;
  recipient_count : Z;
  timestamp : string
}.
End SendResult.

(** ** External collaborators *)

Class Collaborators : Type := {
  (** the [n]-th reading of [datetime.utcnow()] *)
  clock : nat → datetime;
  (** [datetime.now().isoformat()] at the [n]-th clock state *)
  now_isoformat : nat → string;
  (** [str.upper] *)
  str_upper : string → string;
  (** the dictionary [json.loads] yields *)
  Payload : Type;
  json_loads : string → outcome Payload;
  (** [payload.get("is_bulk")], as a truth value *)
  payload_is_bulk : Payload → bool;
  (** [EmailRequest(to_email=payload["to_email"], ...,
      sender_address=payload.get("sender_address"))]: key lookups and
      validation of the request model *)
  email_request_of_payload : Payload → outcome EmailRequest.t;
  (** iterating [payload["recipients"]]: the exception it raises (the key
      is missing, the value cannot be iterated), or the number of its
      elements *)
  payload_recipients : Payload → outcome nat;
  (** the exception [BulkEmailRequest(recipients=[], subject=payload["subject"],
      ...)] raises: a key is missing, or the validation refuses the empty
      list of recipients ([min_items=1]) *)
  empty_bulk_request_error : Payload → exn;
  (** [NCloudEmailSender.send_email], called at the [n]-th clock state with
      the request and the selected [sender_address] *)
  ncloud_send_email : nat → EmailRequest.t → string → outcome NCloudResponse.t;
  (** [NCloudEmailSender.send_bulk_email] *)
  ncloud_send_bulk_email :
    nat → BulkEmailRequest.t → string → outcome NCloudResponse.t;
  (** ["email_" + uuid.uuid4().hex[:12]], drawn at the [n]-th clock state *)
  new_request_id : nat → string;
  (** [json.dumps] of the provider's response *)
  json_dumps_response : NCloudResponse.t → string;
  (** [json.dumps] of a send result *)
  json_dumps_result : SendResult.t → string;
  (** [json.dumps] of the payload dictionary of a single e-mail schedule,
      built from the request and the selected sender *)
  json_dumps_payload : EmailScheduleRequest.t → string → string;
  (** the same for a bulk e-mail schedule *)
  json_dumps_bulk_payload : BulkEmailScheduleRequest.t → string → string;
  (** [BackgroundTasks.add_task] at the [n]-th clock state: the exception it
      raises, if any *)
  add_task_raises : nat → Schedule.t → option exn
}.

(** [datetime.utcnow()] *)
Definition utcnow `{!Collaborators} : Exec datetime :=
  λ w, (with_ticks (S (ticks w)) w, Returned (clock (ticks w))).

(** [os.getenv(key)] *)
Definition getenv (key : string) : Exec (option string) :=
  λ w, (w, Returned (environ w !! key)).

(** ** The schedule store ([app/repositories/schedule_repository.py]) *)

Module ScheduleRepository.

(** [self.db.query(Schedule).filter(Schedule.id == schedule_id).first()] *)
Definition query_first (schedule_id : Z) : Exec (option Schedule.t) :=
  λ w, (w, Returned (schedules w !! schedule_id)).

(** [self.db.commit(); self.db.refresh(schedule)]: the row of the object's
    primary key is written. *)
Definition commit (schedule : Schedule.t) : Exec unit :=
  λ w, (with_schedules (<[Schedule.id schedule := schedule]> (schedules w)) w,
        Returned tt).

(** [BaseRepository.get_by_id] *)
Definition get_by_id (id : Z) : Exec (option Schedule.t) := query_first id.

Definition get_pending_schedules_by_time_and_type
    (current_time : datetime) (schedule_type : ScheduleType)
    : Exec (list Schedule.t) :=
  λ w, (w, Returned
    (filter (λ s, Schedule.scheduled_at s ≤ current_time
                  ∧ Schedule.status s = PENDING
                  ∧ Schedule.schedule_type s = schedule_type)
            (map_to_list (schedules w)).*2)).

Definition update_status `{!Collaborators}
    (schedule_id : Z) (status : ScheduleStatus)
    (executed_at : option datetime) (result : option string)
    : Exec (option Schedule.t) :=
  schedule ← query_first schedule_id;
  match schedule with
  | Some schedule =>
      let schedule := Schedule.set_status status schedule in
      let schedule :=
        match executed_at with
        | Some _ => Schedule.set_executed_at executed_at schedule
        | None => schedule
        end in
      let schedule :=
        match truthy result with
        | Some _ => Schedule.set_result result schedule
        | None => schedule
        end in
      now ← utcnow;
      let schedule := Schedule.set_updated_at now schedule in
      commit schedule;;
      mret (Some schedule)
  | None => mret None
  end.

Definition handle_failure `{!Collaborators}
    (schedule_id : Z) (error_message : string) : Exec (option Schedule.t) :=
  schedule ← query_first schedule_id;
  match schedule with
  | Some schedule =>
      let schedule :=
        Schedule.set_retry_count (Schedule.retry_count schedule + 1) schedule in
      let schedule := Schedule.set_error_message (Some error_message) schedule in
      now ← utcnow;
      let schedule := Schedule.set_updated_at now schedule in
      schedule ←
        (if bool_decide (Schedule.retry_count schedule >= Schedule.max_retry schedule)
         then mret (Schedule.set_status FAILED schedule)
         else
           let schedule := Schedule.set_status PENDING schedule in
           now ← utcnow;
           delta ← lift (timedelta_of_seconds (Schedule.retry_interval schedule));
           scheduled_at ← lift (add (replace_second_microsecond now 0 0) delta);
           mret (Schedule.set_scheduled_at scheduled_at schedule));
      commit schedule;;
      mret (Some schedule)
  | None => mret None
  end.

(** The key the database assigns to a new row. *)
Definition autoincrement : Exec Z :=
  λ w, (with_next_schedule_id (next_schedule_id w + 1) w,
        Returned (next_schedule_id w)).

Definition create `{!Collaborators}
    (api_key_id : Z) (schedule_name : string) (schedule_type : ScheduleType)
    (scheduled_at : datetime) (payload : string) (timezone : string)
    (max_retry retry_interval : Z) : Exec Schedule.t :=
  id ← autoincrement;
  created_at ← utcnow;
  updated_at ← utcnow;
  let schedule :=
    Schedule.mk id api_key_id schedule_name schedule_type scheduled_at
                timezone payload PENDING None max_retry 0 retry_interval
                None None created_at updated_at in
  commit schedule;;
  mret schedule.

End ScheduleRepository.

(** The two rows [handle_failure] can write: the retries are used up, or the
    schedule is armed again for the time [at_]. *)
Definition failed_row (s : Schedule.t) (msg : string) (now : datetime) : Schedule.t :=
  Schedule.set_status FAILED
    (Schedule.set_updated_at now
       (Schedule.set_error_message (Some msg)
          (Schedule.set_retry_count (Schedule.retry_count s + 1) s))).

Definition rearmed_row (s : Schedule.t) (msg : string) (now at_ : datetime)
    : Schedule.t :=
  Schedule.set_scheduled_at at_
    (Schedule.set_status PENDING
       (Schedule.set_updated_at now
          (Schedule.set_error_message (Some msg)
             (Schedule.set_retry_count (Schedule.retry_count s + 1) s)))).

(** The rows [update_status] writes for an execution unit: the schedule is
    taken in hand, and the schedule is done. *)
Definition processing_row (s : Schedule.t) (now : datetime) : Schedule.t :=
  Schedule.set_updated_at now (Schedule.set_status PROCESSING s).

Definition completed_row (s : Schedule.t) (executed_at : datetime)
    (result : string) (now : datetime) : Schedule.t :=
  let s := Schedule.set_executed_at (Some executed_at)
             (Schedule.set_status COMPLETED s) in
  Schedule.set_updated_at now
    (match truthy (Some result) with
     | Some _ => Schedule.set_result (Some result) s
     | None => s
     end).

(** ** Provider configuration ([ncloud_mailer/config.py]) *)

Module NCloudConfig.

Definition access_key : Exec string :=
  key ← getenv "NCLOUD_ACCESS_KEY";
  match truthy key with
  | Some key => mret key
  | None => raise (ValueError "NCLOUD_ACCESS_KEY 환경변수가 설정되지 않았습니다.")
  end.

Definition secret_key : Exec string :=
  key ← getenv "NCLOUD_SECRET_KEY";
  match truthy key with
  | Some key => mret key
  | None => raise (ValueError "NCLOUD_SECRET_KEY 환경변수가 설정되지 않았습니다.")
  end.

Definition sender_address : Exec string :=
  sender ← getenv "NCLOUD_SENDER_EMAIL";
  match truthy sender with
  | Some sender => mret sender
  | None =>
      raise (ValueError "NCLOUD_SENDER_EMAIL 환경변수가 설정되지 않았습니다. NCloud에서 인증된 발신자 이메일을 설정하세요.")
  end.

Definition service_email_map : gmap string string :=
  <["service_a" := "SERVICE_A"]>
    (<["service_b" := "SERVICE_B"]> (<["service_c" := "SERVICE_C"]> ∅)).

Definition get_sender_email_by_service `{!Collaborators}
    (service_name : string) : Exec string :=
  let service_key :=
    default (str_upper service_name) (service_email_map !! service_name) in
  let env_key := "NCLOUD_SENDER_EMAIL_" +:+ service_key in
  sender_email ← getenv env_key;
  match truthy sender_email with
  | Some sender_email => mret sender_email
  | None => sender_address
  end.

End NCloudConfig.

(** ** The e-mail service ([app/services/email_service.py]) *)

Module EmailService.

(** [db] tells whether a database session was given; with one, the service
    has its [email_log_repo]. *)
Record t : Type := mk { db : bool }.

(** [EmailService(db=...)]: building the provider client reads both keys. *)
Definition init (db : bool) : Exec t :=
  NCloudConfig.access_key;;
  NCloudConfig.secret_key;;
  mret (mk db).

Definition _get_sender_email_by_api_key `{!Collaborators}
    (self : t) (api_key_id : Z) : Exec string :=
  if negb (db self) then NCloudConfig.sender_address
  else
    try_except
      (w ← get_world;
       match api_keys w !! api_key_id with
       | None => NCloudConfig.sender_address
       | Some api_key =>
           NCloudConfig.get_sender_email_by_service (ApiKey.service_name api_key)
       end)
      (λ _, NCloudConfig.sender_address).

(** [db.add(email_log); db.commit()] for the new row: the column defaults read the
    clock for [created_at] and for [updated_at]; the table refuses the row
    when no API key has the id [api_key_id] (foreign key) or the
    [request_id] is taken (unique column), and [_save_email_log] swallows
    the exception of the database after a rollback. *)
Definition _save_email_log `{!Collaborators}
    (api_key_id : Z) (request_id sender_email recipient_email : string)
    (recipient_name : option string) (subject body_html status : string)
    : Exec unit :=
  created_at ← utcnow;
  updated_at ← utcnow;
  w ← get_world;
  let email_log :=
    EmailLog.mk api_key_id request_id sender_email None recipient_email
                recipient_name subject None (Some body_html) status None None
                None None false None None 0 created_at updated_at in
  if bool_decide (is_Some (api_keys w !! api_key_id)
                  ∧ request_id ∉ EmailLog.request_id <$> email_logs w)
  then put_email_logs (email_logs w ++ [email_log])
  else mret tt.

(** [_update_email_log] with its keyword arguments: the first row with that
    [request_id], if there is one, gets the given columns ([set_columns])
    and a new [updated_at]. *)
Definition _update_email_log `{!Collaborators}
    (request_id : string) (set_columns : EmailLog.t → EmailLog.t) : Exec unit :=
  w ← get_world;
  match list_find (λ l, EmailLog.request_id l = request_id) (email_logs w) with
  | Some (i, email_log) =>
      now ← utcnow;
      put_email_logs
        (<[i := EmailLog.set_updated_at now (set_columns email_log)]> (email_logs w))
  | None => mret tt
  end.

(** [_update_email_log(request_id=request_id, status="failed",
    error_message=str(e))], under [if self.db and hasattr(self,
    "email_log_repo")]. *)
Definition log_failure `{!Collaborators}
    (self : t) (request_id : string) (e : exn) : Exec unit :=
  if db self
  then _update_email_log request_id
         (λ l, EmailLog.set_error_message (Some (str_exn e))
                 (EmailLog.set_status "failed" l))
  else mret tt.

Definition send_single_email `{!Collaborators}
    (self : t) (request : EmailRequest.t) (api_key_id : Z) : Exec SendResult.t :=
  w ← get_world;
  let request_id := new_request_id (ticks w) in
  try_except
    (sender_email ←
       match truthy (EmailRequest.sender_address request) with
       | Some sender_email => mret sender_email
       | None => _get_sender_email_by_api_key self api_key_id
       end;
     (if db self
      then _save_email_log api_key_id request_id sender_email
             (EmailRequest.to_email request) (EmailRequest.to_name request)
             (EmailRequest.subject request) (EmailRequest.html_body request)
             "pending"
      else mret tt);;
     w ← get_world;
     result ← lift (ncloud_send_email (ticks w) request sender_email);
     (if db self
      then
        sent_at ← utcnow;
        _update_email_log request_id
          (λ l, EmailLog.set_sent_at (Some sent_at)
                  (EmailLog.set_ncloud_response (Some (json_dumps_response result))
                     (EmailLog.set_ncloud_request_id (NCloudResponse.requestId result)
                        (EmailLog.set_status "sent" l))))
      else mret tt);;
     w ← get_world;
     mret (SendResult.mk true "이메일이 성공적으로 발송되었습니다"
             (NCloudResponse.requestId result)
             (default 1 (NCloudResponse.count result))
             (now_isoformat (ticks w))))
    (λ e,
       log_failure self request_id e;;
       match e with
       | ValueError m => raise (ApiError ("이메일 입력 검증 실패: " +:+ m))
       | RequestException m => raise (ApiError ("이메일 발송 서비스 오류: " +:+ m))
       | _ => raise (ApiError ("이메일 발송 중 시스템 오류가 발생했습니다: " +:+ str_exn e))
       end).

Definition send_bulk_email `{!Collaborators}
    (self : t) (request : BulkEmailRequest.t) (api_key_id : Z) : Exec SendResult.t :=
  try_except
    (sender_email ←
       match truthy (BulkEmailRequest.sender_address request) with
       | Some sender_email => mret sender_email
       | None => _get_sender_email_by_api_key self api_key_id
       end;
     w ← get_world;
     result ← lift (ncloud_send_bulk_email (ticks w) request sender_email);
     let n := Z.of_nat (length (BulkEmailRequest.recipients request)) in
     mret (SendResult.mk true
             (pretty n +:+ "명에게 이메일이 성공적으로 발송되었습니다")
             (NCloudResponse.requestId result)
             (default n (NCloudResponse.count result))
             (now_isoformat (ticks w))))
    (λ e, raise (OtherException
                   ("대량 이메일 발송 중 오류가 발생했습니다: " +:+ str_exn e))).

End EmailService.

(** ** The schedule endpoints ([app/routers/email_router.py]) *)

Module email_router.

Definition create_email_schedule `{!Collaborators}
    (request : EmailScheduleRequest.t) (api_key_id : Z)
    (email_service : EmailService.t) : Exec EmailScheduleResponse.t :=
  sender_address ←
    match truthy (EmailScheduleRequest.sender_address request) with
    | Some sender_address => mret sender_address
    | None => EmailService._get_sender_email_by_api_key email_service api_key_id
    end;
  let payload := json_dumps_payload request sender_address in
  schedule ←
    ScheduleRepository.create api_key_id
      (EmailScheduleRequest.schedule_name request) EMAIL
      (EmailScheduleRequest.scheduled_at request) payload
      (EmailScheduleRequest.timezone request)
      (EmailScheduleRequest.max_retry request)
      (EmailScheduleRequest.retry_interval request);
  mret (EmailScheduleResponse.mk true
          "이메일 스케줄이 성공적으로 생성되었습니다"
          (Schedule.id schedule) (Schedule.schedule_name schedule)
          (Schedule.scheduled_at schedule)
          (status_value (Schedule.status schedule))
          (Schedule.created_at schedule)).

Definition create_bulk_email_schedule `{!Collaborators}
    (request : BulkEmailScheduleRequest.t) (api_key_id : Z)
    (email_service : EmailService.t) : Exec EmailScheduleResponse.t :=
  sender_address ←
    match truthy (BulkEmailScheduleRequest.sender_address request) with
    | Some sender_address => mret sender_address
    | None => EmailService._get_sender_email_by_api_key email_service api_key_id
    end;
  let payload := json_dumps_bulk_payload request sender_address in
  schedule ←
    ScheduleRepository.create api_key_id
      (BulkEmailScheduleRequest.schedule_name request) EMAIL
      (BulkEmailScheduleRequest.scheduled_at request) payload
      (BulkEmailScheduleRequest.timezone request)
      (BulkEmailScheduleRequest.max_retry request)
      (BulkEmailScheduleRequest.retry_interval request);
  mret (EmailScheduleResponse.mk true
          ("대량 이메일 스케줄이 성공적으로 생성되었습니다 (수신자 "
           +:+ pretty (Z.of_nat (length (BulkEmailScheduleRequest.recipients request)))
           +:+ "명)")
          (Schedule.id schedule) (Schedule.schedule_name schedule)
          (Schedule.scheduled_at schedule)
          (status_value (Schedule.status schedule))
          (Schedule.created_at schedule)).

Record CancelResponse : Type := mkCancelResponse {
  cancel_message : string;
  cancel_schedule_id : Z;
  cancelled_at : datetime
}.

Definition cancel_email_schedule `{!Collaborators}
    (schedule_id : Z) (api_key_id : Z) : Exec CancelResponse :=
  try_except
    (schedule ← ScheduleRepository.get_by_id schedule_id;
     match schedule with
     | None => raise (ApiError "스케줄을 찾을 수 없습니다")
     | Some schedule =>
         if bool_decide (Schedule.api_key_id schedule ≠ api_key_id)
         then raise (ApiError "접근 권한이 없습니다")
         else if bool_decide (Schedule.schedule_type schedule ≠ EMAIL)
         then raise (ApiError "이메일 스케줄이 아닙니다")
         else if bool_decide (Schedule.status schedule ≠ PENDING)
         then raise (ApiError ("취소할 수 없는 상태입니다: "
                               +:+ status_value (Schedule.status schedule)))
         else
           ScheduleRepository.update_status schedule_id CANCELLED None None;;
           now ← utcnow;
           mret (mkCancelResponse "이메일 스케줄이 취소되었습니다" schedule_id now)
     end)
    (λ e,
       match e with
       | ApiError _ => raise e
       | _ => raise (ApiError ("스케줄 취소 실패: " +:+ str_exn e))
       end).

(** The part of [execute_single_email_schedule] between the two status
    updates: decode the payload, build the service, send. *)
Definition send_scheduled_email `{!Collaborators}
    (schedule : Schedule.t) : Exec SendResult.t :=
  payload ← lift (json_loads (Schedule.payload schedule));
  email_service ← EmailService.init true;
  if payload_is_bulk payload then
    (* [EmailRecipient] is not among the names the module imports: the
       first element of [payload["recipients"]] raises NameError; without
       an element the request is built from an empty list and refused *)
    n ← lift (payload_recipients payload);
    match n with
    | S _ => raise (OtherException "name 'EmailRecipient' is not defined")
    | O => raise (empty_bulk_request_error payload)
    end
  else
    email_request ← lift (email_request_of_payload payload);
    EmailService.send_single_email email_service email_request
      (Schedule.api_key_id schedule).

Definition execute_single_email_schedule `{!Collaborators}
    (schedule : Schedule.t) : Exec unit :=
  try_except
    (ScheduleRepository.update_status (Schedule.id schedule) PROCESSING None None;;
     result ← send_scheduled_email schedule;
     executed_at ← utcnow;
     ScheduleRepository.update_status (Schedule.id schedule) COMPLETED
       (Some executed_at) (Some (json_dumps_result result));;
     mret tt)
    (λ e,
       ScheduleRepository.handle_failure (Schedule.id schedule) (str_exn e);;
       mret tt).

(** The locals of the dispatch loop of [execute_pending_email_schedules],
    with the task queue of [background_tasks]. *)
Record Dispatch : Type := mkDispatch {
  executed_count : Z;
  failed_count : Z;
  execution_details : list ExecutionDetail.t;
  tasks : list Schedule.t
}.

(** One iteration of [for schedule in pending_schedules]. *)
Definition dispatch `{!Collaborators}
    (n : nat) (acc : Dispatch) (schedule : Schedule.t) : Dispatch :=
  match add_task_raises n schedule with
  | None =>
      mkDispatch (executed_count acc + 1) (failed_count acc)
        (execution_details acc ++
           [ExecutionDetail.mk (Schedule.id schedule)
              (Schedule.schedule_name schedule) "started" None])
        (tasks acc ++ [schedule])
  | Some e =>
      mkDispatch (executed_count acc) (failed_count acc + 1)
        (execution_details acc ++
           [ExecutionDetail.mk (Schedule.id schedule)
              (Schedule.schedule_name schedule) "failed" (Some (str_exn e))])
        (tasks acc)
  end.

(** The handler returns its response together with the queued tasks; it
    runs none of them. *)
Definition execute_pending_email_schedules `{!Collaborators}
    : Exec (EmailScheduleExecuteResponse.t * list Schedule.t) :=
  try_except
    (current_time ← utcnow;
     pending_schedules ←
       ScheduleRepository.get_pending_schedules_by_time_and_type current_time EMAIL;
     w ← get_world;
     let acc := foldl (dispatch (ticks w)) (mkDispatch 0 0 [] []) pending_schedules in
     mret (EmailScheduleExecuteResponse.mk
             ("이메일 스케줄 실행 완료: 성공 " +:+ pretty (executed_count acc)
              +:+ "개, 실패 " +:+ pretty (failed_count acc) +:+ "개")
             (executed_count acc) (failed_count acc) current_time
             (execution_details acc),
           tasks acc))
    (λ e, raise (ApiError ("스케줄 실행 오류: " +:+ str_exn e))).

(** [BackgroundTasks.__call__]: after the response is sent the queued
    tasks run one after the other; an exception leaving a task ends the
    run. *)
Fixpoint run_background_tasks `{!Collaborators}
    (queue : list Schedule.t) : Exec unit :=
  match queue with
  | [] => mret tt
  | schedule :: queue =>
      execute_single_email_schedule schedule;;
      run_background_tasks queue
  end.

End email_router.

(** ** Transitions of the engine, one request after the other

    A request that passed the validation of its schema is submitted to one
    of the two creation endpoints, a cycle dispatches the due schedules and
    runs their execution units, or a schedule is cancelled.  A cycle is one
    transition: these are the runs in which no other request is handled
    between the handler of a cycle and the last of its units.  The runs
    without that restriction are those of [interleaved_step] below. *)
Inductive engine_step `{!Collaborators} : World → World → Prop :=
| step_submit request api_key_id email_service w w' o :
    BaseRetrySettings_valid (EmailScheduleRequest.max_retry request)
                            (EmailScheduleRequest.retry_interval request) = true →
    email_router.create_email_schedule request api_key_id email_service w = (w', o) →
    engine_step w w'
| step_submit_bulk request api_key_id email_service w w' o :
    BaseRetrySettings_valid (BulkEmailScheduleRequest.max_retry request)
                            (BulkEmailScheduleRequest.retry_interval request) = true →
    email_router.create_bulk_email_schedule request api_key_id email_service w = (w', o) →
    engine_step w w'
| step_cycle w w1 response queue w2 o :
    email_router.execute_pending_email_schedules w = (w1, Returned (response, queue)) →
    email_router.run_background_tasks queue w1 = (w2, o) →
    engine_step w w2
| step_cancel schedule_id api_key_id w w' o :
    email_router.cancel_email_schedule schedule_id api_key_id w = (w', o) →
    engine_step w w'.

(** ** Transitions of the engine, request by request and unit by unit

    The handler of a cycle only queues its execution units: they run as
    background tasks after the response has been sent, and other requests,
    the handler of another cycle among them, can be handled before they do.
    The state is the database together with the units that are waiting.  A
    waiting unit runs at any time, in any order, or never: the units queued
    behind a unit that raised are not run, and a process that stops runs
    none of them.  A handler and a unit are one transition each, as they
    are in one process: nothing they await hands control to another
    request. *)
Inductive interleaved_step `{!Collaborators}
    : World * list Schedule.t → World * list Schedule.t → Prop :=
| interleaved_submit request api_key_id email_service w w' o waiting :
    BaseRetrySettings_valid (EmailScheduleRequest.max_retry request)
                            (EmailScheduleRequest.retry_interval request) = true →
    email_router.create_email_schedule request api_key_id email_service w = (w', o) →
    interleaved_step (w, waiting) (w', waiting)
| interleaved_submit_bulk request api_key_id email_service w w' o waiting :
    BaseRetrySettings_valid (BulkEmailScheduleRequest.max_retry request)
                            (BulkEmailScheduleRequest.retry_interval request) = true →
    email_router.create_bulk_email_schedule request api_key_id email_service w = (w', o) →
    interleaved_step (w, waiting) (w', waiting)
| interleaved_cancel schedule_id api_key_id w w' o waiting :
    email_router.cancel_email_schedule schedule_id api_key_id w = (w', o) →
    interleaved_step (w, waiting) (w', waiting)
| interleaved_handler w w1 response queue waiting :
    email_router.execute_pending_email_schedules w = (w1, Returned (response, queue)) →
    interleaved_step (w, waiting) (w1, waiting ++ queue)
| interleaved_unit w w' o before schedule after :
    email_router.execute_single_email_schedule schedule w = (w', o) →
    interleaved_step (w, before ++ schedule :: after) (w', before ++ after)
| interleaved_skip w before schedule after :
    interleaved_step (w, before ++ schedule :: after) (w, before ++ after).

(** ** The sender selection in the words of the specification

    The explicit payload value if present, else the address configured for
    the service name of the owning API key, else the global default. *)
Module SenderSpec.

(** The global default sender; the configuration refuses to run without. *)
Definition global_default (env : gmap string string) : outcome string :=
  match truthy (env !! "NCLOUD_SENDER_EMAIL") with
  | Some a => Returned a
  | None =>
      Raised (ValueError "NCLOUD_SENDER_EMAIL 환경변수가 설정되지 않았습니다. NCloud에서 인증된 발신자 이메일을 설정하세요.")
  end.

(** The environment variable holding the address of a service. *)
Definition service_variable `{!Collaborators} (service_name : string) : string :=
  "NCLOUD_SENDER_EMAIL_" +:+
    (if decide (service_name = "service_a") then "SERVICE_A"
     else if decide (service_name = "service_b") then "SERVICE_B"
     else if decide (service_name = "service_c") then "SERVICE_C"
     else str_upper service_name).

(** The address derived from the owning key's service name, if any. *)
Definition derived_from_key `{!Collaborators}
    (owner : option ApiKey.t) (env : gmap string string) : option string :=
  key ← owner;
  truthy (env !! service_variable (ApiKey.service_name key)).

Definition resolveSenderAddress `{!Collaborators}
    (explicit : option string) (owner : option ApiKey.t)
    (env : gmap string string) : outcome string :=
  match truthy explicit with
  | Some a => Returned a
  | None =>
      match derived_from_key owner env with
      | Some a => Returned a
      | None => global_default env
      end
  end.

End SenderSpec.

(** ** Notions used in the statements *)

(** A computation that leaves the world as it found it. *)
Definition reads_only {A} (m : Exec A) : Prop := ∀ w, (m w).1 = w.

(** A computation that leaves the schedules, the API keys, the environment
    and the next id as it found them: it may read the clock and write the
    e-mail log. *)
Definition keeps_store {A} (m : Exec A) : Prop :=
  ∀ w, schedules (m w).1 = schedules w
       ∧ api_keys (m w).1 = api_keys w
       ∧ environ (m w).1 = environ w
       ∧ next_schedule_id (m w).1 = next_schedule_id w.

(** The invariant of a row: the retry settings are those the schema admits,
    the count stays within the larger of [max_retry] and 1, and a schedule
    still waiting has an attempt left. *)
Definition retry_bounded (s : Schedule.t) : Prop :=
  0 ≤ Schedule.max_retry s ≤ 10
  ∧ 60 ≤ Schedule.retry_interval s ≤ 3600
  ∧ 0 ≤ Schedule.retry_count s ≤ Z.max 1 (Schedule.max_retry s)
  ∧ (Schedule.status s = PENDING →
     Schedule.retry_count s < Z.max 1 (Schedule.max_retry s)).

Definition store_retry_bounded (w : World) : Prop :=
  store_wf w ∧ map_Forall (λ _ s, retry_bounded s) (schedules w).

(** A schedule the due-query for [now] does not select. *)
Definition not_due (now : datetime) (s : Schedule.t) : Prop :=
  Schedule.status s ≠ PENDING ∨ now < Schedule.scheduled_at s.

(** The row an execution unit leaves for the schedule [t] it was started
    for at clock state [n], with the way the unit ended: the message was
    sent; sending failed and the retries are used up; sending failed and the
    schedule is armed again; or the deferred time is no datetime, the
    exception leaves the unit and the row stays in PROCESSING.  [m] is the
    clock state after the sending. *)
Inductive unit_result `{!Collaborators} (n : nat) (t : Schedule.t)
    : Schedule.t → outcome unit → Prop :=
| unit_completed result m :
    unit_result n t
      (completed_row (processing_row t (clock n)) (clock m) result (clock (S m)))
      (Returned tt)
| unit_failed msg m :
    Schedule.max_retry t ≤ Schedule.retry_count t + 1 →
    unit_result n t
      (failed_row (processing_row t (clock n)) msg (clock m))
      (Returned tt)
| unit_rearmed msg m :
    Schedule.retry_count t + 1 < Schedule.max_retry t →
    unit_result n t
      (rearmed_row (processing_row t (clock n)) msg (clock m)
         (replace_second_microsecond (clock (S m)) 0 0
          + Schedule.retry_interval t * us_per_second))
      (Returned tt)
| unit_stuck e :
    Schedule.retry_count t + 1 < Schedule.max_retry t →
    unit_result n t (processing_row t (clock n)) (Raised e).

(** The entry the dispatch loop appends to [execution_details] for a
    schedule at clock state [n]. *)
Definition dispatch_detail `{!Collaborators} (n : nat) (schedule : Schedule.t)
    : ExecutionDetail.t :=
  match add_task_raises n schedule with
  | None =>
      ExecutionDetail.mk (Schedule.id schedule) (Schedule.schedule_name schedule)
        "started" None
  | Some e =>
      ExecutionDetail.mk (Schedule.id schedule) (Schedule.schedule_name schedule)
        "failed" (Some (str_exn e))
  end.

(** The schedules the handler of a cycle entered in world [w] looks at: the
    result of the due-query for e-mail at its clock reading. *)
Definition due_of `{!Collaborators} (w : World) : list Schedule.t :=
  filter (λ s, Schedule.scheduled_at s ≤ clock (ticks w)
               ∧ Schedule.status s = PENDING
               ∧ Schedule.schedule_type s = EMAIL)
         (map_to_list (schedules w)).*2.

(** ** Sample data *)

Module Samples.

(** 2026-01-01T12:00:00 *)
Definition noon : datetime := 63902865600000000.

Definition seconds (n : Z) : Z := n * us_per_second.

Definition ascii_upper (c : ascii) : ascii :=
  let n := nat_of_ascii c in
  if ((97 <=? n) && (n <=? 122))%nat then ascii_of_nat (n - 32) else c.

Fixpoint upper (s : string) : string :=
  match s with
  | EmptyString => EmptyString
  | String c s => String (ascii_upper c) (upper s)
  end.

Definition request : EmailRequest.t :=
  EmailRequest.mk "user@example.com" (Some "Hong") "Welcome" "<h1>Welcome</h1>"
                  (Some "noreply@example.com").

(** A clock that stands still at [now], a provider that accepts every
    message and answers with the sender as request id ([delivers = true]) or
    times out, a task queue that accepts every task ([queue_full = false])
    or refuses it. *)
Definition collaborators (now : datetime) (delivers queue_full : bool)
    : Collaborators :=
  {| clock := λ _, now;
     now_isoformat := λ _, "2026-01-01T21:00:45.000000";
     str_upper := upper;
     Payload := unit;
     json_loads := λ _, Returned tt;
     payload_is_bulk := λ _, false;
     email_request_of_payload := λ _, Returned request;
     payload_recipients := λ _, Raised (OtherException "'recipients'");
     empty_bulk_request_error := λ _, OtherException "'subject'";
     ncloud_send_email := λ _ _ sender,
       if delivers
       then Returned (NCloudResponse.mk (Some sender) (Some 1))
       else Raised (RequestException "API 요청 시간 초과 (30초)");
     ncloud_send_bulk_email := λ _ _ _,
       Raised (RequestException "API 요청 시간 초과 (30초)");
     new_request_id := λ n, "email_" +:+ pretty (Z.of_nat n);
     json_dumps_response := λ r, "{...}";
     json_dumps_result := λ r, "{...}";
     json_dumps_payload := λ _ _, "{...}";
     json_dumps_bulk_payload := λ _ _, "{...}";
     add_task_raises := λ _ _,
       if queue_full then Some (OtherException "queue full") else None |}.

(** The same clock and a provider that accepts every message, with stored
    payloads that are the bulk payloads of two recipients which
    [create_bulk_email_schedule] writes. *)
Definition bulk_collaborators (now : datetime) : Collaborators :=
  {| clock := λ _, now;
     now_isoformat := λ _, "2026-01-01T21:00:45.000000";
     str_upper := upper;
     Payload := unit;
     json_loads := λ _, Returned tt;
     payload_is_bulk := λ _, true;
     email_request_of_payload := λ _, Raised (OtherException "'to_email'");
     payload_recipients := λ _, Returned 2%nat;
     empty_bulk_request_error := λ _,
       OtherException "ensure this value has at least 1 items";
     ncloud_send_email := λ _ _ sender,
       Returned (NCloudResponse.mk (Some sender) (Some 1));
     ncloud_send_bulk_email := λ _ _ sender,
       Returned (NCloudResponse.mk (Some sender) (Some 2));
     new_request_id := λ n, "email_" +:+ pretty (Z.of_nat n);
     json_dumps_response := λ r, "{...}";
     json_dumps_result := λ r, "{...}";
     json_dumps_payload := λ _ _, "{...}";
     json_dumps_bulk_payload := λ _ _, "{...}";
     add_task_raises := λ _ _, None |}.

(** A clock that stands still at [now] and a provider that accepts the
    messages it is handed before the tenth clock reading and times out
    afterwards. *)
Definition flaky (now : datetime) : Collaborators :=
  {| clock := λ _, now;
     now_isoformat := λ _, "2026-01-01T21:00:45.000000";
     str_upper := upper;
     Payload := unit;
     json_loads := λ _, Returned tt;
     payload_is_bulk := λ _, false;
     email_request_of_payload := λ _, Returned request;
     payload_recipients := λ _, Raised (OtherException "'recipients'");
     empty_bulk_request_error := λ _, OtherException "'subject'";
     ncloud_send_email := λ n _ sender,
       if (n <? 10)%nat
       then Returned (NCloudResponse.mk (Some sender) (Some 1))
       else Raised (RequestException "API 요청 시간 초과 (30초)");
     ncloud_send_bulk_email := λ _ _ _,
       Raised (RequestException "API 요청 시간 초과 (30초)");
     new_request_id := λ n, "email_" +:+ pretty (Z.of_nat n);
     json_dumps_response := λ r, "{...}";
     json_dumps_result := λ r, "{...}";
     json_dumps_payload := λ _ _, "{...}";
     json_dumps_bulk_payload := λ _ _, "{...}";
     add_task_raises := λ _ _, None |}.

(** An e-mail schedule owned by key 1. *)
Definition schedule (id : Z) (scheduled_at : datetime) (status : ScheduleStatus)
    (max_retry retry_count retry_interval : Z) : Schedule.t :=
  Schedule.mk id 1 "welcome mail" EMAIL scheduled_at "UTC" "{...}" status None
              max_retry retry_count retry_interval None None
              (noon - seconds 3600) (noon - seconds 3600).

Definition env : gmap string string :=
  <["NCLOUD_ACCESS_KEY" := "access"]>
    (<["NCLOUD_SECRET_KEY" := "secret"]>
       (<["NCLOUD_SENDER_EMAIL" := "default@example.com"]>
          (<["NCLOUD_SENDER_EMAIL_SERVICE_A" := "a@example.com"]> ∅))).

Definition keys : gmap Z ApiKey.t :=
  <[1 := ApiKey.mk 1 "key of service a" "eb2058a8" "service_a" true]>
    (<[2 := ApiKey.mk 2 "key of service b" "798004a6" "service_b" true]> ∅).

(** A world holding the given rows. *)
Definition world (rows : list Schedule.t) : World :=
  mkWorld (list_to_map ((λ s, (Schedule.id s, s)) <$> rows)) keys env 100 0 [].

(** A submission allowing one attempt, and the worlds after it and after
    the cycle that follows, with a provider that times out. *)
Definition failing : Collaborators :=
  collaborators (noon + seconds 45) false false.

Definition submission : EmailScheduleRequest.t :=
  EmailScheduleRequest.mk "welcome mail" noon "UTC" "Welcome" "<h1>Welcome</h1>"
    None None None 1 60 "user@example.com" (Some "Hong").

Definition after_submit : World :=
  (@email_router.create_email_schedule failing submission 1
     (EmailService.mk true) (world [])).1.

Definition after_cycle : World :=
  match @email_router.execute_pending_email_schedules failing after_submit with
  | (w1, Returned (_, queue)) =>
      (@email_router.run_background_tasks failing queue w1).1
  | (w1, Raised _) => w1
  end.

End Samples.

(** ** The remaining queries of the schedule store
    ([app/repositories/schedule_repository.py]) *)

Module ScheduleRepositoryQueries.

Definition get_pending_schedules_by_time (current_time : datetime)
    : Exec (list Schedule.t) :=
  λ w, (w, Returned
    (filter (λ s, Schedule.scheduled_at s ≤ current_time
                  ∧ Schedule.status s = PENDING)
            (map_to_list (schedules w)).*2)).

Definition get_by_status (status : ScheduleStatus) : Exec (list Schedule.t) :=
  λ w, (w, Returned
    (filter (λ s, Schedule.status s = status) (map_to_list (schedules w)).*2)).

Definition get_retry_pending_schedules (current_time : datetime)
    : Exec (list Schedule.t) :=
  λ w, (w, Returned
    (filter (λ s, Schedule.scheduled_at s ≤ current_time
                  ∧ Schedule.status s = PENDING
                  ∧ Schedule.retry_count s > 0
                  ∧ Schedule.retry_count s < Schedule.max_retry s)
            (map_to_list (schedules w)).*2)).

(** The dictionary [filters]: the three keys the queries look for, each
    present or not. *)
Record Filters : Type := mkFilters {
  status : option ScheduleStatus;
  schedule_type : option ScheduleType;
  api_key_id : option Z
}.

(** [if "status" in filters: query = query.filter(...)], and the same for
    ["schedule_type"] and ["api_key_id"]. *)
Definition apply_filters (filters : Filters) (query : list Schedule.t)
    : list Schedule.t :=
  let query :=
    match status filters with
    | Some v => filter (λ s, Schedule.status s = v) query
    | None => query
    end in
  let query :=
    match schedule_type filters with
    | Some v => filter (λ s, Schedule.schedule_type s = v) query
    | None => query
    end in
  match api_key_id filters with
  | Some v => filter (λ s, Schedule.api_key_id s = v) query
  | None => query
  end.

(** [order_by(Schedule.created_at.desc())]; rows created at the same time
    keep the order the table gives them. *)
Definition created_at_desc (a b : Schedule.t) : Prop :=
  Schedule.created_at b ≤ Schedule.created_at a.

#[global] Instance created_at_desc_dec a b : Decision (created_at_desc a b).
Proof. unfold created_at_desc. apply _. Defined.

Definition order_by_created_at_desc (query : list Schedule.t) : list Schedule.t :=
  merge_sort created_at_desc query.

(** [.offset(offset).limit(limit).all()]; the database refuses a negative
    OFFSET or LIMIT. *)
Definition offset_limit_all (offset limit : Z) (query : list Schedule.t)
    : Exec (list Schedule.t) :=
  if bool_decide (offset < 0 ∨ limit < 0)
  then raise (OtherException "You have an error in your SQL syntax")
  else mret (take (Z.to_nat limit) (drop (Z.to_nat offset) query)).

Definition get_by_filters (filters : Filters) (limit offset : Z)
    : Exec (list Schedule.t) :=
  w ← get_world;
  let query := apply_filters filters (map_to_list (schedules w)).*2 in
  offset_limit_all offset limit (order_by_created_at_desc query).

(** [filters] is optional here, and an empty dictionary counts as none. *)
Definition get_list (filters : option Filters) (limit offset : Z)
    : Exec (list Schedule.t) :=
  w ← get_world;
  let query := (map_to_list (schedules w)).*2 in
  let query :=
    match filters with
    | Some filters => apply_filters filters query
    | None => query
    end in
  offset_limit_all offset limit (order_by_created_at_desc query).

Definition count_by_filters (filters : Filters) : Exec Z :=
  w ← get_world;
  mret (Z.of_nat (length (apply_filters filters (map_to_list (schedules w)).*2))).

End ScheduleRepositoryQueries.

(** [ScheduleStatus(value)]: the member with that value, or [ValueError]. *)
Definition ScheduleStatus_of_value (value : string) : outcome ScheduleStatus :=
  if decide (value = "pending") then Returned PENDING
  else if decide (value = "processing") then Returned PROCESSING
  else if decide (value = "completed") then Returned COMPLETED
  else if decide (value = "failed") then Returned FAILED
  else if decide (value = "cancelled") then Returned CANCELLED
  else Raised (ValueError ("'" +:+ value +:+ "' is not a valid ScheduleStatus")).

(** [ScheduleType.value] *)
Definition type_value (ty : ScheduleType) : string :=
  match ty with
  | EMAIL => "email"
  | SMS => "sms"
  | KAKAO => "kakao"
  end.

(** [datetime.isoformat], a function of the standard library. *)
Class Formats : Type := {
  isoformat : datetime → string
}.

(** ** The API keys ([app/repositories/api_key_repository.py],
    [app/dependencies/auth.py]) *)

Module ApiKeyRepository.

Definition get_by_api_key (api_key : string) : Exec (option ApiKey.t) :=
  λ w, (w, Returned
    (head (filter (λ k, ApiKey.api_key k = api_key) (map_to_list (api_keys w)).*2))).

Definition get_by_service (service_name : string) : Exec (list ApiKey.t) :=
  λ w, (w, Returned
    (filter (λ k, ApiKey.service_name k = service_name)
            (map_to_list (api_keys w)).*2)).

Definition get_active_keys : Exec (list ApiKey.t) :=
  λ w, (w, Returned
    (filter (λ k, ApiKey.is_active k = true) (map_to_list (api_keys w)).*2)).

End ApiKeyRepository.

Module auth.

Definition get_api_key_id (x_api_key : option string) : Exec Z :=
  match truthy x_api_key with
  | None => raise (ApiError "X-API-Key 헤더가 필요합니다")
  | Some x_api_key =>
      api_key_record ← ApiKeyRepository.get_by_api_key x_api_key;
      match api_key_record with
      | None => raise (ApiError "유효하지 않은 API 키입니다")
      | Some api_key_record =>
          if negb (ApiKey.is_active api_key_record)
          then raise (ApiError "비활성화된 API 키입니다")
          else mret (ApiKey.id api_key_record)
      end
  end.

End auth.

(** ** The read endpoints of the schedules ([app/routers/email_router.py]) *)

Module email_router_queries.

(** [ScheduleFilterParams] *)
Record ScheduleFilterParams : Type := mkParams {
  status : option string;
  limit : Z;
  offset : Z
}.

(** One dictionary of [schedule_list]. *)
Record ScheduleListItem : Type := mkItem {
  item_schedule_id : Z;
  item_schedule_name : string;
  item_scheduled_at : string;
  item_status : string;
  item_created_at : string;
  item_executed_at : option string;
  item_retry_count : Z;
  item_error_message : option string
}.

Definition list_item `{!Formats} (schedule : Schedule.t) : ScheduleListItem :=
  mkItem (Schedule.id schedule) (Schedule.schedule_name schedule)
         (isoformat (Schedule.scheduled_at schedule))
         (status_value (Schedule.status schedule))
         (isoformat (Schedule.created_at schedule))
         (isoformat <$> Schedule.executed_at schedule)
         (Schedule.retry_count schedule)
         (Schedule.error_message schedule).

(** [EmailScheduleListResponse] *)
Record EmailScheduleListResponse : Type := mkListResponse {
  schedules_ : list ScheduleListItem;
  total_count : Z;
  page : Z;
  size : Z
}.

Definition list_email_schedules `{!Formats}
    (params : ScheduleFilterParams) (api_key_id : Z)
    : Exec EmailScheduleListResponse :=
  filters ←
    match truthy (status params) with
    | Some value =>
        st ← lift (ScheduleStatus_of_value value);
        mret (ScheduleRepositoryQueries.mkFilters (Some st) (Some EMAIL) (Some api_key_id))
    | None =>
        mret (ScheduleRepositoryQueries.mkFilters None (Some EMAIL) (Some api_key_id))
    end;
  schedules ←
    ScheduleRepositoryQueries.get_by_filters filters (limit params) (offset params);
  total_count ← ScheduleRepositoryQueries.count_by_filters filters;
  let schedule_list := list_item <$> schedules in
  if decide (limit params = 0)
  then raise (OtherException "integer division or modulo by zero")
  else mret (mkListResponse schedule_list total_count
               (offset params / limit params) (limit params)).

(** The dictionary [get_email_schedule] returns. *)
Record ScheduleDetail `{!Collaborators} : Type := mkDetail {
  detail_schedule_id : Z;
  detail_schedule_name : string;
  detail_schedule_type : string;
  detail_scheduled_at : string;
  detail_timezone : string;
  detail_status : string;
  detail_payload : Payload;
  detail_max_retry : Z;
  detail_retry_count : Z;
  detail_retry_interval : Z;
  detail_created_at : string;
  detail_executed_at : option string;
  detail_result : option Payload;
  detail_error_message : option string
}.

Arguments mkDetail {_} _ _ _ _ _ _ _ _ _ _ _ _ _ _.

Definition get_email_schedule `{!Collaborators} `{!Formats}
    (schedule_id : Z) (api_key_id : Z) : Exec ScheduleDetail :=
  schedule ← ScheduleRepository.get_by_id schedule_id;
  match schedule with
  | None => raise (ApiError "스케줄을 찾을 수 없습니다")
  | Some schedule =>
      if bool_decide (Schedule.api_key_id schedule ≠ api_key_id)
      then raise (ApiError "접근 권한이 없습니다")
      else if bool_decide (Schedule.schedule_type schedule ≠ EMAIL)
      then raise (ApiError "이메일 스케줄이 아닙니다")
      else
        payload ← lift (json_loads (Schedule.payload schedule));
        result ←
          match truthy (Schedule.result schedule) with
          | Some result => r ← lift (json_loads result); mret (Some r)
          | None => mret None
          end;
        mret (mkDetail (Schedule.id schedule) (Schedule.schedule_name schedule)
                (type_value (Schedule.schedule_type schedule))
                (isoformat (Schedule.scheduled_at schedule))
                (Schedule.timezone schedule)
                (status_value (Schedule.status schedule))
                payload
                (Schedule.max_retry schedule) (Schedule.retry_count schedule)
                (Schedule.retry_interval schedule)
                (isoformat (Schedule.created_at schedule))
                (isoformat <$> Schedule.executed_at schedule)
                result
                (Schedule.error_message schedule))
  end.

End email_router_queries.

(** ** Checks of the configuration ([NCloudConfig.validate],
    [EmailService.health_check]) *)

Module NCloudConfigChecks.

Definition validate : Exec bool :=
  try_except
    (NCloudConfig.access_key;;
     NCloudConfig.secret_key;;
     mret true)
    (λ e, match e with
          | ValueError _ => mret false
          | _ => raise e
          end).

End NCloudConfigChecks.

Module EmailServiceHealth.

Record Health : Type := mkHealth {
  service : string;
  status : string;
  message : string;
  ncloud_config : option bool;
  timestamp : string
}.

Definition health_check `{!Collaborators} (self : EmailService.t) : Exec Health :=
  try_except
    (is_healthy ← NCloudConfigChecks.validate;
     w ← get_world;
     mret (mkHealth "email"
             (if is_healthy : bool then "healthy" else "unhealthy")
             (if is_healthy then "이메일 서비스가 정상 동작 중입니다" else "설정 오류")
             (Some is_healthy)
             (now_isoformat (ticks w))))
    (λ e,
       w ← get_world;
       mret (mkHealth "email" "error"
               ("서비스 상태 확인 실패: " +:+ str_exn e) None
               (now_isoformat (ticks w)))).

End EmailServiceHealth.

(** ** Rows and clocks used in the statements on the engine *)

(** The row [create] stores. *)
Definition created_row (id api_key_id : Z) (schedule_name : string)
    (schedule_type : ScheduleType) (scheduled_at : datetime)
    (payload timezone : string) (max_retry retry_interval : Z)
    (created_at updated_at : datetime) : Schedule.t :=
  Schedule.mk id api_key_id schedule_name schedule_type scheduled_at timezone
              payload PENDING None max_retry 0 retry_interval None None
              created_at updated_at.

(** The row the cancel endpoint stores. *)
Definition cancelled_row (s : Schedule.t) (now : datetime) : Schedule.t :=
  Schedule.set_updated_at now (Schedule.set_status CANCELLED s).

(** A clock whose readings are datetimes at least 3660 seconds before
    [datetime.max]: no retry interval the schema admits leads out of the
    datetimes from there. *)
Definition clock_in_range `{!Collaborators} : Prop :=
  ∀ n, 0 ≤ clock n ≤ datetime_max - 3660 * us_per_second.

(** ** Sample data for the read endpoints *)

Module Listing.

Definition row (id api_key_id : Z) (schedule_type : ScheduleType)
    (status : ScheduleStatus) (created_at : datetime) : Schedule.t :=
  Schedule.mk id api_key_id "newsletter" schedule_type Samples.noon "UTC" "{...}"
              status None 3 0 60 None None created_at created_at.

(** Four schedules of key 1, one of them for SMS and one completed, and one
    schedule of key 2, in the order of their creation. *)
Definition rows : list Schedule.t :=
  [ row 1 1 EMAIL PENDING (Samples.noon - Samples.seconds 500);
    row 2 1 EMAIL COMPLETED (Samples.noon - Samples.seconds 400);
    row 3 2 EMAIL PENDING (Samples.noon - Samples.seconds 300);
    row 4 1 SMS PENDING (Samples.noon - Samples.seconds 200);
    row 5 1 EMAIL PENDING (Samples.noon - Samples.seconds 100) ].

Definition world : World := Samples.world rows.

Definition formats : Formats := {| isoformat := λ t, pretty t |}.

End Listing.

(** ** Notions used in the statements on the rows of the engine *)

(** Every key in use lies below the key the database assigns next. *)
Definition ids_below_next (w : World) : Prop :=
  ∀ k s, schedules w !! k = Some s → k < next_schedule_id w.

(** A row as a creation endpoint stores it for a request that passed the
    schema. *)
Definition newly_created (s : Schedule.t) : Prop :=
  Schedule.schedule_type s = EMAIL
  ∧ Schedule.status s = PENDING
  ∧ Schedule.retry_count s = 0
  ∧ Schedule.executed_at s = None
  ∧ Schedule.result s = None
  ∧ Schedule.error_message s = None
  ∧ BaseRetrySettings_valid (Schedule.max_retry s) (Schedule.retry_interval s) = true.

(** The due-query of a cycle entered in [w] passes over the row. *)
Definition passed_over `{!Collaborators} (w : World) (s : Schedule.t) : Prop :=
  Schedule.status s ≠ PENDING
  ∨ clock (ticks w) < Schedule.scheduled_at s
  ∨ Schedule.schedule_type s ≠ EMAIL.

(** What a computation that writes no row but the one under [k] makes of a
    well-formed store: the store stays well formed, no key is assigned, the
    other rows are kept, no row appears under [k], and the row under [k]
    keeps the property [P]. *)
Definition row_written (k : Z) (P : Schedule.t → Prop) (w w' : World) : Prop :=
  store_wf w'
  ∧ next_schedule_id w' = next_schedule_id w
  ∧ (∀ j, j ≠ k → schedules w' !! j = schedules w !! j)
  ∧ (∀ s', schedules w' !! k = Some s' →
           ∃ s, schedules w !! k = Some s ∧ (P s → P s')).

Definition writes_row_only {A} (k : Z) (P : Schedule.t → Prop) (m : Exec A) : Prop :=
  ∀ w, store_wf w → row_written k P w (m w).1.

(** A property of rows that the four writes of an execution unit keep. *)
Definition kept_by_unit `{!Collaborators} (P : Schedule.t → Prop) : Prop :=
  (∀ s now, P s → P (processing_row s now))
  ∧ (∀ s executed_at result now,
       P s → P (completed_row s executed_at (json_dumps_result result) now))
  ∧ (∀ s msg now, P s → P (failed_row s msg now))
  ∧ (∀ s msg now at_, P s → P (rearmed_row s msg now at_)).

(** * Properties *)

(** ** Running effectful code *)

Ltac exec_unfold :=
  unfold mbind, mret, Exec_bind, Exec_ret, bind, ret, raise, lift, get_world,
    try_except, utcnow, getenv,
    ScheduleRepository.query_first, ScheduleRepository.get_by_id,
    ScheduleRepository.commit, ScheduleRepository.autoincrement.

Lemma pair_eta_snd {A B} (p : A * B) (b : B) : p.2 = b → p = (p.1, b).
Proof. destruct p. cbn. by intros ->. Qed.

(** ** Dates *)

Lemma replace_second_microsecond_floor (t : datetime) :
  replace_second_microsecond t 0 0 = t - t mod us_per_minute.
Proof.
  unfold replace_second_microsecond, second, microsecond, us_per_minute, us_per_second.
  replace (60 * 1000000) with (1000000 * 60) by lia.
  rewrite (Z.rem_mul_r t 1000000 60) by lia. lia.
Qed.

Lemma replace_second_microsecond_zero (t : datetime) :
  second (replace_second_microsecond t 0 0) = 0
  ∧ microsecond (replace_second_microsecond t 0 0) = 0.
Proof.
  rewrite replace_second_microsecond_floor.
  unfold second, microsecond, us_per_minute, us_per_second.
  pose proof (Z.div_mod t (60 * 1000000) ltac:(lia)) as Hdm.
  replace (t - t mod (60 * 1000000)) with (t / (60 * 1000000) * 60 * 1000000) by lia.
  split.
  - rewrite Z.div_mul by lia. apply Z.mod_mul. lia.
  - apply Z.mod_mul. lia.
Qed.

Lemma replace_second_microsecond_bounds (t : datetime) :
  t - us_per_minute < replace_second_microsecond t 0 0 ≤ t.
Proof.
  rewrite replace_second_microsecond_floor.
  pose proof (Z.mod_pos_bound t us_per_minute ltac:(unfold us_per_minute, us_per_second; lia)).
  lia.
Qed.

Lemma representable_spec (t : Z) :
  representable t = true ↔ 0 ≤ t ≤ datetime_max.
Proof. unfold representable. rewrite andb_true_iff, Z.leb_le, Z.leb_le. done. Qed.

Lemma timedelta_of_seconds_ok (n : Z) :
  - (86400 * 999999999) ≤ n < 86400 * 1000000000 →
  timedelta_of_seconds n = Returned (n * us_per_second).
Proof.
  intros Hn. unfold timedelta_of_seconds. cbv zeta.
  assert (Z.abs (n / 86400) ≤ 999999999) as Habs.
  { assert (- 999999999 ≤ n / 86400) by (apply Z.div_le_lower_bound; lia).
    assert (n / 86400 < 1000000000) by (apply Z.div_lt_upper_bound; lia).
    lia. }
  destruct (Z.ltb_spec 999999999 (Z.abs (n / 86400))); [lia | done].
Qed.

(** The re-arming arithmetic of [handle_failure] succeeds whenever the clock
    reading and the deferred time are datetimes. *)
Lemma rearm_time_ok (now interval : Z) :
  representable now = true →
  representable (replace_second_microsecond now 0 0 + interval * us_per_second) = true →
  timedelta_of_seconds interval = Returned (interval * us_per_second)
  ∧ add (replace_second_microsecond now 0 0) (interval * us_per_second)
    = Returned (replace_second_microsecond now 0 0 + interval * us_per_second).
Proof.
  intros Hnow Hre. split.
  - apply timedelta_of_seconds_ok.
    apply representable_spec in Hnow, Hre.
    pose proof (replace_second_microsecond_bounds now) as Hb.
    unfold datetime_max, MAXORDINAL, us_per_day, us_per_minute, us_per_second in *.
    lia.
  - unfold add. by rewrite Hre.
Qed.

(** ** The schedule store *)

Section Repository.
Context `{!Collaborators}.
Import ScheduleRepository.

Lemma update_status_found (w : World) (schedule_id : Z) (s : Schedule.t)
    (st : ScheduleStatus) (ea : option datetime) (r : option string) :
  schedules w !! schedule_id = Some s →
  let s1 := Schedule.set_status st s in
  let s2 := match ea with Some _ => Schedule.set_executed_at ea s1 | None => s1 end in
  let s3 := match truthy r with Some _ => Schedule.set_result r s2 | None => s2 end in
  let s4 := Schedule.set_updated_at (clock (ticks w)) s3 in
  update_status schedule_id st ea r w
  = (with_schedules (<[Schedule.id s := s4]> (schedules w)) (with_ticks (S (ticks w)) w),
     Returned (Some s4)).
Proof.
  intros Hs. unfold update_status. exec_unfold. rewrite Hs. cbn.
  destruct ea, (truthy r); reflexivity.
Qed.

Lemma update_status_missing (w : World) (schedule_id : Z)
    (st : ScheduleStatus) (ea : option datetime) (r : option string) :
  schedules w !! schedule_id = None →
  update_status schedule_id st ea r w = (w, Returned None).
Proof. intros Hs. unfold update_status. exec_unfold. by rewrite Hs. Qed.

Lemma handle_failure_missing (w : World) (schedule_id : Z) (msg : string) :
  schedules w !! schedule_id = None →
  handle_failure schedule_id msg w = (w, Returned None).
Proof. intros Hs. unfold handle_failure. exec_unfold. by rewrite Hs. Qed.

Lemma handle_failure_exhausted (w : World) (schedule_id : Z) (s : Schedule.t)
    (msg : string) :
  schedules w !! schedule_id = Some s →
  Schedule.max_retry s ≤ Schedule.retry_count s + 1 →
  let s' := failed_row s msg (clock (ticks w)) in
  handle_failure schedule_id msg w
  = (with_schedules (<[Schedule.id s := s']> (schedules w)) (with_ticks (S (ticks w)) w),
     Returned (Some s')).
Proof.
  intros Hs Hmax. unfold handle_failure. exec_unfold. rewrite Hs. cbn.
  rewrite bool_decide_eq_true_2 by lia. reflexivity.
Qed.

Lemma handle_failure_rearmed (w : World) (schedule_id : Z) (s : Schedule.t)
    (msg : string) :
  schedules w !! schedule_id = Some s →
  Schedule.retry_count s + 1 < Schedule.max_retry s →
  let now := clock (S (ticks w)) in
  let at_ := replace_second_microsecond now 0 0
             + Schedule.retry_interval s * us_per_second in
  representable now = true →
  representable at_ = true →
  let s' := rearmed_row s msg (clock (ticks w)) at_ in
  handle_failure schedule_id msg w
  = (with_schedules (<[Schedule.id s := s']> (schedules w))
       (with_ticks (S (S (ticks w))) w),
     Returned (Some s')).
Proof.
  intros Hs Hmax now at_ Hnow Hat s'.
  destruct (rearm_time_ok now (Schedule.retry_interval s) Hnow Hat) as [Htd Hadd].
  unfold handle_failure. exec_unfold. rewrite Hs. cbn.
  rewrite bool_decide_eq_false_2 by lia. cbn.
  fold now. rewrite Htd, Hadd. reflexivity.
Qed.

End Repository.

Lemma sample_world_wf (rows : list Schedule.t) : store_wf (Samples.world rows).
Proof.
  intros k s Hks. cbn in Hks.
  apply elem_of_list_to_map_2 in Hks.
  apply list_elem_of_fmap in Hks as (s' & [= -> ->] & _). done.
Qed.

(** C1: for every schedule in the store, [handle_failure] adds one to
    [retry_count] and records the message; when the new count reaches
    [max_retry] the status becomes FAILED, otherwise it becomes PENDING and
    [scheduled_at] is the clock reading with second and microsecond set to
    zero, plus [retry_interval] seconds (the reading and the deferred time
    being datetimes). *)
Theorem handle_failure_increments_and_rearms `{!Collaborators}
    (w : World) (schedule_id : Z) (s : Schedule.t) (msg : string) :
  store_wf w →
  schedules w !! schedule_id = Some s →
  (Schedule.retry_count s + 1 < Schedule.max_retry s →
   representable (clock (S (ticks w))) = true
   ∧ representable (replace_second_microsecond (clock (S (ticks w))) 0 0
                    + Schedule.retry_interval s * us_per_second) = true) →
  ∃ w' s',
    ScheduleRepository.handle_failure schedule_id msg w = (w', Returned (Some s'))
    ∧ schedules w' !! schedule_id = Some s'
    ∧ Schedule.retry_count s' = Schedule.retry_count s + 1
    ∧ Schedule.error_message s' = Some msg
    ∧ (if decide (Schedule.retry_count s + 1 >= Schedule.max_retry s)
       then Schedule.status s' = FAILED
       else Schedule.status s' = PENDING
            ∧ Schedule.scheduled_at s'
              = replace_second_microsecond (clock (S (ticks w))) 0 0
                + Schedule.retry_interval s * us_per_second
            ∧ second (replace_second_microsecond (clock (S (ticks w))) 0 0) = 0
            ∧ microsecond (replace_second_microsecond (clock (S (ticks w))) 0 0) = 0).
Proof.
  intros Hwf Hs Hrange. pose proof (Hwf _ _ Hs) as Hid. cbn in Hid.
  destruct (decide (Schedule.retry_count s + 1 >= Schedule.max_retry s)) as [Hge|Hlt].
  - eexists _, _. split.
    { apply handle_failure_exhausted; [done | lia]. }
    cbn. rewrite Hid, lookup_insert_eq. done.
  - destruct Hrange as [Hnow Hat]; [lia |].
    eexists _, _. split.
    { apply handle_failure_rearmed; [done | lia | done | done]. }
    cbn. rewrite Hid, lookup_insert_eq.
    pose proof (replace_second_microsecond_zero (clock (S (ticks w)))) as [? ?].
    done.
Qed.

Lemma handle_failure_increments_and_rearms_witness :
  store_wf (Samples.world [Samples.schedule 7 Samples.noon PENDING 3 0 300])
  ∧ ∃ w' s',
      @ScheduleRepository.handle_failure
        (Samples.collaborators (Samples.noon + 45500000) false false)
        7 "timeout" (Samples.world [Samples.schedule 7 Samples.noon PENDING 3 0 300])
      = (w', Returned (Some s'))
      ∧ schedules w' !! 7 = Some s'
      ∧ Schedule.retry_count s' = 1
      ∧ Schedule.error_message s' = Some "timeout"
      ∧ Schedule.status s' = PENDING
      ∧ Schedule.scheduled_at s' = Samples.noon + Samples.seconds 300.
Proof.
  split; [apply sample_world_wf |].
  destruct (@handle_failure_increments_and_rearms
              (Samples.collaborators (Samples.noon + 45500000) false false)
              (Samples.world [Samples.schedule 7 Samples.noon PENDING 3 0 300])
              7 (Samples.schedule 7 Samples.noon PENDING 3 0 300) "timeout")
    as (w' & s' & Hrun & Hrow & Hcount & Hmsg & Hcase).
  - apply sample_world_wf.
  - vm_compute. reflexivity.
  - intros _. vm_compute. split; reflexivity.
  - exists w', s'. cbn in Hcase. destruct Hcase as (Hst & Hat & _).
    repeat split; assumption.
Defined.

(** Three failures of a schedule with [max_retry = 3] on a clock standing at
    12:00:45.5: PENDING, PENDING, FAILED, and each re-arming sets 12:05:00. *)
Example handle_failure_three_times :
  let now := Samples.noon + 45500000 in
  let C := Samples.collaborators now false false in
  let s0 := Samples.schedule 7 Samples.noon PENDING 3 0 300 in
  let w1 := (@ScheduleRepository.handle_failure C 7 "timeout" (Samples.world [s0])).1 in
  let w2 := (@ScheduleRepository.handle_failure C 7 "timeout" w1).1 in
  let w3 := (@ScheduleRepository.handle_failure C 7 "timeout" w2).1 in
  let s1 := rearmed_row s0 "timeout" now (Samples.noon + Samples.seconds 300) in
  let s2 := rearmed_row s1 "timeout" now (Samples.noon + Samples.seconds 300) in
  let s3 := failed_row s2 "timeout" now in
  (schedules w1 !! 7, schedules w2 !! 7, schedules w3 !! 7) = (Some s1, Some s2, Some s3)
  ∧ Schedule.retry_count s3 = 3.
Proof. vm_compute. split; reflexivity. Qed.

(** C10: [update_status] writes [status] and [updated_at], writes
    [executed_at] only when a time is passed and [result] only when a
    non-empty text is passed, and leaves every other column, every other
    row and the other tables as they were. *)
Theorem update_status_frame `{!Collaborators}
    (w : World) (schedule_id : Z) (s : Schedule.t)
    (st : ScheduleStatus) (ea : option datetime) (r : option string) :
  store_wf w →
  schedules w !! schedule_id = Some s →
  ∃ w' s',
    ScheduleRepository.update_status schedule_id st ea r w = (w', Returned (Some s'))
    ∧ schedules w' = <[schedule_id := s']> (schedules w)
    ∧ api_keys w' = api_keys w
    ∧ environ w' = environ w
    ∧ Schedule.status s' = st
    ∧ Schedule.updated_at s' = clock (ticks w)
    ∧ Schedule.executed_at s'
      = match ea with Some t => Some t | None => Schedule.executed_at s end
    ∧ Schedule.result s'
      = match r with
        | Some x => if decide (x = "") then Schedule.result s else Some x
        | None => Schedule.result s
        end
    ∧ Schedule.retry_count s' = Schedule.retry_count s
    ∧ Schedule.max_retry s' = Schedule.max_retry s
    ∧ Schedule.retry_interval s' = Schedule.retry_interval s
    ∧ Schedule.scheduled_at s' = Schedule.scheduled_at s
    ∧ Schedule.error_message s' = Schedule.error_message s
    ∧ Schedule.payload s' = Schedule.payload s
    ∧ Schedule.api_key_id s' = Schedule.api_key_id s
    ∧ Schedule.schedule_name s' = Schedule.schedule_name s
    ∧ Schedule.schedule_type s' = Schedule.schedule_type s
    ∧ Schedule.timezone s' = Schedule.timezone s
    ∧ Schedule.created_at s' = Schedule.created_at s
    ∧ Schedule.id s' = Schedule.id s.
Proof.
  intros Hwf Hs. pose proof (Hwf _ _ Hs) as Hid. cbn in Hid.
  subst schedule_id.
  eexists _, _. split; [by apply update_status_found |].
  destruct ea as [t|], r as [x|]; cbn; try destruct (decide (x = "")); cbn;
    repeat split; reflexivity.
Qed.

Lemma update_status_frame_witness :
  ∃ w' s',
    @ScheduleRepository.update_status
      (Samples.collaborators (Samples.noon + 45500000) true false)
      7 COMPLETED None (Some "")
      (Samples.world [Samples.schedule 7 Samples.noon PROCESSING 3 1 300;
                      Samples.schedule 8 Samples.noon PENDING 3 0 300])
    = (w', Returned (Some s'))
    ∧ schedules w' !! 8 = Some (Samples.schedule 8 Samples.noon PENDING 3 0 300)
    ∧ Schedule.status s' = COMPLETED
    ∧ Schedule.executed_at s' = None
    ∧ Schedule.result s' = None
    ∧ Schedule.retry_count s' = 1.
Proof.
  destruct (@update_status_frame
              (Samples.collaborators (Samples.noon + 45500000) true false)
              (Samples.world [Samples.schedule 7 Samples.noon PROCESSING 3 1 300;
                              Samples.schedule 8 Samples.noon PENDING 3 0 300])
              7 (Samples.schedule 7 Samples.noon PROCESSING 3 1 300)
              COMPLETED None (Some ""))
    as (w' & s' & Hrun & Hrows & _ & _ & Hst & _ & Hea & Hres & Hrc & _).
  - apply sample_world_wf.
  - vm_compute. reflexivity.
  - exists w', s'. rewrite Hrows, lookup_insert_ne by lia.
    repeat split; assumption.
Defined.

(** C6, as the code has it: for an id without a row, [update_status] raises
    nothing; it returns [None] and leaves the world as it was. *)
Theorem update_status_absent_id_returns_none `{!Collaborators}
    (w : World) (schedule_id : Z)
    (st : ScheduleStatus) (ea : option datetime) (r : option string) :
  schedules w !! schedule_id = None →
  ScheduleRepository.update_status schedule_id st ea r w = (w, Returned None).
Proof. apply update_status_missing. Qed.

Lemma update_status_absent_id_returns_none_witness :
  @ScheduleRepository.update_status
    (Samples.collaborators Samples.noon true false) 42 CANCELLED None None
    (Samples.world [Samples.schedule 7 Samples.noon PENDING 3 0 300])
  = (Samples.world [Samples.schedule 7 Samples.noon PENDING 3 0 300], Returned None).
Proof.
  apply (@update_status_absent_id_returns_none
           (Samples.collaborators Samples.noon true false)).
  vm_compute. reflexivity.
Defined.

(** C6, counterexample: with no row 42 in the store the call does not end in
    an exception. *)
Lemma update_status_absent_id_does_not_raise :
  ¬ ∃ e,
      (@ScheduleRepository.update_status
         (Samples.collaborators Samples.noon true false) 42 CANCELLED None None
         (Samples.world [Samples.schedule 7 Samples.noon PENDING 3 0 300])).2
      = Raised e.
Proof. intros [e He]. vm_compute in He. discriminate He. Qed.

(** The rows a due-query selects. *)
Lemma get_pending_elem_of (w : World) (now : datetime) (kind : ScheduleType)
    (s : Schedule.t) :
  s ∈ filter (λ s, Schedule.scheduled_at s ≤ now
                   ∧ Schedule.status s = PENDING
                   ∧ Schedule.schedule_type s = kind)
             (map_to_list (schedules w)).*2
  ↔ (∃ k, schedules w !! k = Some s)
    ∧ Schedule.status s = PENDING
    ∧ Schedule.scheduled_at s ≤ now
    ∧ Schedule.schedule_type s = kind.
Proof.
  rewrite list_elem_of_filter, list_elem_of_fmap. split.
  - intros ((Hat & Hst & Hty) & [k s'] & -> & Hin).
    apply elem_of_map_to_list in Hin. eauto 10.
  - intros ((k & Hk) & Hst & Hat & Hty). split; [done |].
    exists (k, s). split; [done |]. by apply elem_of_map_to_list.
Qed.

(** C3: the due-query returns exactly the stored schedules that are
    PENDING, scheduled at or before [now], and of the given kind; a PENDING
    EMAIL schedule scheduled one second before [now] is returned for EMAIL
    and not for SMS. *)
Theorem get_pending_schedules_by_time_and_type_exact
    (w : World) (now : datetime) (kind : ScheduleType) :
  (∃ due,
      ScheduleRepository.get_pending_schedules_by_time_and_type now kind w
      = (w, Returned due)
      ∧ ∀ s, s ∈ due
             ↔ (∃ k, schedules w !! k = Some s)
               ∧ Schedule.status s = PENDING
               ∧ Schedule.scheduled_at s ≤ now
               ∧ Schedule.schedule_type s = kind)
  ∧ (∀ k s,
       schedules w !! k = Some s →
       Schedule.status s = PENDING →
       Schedule.schedule_type s = EMAIL →
       Schedule.scheduled_at s = now - us_per_second →
       (∃ due,
           ScheduleRepository.get_pending_schedules_by_time_and_type now EMAIL w
           = (w, Returned due) ∧ s ∈ due)
       ∧ (∃ due,
             ScheduleRepository.get_pending_schedules_by_time_and_type now SMS w
             = (w, Returned due) ∧ s ∉ due)).
Proof.
  split.
  - eexists. split; [reflexivity |]. intros s. apply get_pending_elem_of.
  - intros k s Hk Hst Hty Hat. split.
    + eexists. split; [reflexivity |]. apply get_pending_elem_of.
      unfold us_per_second in Hat. split; [eauto |]. repeat split; [done | lia | done].
    + eexists. split; [reflexivity |]. rewrite get_pending_elem_of.
      intros (_ & _ & _ & Hsms). congruence.
Qed.

Lemma get_pending_schedules_by_time_and_type_exact_witness :
  (∃ due,
      ScheduleRepository.get_pending_schedules_by_time_and_type
        Samples.noon EMAIL
        (Samples.world [Samples.schedule 7 (Samples.noon - us_per_second) PENDING 3 0 300;
                        Samples.schedule 8 (Samples.noon + us_per_second) PENDING 3 0 300;
                        Samples.schedule 9 (Samples.noon - us_per_second) COMPLETED 3 0 300])
      = (Samples.world [Samples.schedule 7 (Samples.noon - us_per_second) PENDING 3 0 300;
                        Samples.schedule 8 (Samples.noon + us_per_second) PENDING 3 0 300;
                        Samples.schedule 9 (Samples.noon - us_per_second) COMPLETED 3 0 300],
         Returned due)
      ∧ Samples.schedule 7 (Samples.noon - us_per_second) PENDING 3 0 300 ∈ due)
  ∧ (∃ due,
        ScheduleRepository.get_pending_schedules_by_time_and_type
          Samples.noon SMS
          (Samples.world [Samples.schedule 7 (Samples.noon - us_per_second) PENDING 3 0 300;
                          Samples.schedule 8 (Samples.noon + us_per_second) PENDING 3 0 300;
                          Samples.schedule 9 (Samples.noon - us_per_second) COMPLETED 3 0 300])
        = (Samples.world [Samples.schedule 7 (Samples.noon - us_per_second) PENDING 3 0 300;
                          Samples.schedule 8 (Samples.noon + us_per_second) PENDING 3 0 300;
                          Samples.schedule 9 (Samples.noon - us_per_second) COMPLETED 3 0 300],
           Returned due)
        ∧ Samples.schedule 7 (Samples.noon - us_per_second) PENDING 3 0 300 ∉ due).
Proof.
  apply (proj2 (get_pending_schedules_by_time_and_type_exact
                  (Samples.world [Samples.schedule 7 (Samples.noon - us_per_second) PENDING 3 0 300;
                                  Samples.schedule 8 (Samples.noon + us_per_second) PENDING 3 0 300;
                                  Samples.schedule 9 (Samples.noon - us_per_second) COMPLETED 3 0 300])
                  Samples.noon EMAIL) 7);
    vm_compute; reflexivity.
Defined.

(** The due-query on a sample store: of a due row, a future row and a
    completed row only the first is returned. *)
Example get_pending_sample :
  (ScheduleRepository.get_pending_schedules_by_time_and_type
     Samples.noon EMAIL
     (Samples.world [Samples.schedule 7 (Samples.noon - us_per_second) PENDING 3 0 300;
                     Samples.schedule 8 (Samples.noon + us_per_second) PENDING 3 0 300;
                     Samples.schedule 9 (Samples.noon - us_per_second) COMPLETED 3 0 300])).2
  = Returned [Samples.schedule 7 (Samples.noon - us_per_second) PENDING 3 0 300].
Proof. vm_compute. reflexivity. Qed.

(** C7, as the code has it: when [retry_interval] is at least 60 seconds
    (the lower bound of the request schema) and the schedule is due at the
    time of the call, [handle_failure] never moves [scheduled_at] back; a
    schedule armed again is deferred beyond the time of the call. *)
Theorem handle_failure_scheduled_at_monotone `{!Collaborators}
    (w : World) (schedule_id : Z) (s : Schedule.t) (msg : string) :
  store_wf w →
  schedules w !! schedule_id = Some s →
  60 ≤ Schedule.retry_interval s →
  Schedule.scheduled_at s ≤ clock (S (ticks w)) →
  representable (clock (S (ticks w))) = true →
  representable (replace_second_microsecond (clock (S (ticks w))) 0 0
                 + Schedule.retry_interval s * us_per_second) = true →
  ∃ w' s',
    ScheduleRepository.handle_failure schedule_id msg w = (w', Returned (Some s'))
    ∧ schedules w' !! schedule_id = Some s'
    ∧ Schedule.scheduled_at s ≤ Schedule.scheduled_at s'
    ∧ (Schedule.status s' = PENDING → clock (S (ticks w)) < Schedule.scheduled_at s').
Proof.
  intros Hwf Hs Hint Hdue Hnow Hat. pose proof (Hwf _ _ Hs) as Hid. cbn in Hid.
  destruct (decide (Schedule.retry_count s + 1 >= Schedule.max_retry s)) as [Hge|Hlt].
  - eexists _, _. split.
    { apply handle_failure_exhausted; [done | lia]. }
    cbn. rewrite Hid, lookup_insert_eq. split; [done |]. split; [lia | done].
  - eexists _, _. split.
    { apply handle_failure_rearmed; [done | lia | done | done]. }
    cbn. rewrite Hid, lookup_insert_eq. split; [done |].
    pose proof (replace_second_microsecond_bounds (clock (S (ticks w)))) as Hb.
    unfold us_per_minute, us_per_second in *. split; [lia |]. intros _. lia.
Qed.

Lemma handle_failure_scheduled_at_monotone_witness :
  ∃ w' s',
    @ScheduleRepository.handle_failure
      (Samples.collaborators (Samples.noon + Samples.seconds 45) false false)
      7 "timeout"
      (Samples.world [Samples.schedule 7 (Samples.noon + Samples.seconds 30) PENDING 3 0 60])
    = (w', Returned (Some s'))
    ∧ schedules w' !! 7 = Some s'
    ∧ Samples.noon + Samples.seconds 30 ≤ Schedule.scheduled_at s'.
Proof.
  destruct (@handle_failure_scheduled_at_monotone
              (Samples.collaborators (Samples.noon + Samples.seconds 45) false false)
              (Samples.world
                 [Samples.schedule 7 (Samples.noon + Samples.seconds 30) PENDING 3 0 60])
              7 (Samples.schedule 7 (Samples.noon + Samples.seconds 30) PENDING 3 0 60)
              "timeout")
    as (w' & s' & Hrun & Hrow & Hmono & _).
  - apply sample_world_wf.
  - vm_compute. reflexivity.
  - vm_compute. discriminate.
  - vm_compute. discriminate.
  - vm_compute. reflexivity.
  - vm_compute. reflexivity.
  - exists w', s'. repeat split; assumption.
Defined.

(** C7, counterexample: a schedule due since 12:00:30 with a retry interval
    of 10 seconds fails at 12:00:45; it is armed again for 12:00:10, before
    the time it had. *)
Lemma handle_failure_moves_scheduled_at_back :
  ∃ w' s',
    @ScheduleRepository.handle_failure
      (Samples.collaborators (Samples.noon + Samples.seconds 45) false false)
      7 "timeout"
      (Samples.world [Samples.schedule 7 (Samples.noon + Samples.seconds 30) PENDING 3 0 10])
    = (w', Returned (Some s'))
    ∧ schedules w' !! 7 = Some s'
    ∧ Schedule.status s' = PENDING
    ∧ Schedule.scheduled_at s' = Samples.noon + Samples.seconds 10
    ∧ ¬ (Samples.noon + Samples.seconds 30 ≤ Schedule.scheduled_at s').
Proof.
  eexists _, (rearmed_row
                (Samples.schedule 7 (Samples.noon + Samples.seconds 30) PENDING 3 0 10)
                "timeout" (Samples.noon + Samples.seconds 45)
                (Samples.noon + Samples.seconds 10)).
  split; [apply pair_eta_snd; vm_compute; reflexivity |].
  split; [vm_compute; reflexivity |]. split; [reflexivity |].
  split; [reflexivity |]. vm_compute. intros Hle. by apply Hle.
Qed.

(** C2, counterexample.  First: a schedule with [max_retry = 0] fails once;
    its [retry_count] is 1, above [max_retry].  Second: [handle_failure] is
    called twice for a schedule with [max_retry = 1]; the first call sets
    FAILED, the second counts on, and [retry_count] is 2. *)
Lemma retry_count_exceeds_max_retry :
  (∃ w' s',
      @ScheduleRepository.handle_failure Samples.failing 7 "timeout"
        (Samples.world [Samples.schedule 7 Samples.noon PROCESSING 0 0 300])
      = (w', Returned (Some s'))
      ∧ schedules w' !! 7 = Some s'
      ∧ Schedule.max_retry s' = 0
      ∧ Schedule.retry_count s' = 1
      ∧ ¬ (Schedule.retry_count s' ≤ Schedule.max_retry s'))
  ∧ (∃ w1 s1 w2 s2,
        @ScheduleRepository.handle_failure Samples.failing 7 "timeout"
          (Samples.world [Samples.schedule 7 Samples.noon PROCESSING 1 0 300])
        = (w1, Returned (Some s1))
        ∧ @ScheduleRepository.handle_failure Samples.failing 7 "timeout" w1
          = (w2, Returned (Some s2))
        ∧ schedules w2 !! 7 = Some s2
        ∧ Schedule.max_retry s2 = 1
        ∧ Schedule.retry_count s2 = 2
        ∧ ¬ (Schedule.retry_count s2 ≤ Schedule.max_retry s2)).
Proof.
  split.
  - eexists _, (failed_row (Samples.schedule 7 Samples.noon PROCESSING 0 0 300)
                           "timeout" (Samples.noon + Samples.seconds 45)).
    split; [apply pair_eta_snd; vm_compute; reflexivity |].
    split; [vm_compute; reflexivity |]. split; [reflexivity |].
    split; [reflexivity |]. vm_compute. intros Hle. by apply Hle.
  - eexists _, (failed_row (Samples.schedule 7 Samples.noon PROCESSING 1 0 300)
                           "timeout" (Samples.noon + Samples.seconds 45)),
             _, (failed_row
                   (failed_row (Samples.schedule 7 Samples.noon PROCESSING 1 0 300)
                               "timeout" (Samples.noon + Samples.seconds 45))
                   "timeout" (Samples.noon + Samples.seconds 45)).
    split; [apply pair_eta_snd; vm_compute; reflexivity |].
    split; [apply pair_eta_snd; vm_compute; reflexivity |].
    split; [vm_compute; reflexivity |].
    split; [reflexivity |]. split; [reflexivity |].
    vm_compute. intros Hle. by apply Hle.
Qed.

(** ** Code that only reads the world *)

Section ReadsOnly.
Context `{!Collaborators}.

Lemma reads_only_ret {A} (a : A) : reads_only (mret a).
Proof. done. Qed.

Lemma reads_only_raise {A} (e : exn) : reads_only (@raise A e).
Proof. done. Qed.

Lemma reads_only_lift {A} (o : outcome A) : reads_only (lift o).
Proof. done. Qed.

Lemma reads_only_get_world : reads_only get_world.
Proof. done. Qed.

Lemma reads_only_getenv (key : string) : reads_only (getenv key).
Proof. done. Qed.

Lemma reads_only_bind {A B} (m : Exec A) (k : A → Exec B) :
  reads_only m → (∀ a, reads_only (k a)) → reads_only (m ≫= k).
Proof.
  intros Hm Hk w. unfold mbind, Exec_bind, bind.
  specialize (Hm w). destruct (m w) as [w' [a|e]]; cbn in *; subst; [apply Hk | done].
Qed.

Lemma bind_reads_only {A B} (m : Exec A) (k : A → Exec B) (w : World) :
  reads_only m →
  (m ≫= k) w
  = match (m w).2 with
    | Returned a => k a w
    | Raised e => (w, Raised e)
    end.
Proof.
  intros Hm. unfold mbind, Exec_bind, bind.
  specialize (Hm w). by destruct (m w) as [w' [a|e]]; cbn in *; subst.
Qed.

Lemma reads_only_try_except {A} (m : Exec A) (h : exn → Exec A) :
  reads_only m → (∀ e, reads_only (h e)) → reads_only (try_except m h).
Proof.
  intros Hm Hh w. unfold try_except.
  specialize (Hm w). destruct (m w) as [w' [a|e]]; cbn in *; subst; [done | apply Hh].
Qed.

Lemma reads_only_access_key : reads_only NCloudConfig.access_key.
Proof.
  apply reads_only_bind; [apply reads_only_getenv |].
  intros key. destruct (truthy key); [apply reads_only_ret | apply reads_only_raise].
Qed.

Lemma reads_only_secret_key : reads_only NCloudConfig.secret_key.
Proof.
  apply reads_only_bind; [apply reads_only_getenv |].
  intros key. destruct (truthy key); [apply reads_only_ret | apply reads_only_raise].
Qed.

Lemma reads_only_sender_address : reads_only NCloudConfig.sender_address.
Proof.
  apply reads_only_bind; [apply reads_only_getenv |].
  intros key. destruct (truthy key); [apply reads_only_ret | apply reads_only_raise].
Qed.

Lemma reads_only_get_sender_email_by_service (service_name : string) :
  reads_only (NCloudConfig.get_sender_email_by_service service_name).
Proof.
  apply reads_only_bind; [apply reads_only_getenv |].
  intros key. destruct (truthy key); [apply reads_only_ret | apply reads_only_sender_address].
Qed.

Lemma reads_only_init (db : bool) : reads_only (EmailService.init db).
Proof.
  apply reads_only_bind; [apply reads_only_access_key | intros _].
  apply reads_only_bind; [apply reads_only_secret_key | intros _].
  apply reads_only_ret.
Qed.

Lemma reads_only_get_sender_email_by_api_key (self : EmailService.t) (api_key_id : Z) :
  reads_only (EmailService._get_sender_email_by_api_key self api_key_id).
Proof.
  unfold EmailService._get_sender_email_by_api_key.
  destruct (negb (EmailService.db self)); [apply reads_only_sender_address |].
  apply reads_only_try_except; [| intros _; apply reads_only_sender_address].
  apply reads_only_bind; [apply reads_only_get_world |].
  intros w. destruct (api_keys w !! api_key_id);
    [apply reads_only_get_sender_email_by_service | apply reads_only_sender_address].
Qed.

Lemma reads_only_sender_selection (self : EmailService.t)
    (explicit : option string) (api_key_id : Z) :
  reads_only (match truthy explicit with
              | Some sender_email => @mret Exec Exec_ret string sender_email
              | None => EmailService._get_sender_email_by_api_key self api_key_id
              end).
Proof.
  destruct (truthy explicit);
    [apply reads_only_ret | apply reads_only_get_sender_email_by_api_key].
Qed.

Lemma reads_only_send_bulk_email (self : EmailService.t)
    (request : BulkEmailRequest.t) (api_key_id : Z) :
  reads_only (EmailService.send_bulk_email self request api_key_id).
Proof.
  apply reads_only_try_except.
  - apply reads_only_bind; [apply reads_only_sender_selection | intros sender].
    apply reads_only_bind; [apply reads_only_get_world | intros w].
    apply reads_only_bind; [apply reads_only_lift | intros result].
    apply reads_only_ret.
  - intros e; apply reads_only_raise.
Qed.

Lemma keeps_store_reads_only {A} (m : Exec A) : reads_only m → keeps_store m.
Proof. intros Hm w. by rewrite Hm. Qed.

Lemma keeps_store_bind {A B} (m : Exec A) (k : A → Exec B) :
  keeps_store m → (∀ a, keeps_store (k a)) → keeps_store (m ≫= k).
Proof.
  intros Hm Hk w. unfold mbind, Exec_bind, bind. specialize (Hm w).
  destruct (m w) as [w' [a|e]]; cbn in *; [| done].
  destruct (Hk a w') as (-> & -> & -> & ->). done.
Qed.

Lemma keeps_store_try_except {A} (m : Exec A) (h : exn → Exec A) :
  keeps_store m → (∀ e, keeps_store (h e)) → keeps_store (try_except m h).
Proof.
  intros Hm Hh w. unfold try_except. specialize (Hm w).
  destruct (m w) as [w' [a|e]]; cbn in *; [done |].
  destruct (Hh e w') as (-> & -> & -> & ->). done.
Qed.

Lemma keeps_store_utcnow : keeps_store utcnow.
Proof. by intros w. Qed.

Lemma keeps_store_put_email_logs (l : list EmailLog.t) : keeps_store (put_email_logs l).
Proof. by intros w. Qed.

Lemma keeps_store_save_email_log (api_key_id : Z)
    (request_id sender_email recipient_email : string)
    (recipient_name : option string) (subject body_html status : string) :
  keeps_store (EmailService._save_email_log api_key_id request_id sender_email
                 recipient_email recipient_name subject body_html status).
Proof.
  apply keeps_store_bind; [apply keeps_store_utcnow | intros created_at].
  apply keeps_store_bind; [apply keeps_store_utcnow | intros updated_at].
  apply keeps_store_bind;
    [apply keeps_store_reads_only, reads_only_get_world | intros w].
  case_bool_decide;
    [apply keeps_store_put_email_logs | apply keeps_store_reads_only, reads_only_ret].
Qed.

Lemma keeps_store_update_email_log (request_id : string)
    (set_columns : EmailLog.t → EmailLog.t) :
  keeps_store (EmailService._update_email_log request_id set_columns).
Proof.
  apply keeps_store_bind;
    [apply keeps_store_reads_only, reads_only_get_world | intros w].
  destruct (list_find _ _) as [[i email_log]|];
    [| apply keeps_store_reads_only, reads_only_ret].
  apply keeps_store_bind; [apply keeps_store_utcnow | intros now].
  apply keeps_store_put_email_logs.
Qed.

Lemma keeps_store_log_failure (self : EmailService.t) (request_id : string) (e : exn) :
  keeps_store (EmailService.log_failure self request_id e).
Proof.
  unfold EmailService.log_failure.
  destruct (EmailService.db self);
    [apply keeps_store_update_email_log | apply keeps_store_reads_only, reads_only_ret].
Qed.

Lemma keeps_store_send_single_email (self : EmailService.t)
    (request : EmailRequest.t) (api_key_id : Z) :
  keeps_store (EmailService.send_single_email self request api_key_id).
Proof.
  apply keeps_store_bind;
    [apply keeps_store_reads_only, reads_only_get_world | intros w0].
  apply keeps_store_try_except.
  - apply keeps_store_bind;
      [apply keeps_store_reads_only, reads_only_sender_selection | intros sender].
    apply keeps_store_bind.
    { destruct (EmailService.db self);
        [apply keeps_store_save_email_log | apply keeps_store_reads_only, reads_only_ret]. }
    intros _.
    apply keeps_store_bind;
      [apply keeps_store_reads_only, reads_only_get_world | intros w].
    apply keeps_store_bind;
      [apply keeps_store_reads_only, reads_only_lift | intros result].
    apply keeps_store_bind.
    { destruct (EmailService.db self);
        [| apply keeps_store_reads_only, reads_only_ret].
      apply keeps_store_bind; [apply keeps_store_utcnow | intros sent_at].
      apply keeps_store_update_email_log. }
    intros _.
    apply keeps_store_bind;
      [apply keeps_store_reads_only, reads_only_get_world | intros w'].
    apply keeps_store_reads_only, reads_only_ret.
  - intros e. apply keeps_store_bind; [apply keeps_store_log_failure | intros _].
    destruct e; apply keeps_store_reads_only, reads_only_raise.
Qed.

Lemma keeps_store_send_scheduled_email (schedule : Schedule.t) :
  keeps_store (email_router.send_scheduled_email schedule).
Proof.
  apply keeps_store_bind;
    [apply keeps_store_reads_only, reads_only_lift | intros payload].
  apply keeps_store_bind;
    [apply keeps_store_reads_only, reads_only_init | intros service].
  destruct (payload_is_bulk payload).
  - apply keeps_store_bind;
      [apply keeps_store_reads_only, reads_only_lift | intros [|n]];
      apply keeps_store_reads_only, reads_only_raise.
  - apply keeps_store_bind;
      [apply keeps_store_reads_only, reads_only_lift | intros request].
    apply keeps_store_send_single_email.
Qed.

End ReadsOnly.

(** ** Sender selection *)

Section Sender.
Context `{!Collaborators}.

Lemma sender_address_spec (w : World) :
  NCloudConfig.sender_address w = (w, SenderSpec.global_default (environ w)).
Proof.
  unfold NCloudConfig.sender_address, SenderSpec.global_default. exec_unfold.
  by destruct (truthy (environ w !! "NCLOUD_SENDER_EMAIL")).
Qed.

Lemma service_key_spec (service_name : string) :
  "NCLOUD_SENDER_EMAIL_"
    +:+ default (str_upper service_name)
                (NCloudConfig.service_email_map !! service_name)
  = SenderSpec.service_variable service_name.
Proof.
  unfold SenderSpec.service_variable, NCloudConfig.service_email_map.
  rewrite !lookup_insert, lookup_empty.
  repeat case_decide; subst; try done.
Qed.

Lemma get_sender_email_by_api_key_spec (w : World) (api_key_id : Z) :
  EmailService._get_sender_email_by_api_key (EmailService.mk true) api_key_id w
  = (w, SenderSpec.resolveSenderAddress None (api_keys w !! api_key_id) (environ w)).
Proof.
  unfold SenderSpec.resolveSenderAddress. cbn [truthy].
  unfold EmailService._get_sender_email_by_api_key. cbn [EmailService.db negb].
  unfold try_except, mbind, Exec_bind, bind, get_world.
  destruct (api_keys w !! api_key_id) as [key|]; cbn.
  - unfold NCloudConfig.get_sender_email_by_service.
    unfold mbind, Exec_bind, bind, getenv. rewrite service_key_spec.
    unfold SenderSpec.derived_from_key. cbn.
    destruct (truthy (environ w !! _)) as [a|]; [done |].
    rewrite sender_address_spec.
    destruct (SenderSpec.global_default (environ w)) eqn:Hd; [done |].
    by rewrite sender_address_spec, Hd.
  - rewrite sender_address_spec.
    destruct (SenderSpec.global_default (environ w)) eqn:Hd; [done |].
    by rewrite sender_address_spec, Hd.
Qed.

(** The selection that opens [send_single_email], [send_bulk_email] and the
    two creation endpoints. *)
Lemma sender_selection_spec (w : World) (explicit : option string) (api_key_id : Z) :
  (match truthy explicit with
   | Some sender_email => @mret Exec Exec_ret string sender_email
   | None => EmailService._get_sender_email_by_api_key (EmailService.mk true) api_key_id
   end) w
  = (w, SenderSpec.resolveSenderAddress explicit (api_keys w !! api_key_id) (environ w)).
Proof.
  rewrite (surjective_pairing (_ w)).
  unfold SenderSpec.resolveSenderAddress at 1.
  destruct (truthy explicit) as [a|]; [done |].
  by rewrite get_sender_email_by_api_key_spec.
Qed.

End Sender.

Section Sending.
Context `{!Collaborators}.

(** What the values a computation returns have in common. *)
Lemma bind_Returned {A B} (m : Exec A) (k : A → Exec B) (w w' : World) (b : B) :
  (m ≫= k) w = (w', Returned b) →
  ∃ a w1, m w = (w1, Returned a) ∧ k a w1 = (w', Returned b).
Proof.
  unfold mbind, Exec_bind, bind. destruct (m w) as [w1 [a|e]]; [eauto | discriminate].
Qed.

Lemma update_email_log_returns (request_id : string)
    (set_columns : EmailLog.t → EmailLog.t) (w : World) :
  (EmailService._update_email_log request_id set_columns w).2 = Returned tt.
Proof.
  unfold EmailService._update_email_log. exec_unfold. cbv beta iota.
  by destruct (list_find _ _) as [[i email_log]|].
Qed.

Lemma log_failure_returns (self : EmailService.t) (request_id : string) (e : exn)
    (w : World) :
  (EmailService.log_failure self request_id e w).2 = Returned tt.
Proof.
  unfold EmailService.log_failure.
  destruct (EmailService.db self); [apply update_email_log_returns | done].
Qed.

Lemma save_email_log_returns (api_key_id : Z)
    (request_id sender_email recipient_email : string)
    (recipient_name : option string) (subject body_html status : string)
    (w : World) :
  (EmailService._save_email_log api_key_id request_id sender_email
     recipient_email recipient_name subject body_html status w).2
  = Returned tt.
Proof.
  unfold EmailService._save_email_log. exec_unfold. cbv beta iota.
  cbn. by case_bool_decide.
Qed.

(** The outcome of [send_single_email] with a database session: the
    provider is asked with the sender the three levels select, and its
    answer decides. *)
Lemma send_single_email_outcome (w : World) (request : EmailRequest.t)
    (api_key_id : Z) :
  match SenderSpec.resolveSenderAddress (EmailRequest.sender_address request)
          (api_keys w !! api_key_id) (environ w) with
  | Returned a =>
      ∃ n,
        match ncloud_send_email n request a with
        | Returned result =>
            ∃ m,
              (EmailService.send_single_email (EmailService.mk true) request
                 api_key_id w).2
              = Returned (SendResult.mk true "이메일이 성공적으로 발송되었습니다"
                            (NCloudResponse.requestId result)
                            (default 1 (NCloudResponse.count result))
                            (now_isoformat m))
        | Raised e =>
            ∃ msg,
              (EmailService.send_single_email (EmailService.mk true) request
                 api_key_id w).2
              = Raised (ApiError msg)
        end
  | Raised e =>
      ∃ msg,
        (EmailService.send_single_email (EmailService.mk true) request
           api_key_id w).2
        = Raised (ApiError msg)
  end.
Proof.
  destruct (SenderSpec.resolveSenderAddress _ _ _) as [a|e] eqn:Hsel.
  - set (w1 := (EmailService._save_email_log api_key_id (new_request_id (ticks w)) a
                  (EmailRequest.to_email request) (EmailRequest.to_name request)
                  (EmailRequest.subject request) (EmailRequest.html_body request)
                  "pending" w).1).
    exists (ticks w1).
    destruct (ncloud_send_email (ticks w1) request a) as [result|e] eqn:Hsend.
    + exists (ticks (EmailService._update_email_log (new_request_id (ticks w))
                       (λ l, EmailLog.set_sent_at (Some (clock (ticks w1)))
                               (EmailLog.set_ncloud_response
                                  (Some (json_dumps_response result))
                                  (EmailLog.set_ncloud_request_id
                                     (NCloudResponse.requestId result)
                                     (EmailLog.set_status "sent" l))))
                       (with_ticks (S (ticks w1)) w1)).1).
      unfold EmailService.send_single_email.
      rewrite bind_reads_only by apply reads_only_get_world. cbn [snd get_world].
      unfold try_except.
      rewrite bind_reads_only by apply reads_only_sender_selection.
      rewrite sender_selection_spec, Hsel. cbn [snd].
      cbn [EmailService.db]. unfold mbind at 1, Exec_bind at 1, bind at 1.
      rewrite (pair_eta_snd _ _ (save_email_log_returns _ _ _ _ _ _ _ _ w)).
      fold w1.
      rewrite bind_reads_only by apply reads_only_get_world. cbn [snd get_world].
      rewrite bind_reads_only by apply reads_only_lift. unfold lift at 1. cbn [snd].
      rewrite Hsend.
      unfold mbind at 1, Exec_bind at 1, bind at 1.
      unfold mbind at 1, Exec_bind at 1, bind at 1. unfold utcnow at 1.
      rewrite (pair_eta_snd _ _ (update_email_log_returns _ _ _)).
      reflexivity.
    + unfold EmailService.send_single_email.
      rewrite bind_reads_only by apply reads_only_get_world. cbn [snd get_world].
      unfold try_except.
      rewrite bind_reads_only by apply reads_only_sender_selection.
      rewrite sender_selection_spec, Hsel. cbn [snd].
      cbn [EmailService.db]. unfold mbind at 1, Exec_bind at 1, bind at 1.
      rewrite (pair_eta_snd _ _ (save_email_log_returns _ _ _ _ _ _ _ _ w)).
      fold w1.
      rewrite bind_reads_only by apply reads_only_get_world. cbn [snd get_world].
      rewrite bind_reads_only by apply reads_only_lift. unfold lift at 1. cbn [snd].
      rewrite Hsend.
      unfold mbind, Exec_bind, bind.
      rewrite (pair_eta_snd _ _ (log_failure_returns _ _ _ _)).
      destruct e; eexists; reflexivity.
  - unfold EmailService.send_single_email.
    rewrite bind_reads_only by apply reads_only_get_world. cbn [snd get_world].
    unfold try_except.
    rewrite bind_reads_only by apply reads_only_sender_selection.
    rewrite sender_selection_spec, Hsel. cbn [snd].
    unfold mbind, Exec_bind, bind.
    rewrite (pair_eta_snd _ _ (log_failure_returns _ _ _ _)).
    destruct e; eexists; reflexivity.
Qed.

End Sending.


(** ** One execution unit *)

Section ExecutionUnit.
Context `{!Collaborators}.
Import ScheduleRepository email_router.

Lemma handle_failure_rearm (w : World) (schedule_id : Z) (s : Schedule.t)
    (msg : string) :
  schedules w !! schedule_id = Some s →
  Schedule.retry_count s + 1 < Schedule.max_retry s →
  handle_failure schedule_id msg w
  = match timedelta_of_seconds (Schedule.retry_interval s) with
    | Returned delta =>
        match add (replace_second_microsecond (clock (S (ticks w))) 0 0) delta with
        | Returned at_ =>
            (with_schedules
               (<[Schedule.id s := rearmed_row s msg (clock (ticks w)) at_]> (schedules w))
               (with_ticks (S (S (ticks w))) w),
             Returned (Some (rearmed_row s msg (clock (ticks w)) at_)))
        | Raised e => (with_ticks (S (S (ticks w))) w, Raised e)
        end
    | Raised e => (with_ticks (S (S (ticks w))) w, Raised e)
    end.
Proof.
  intros Hs Hmax. unfold handle_failure. exec_unfold. rewrite Hs. cbn.
  rewrite bool_decide_eq_false_2 by lia. cbn.
  destruct (timedelta_of_seconds (Schedule.retry_interval s)) as [delta|e]; [| done].
  by destruct (add _ delta).
Qed.

(** An execution unit, step by step: the row is taken in hand; sending
    leaves the schedules as they are; if it returns, the row is completed;
    if it raises, [handle_failure] decides. *)
Lemma execute_single_run (w : World) (t : Schedule.t) :
  schedules w !! Schedule.id t = Some t →
  let p := processing_row t (clock (ticks w)) in
  let w1 := with_schedules (<[Schedule.id t := p]> (schedules w))
                           (with_ticks (S (ticks w)) w) in
  let w2 := (send_scheduled_email t w1).1 in
  schedules w2 = <[Schedule.id t := p]> (schedules w)
  ∧ execute_single_email_schedule t w
    = match (send_scheduled_email t w1).2 with
      | Returned result =>
          (with_schedules
             (<[Schedule.id t :=
                  completed_row p (clock (ticks w2)) (json_dumps_result result)
                                (clock (S (ticks w2)))]> (schedules w))
             (with_ticks (S (S (ticks w2))) w2),
           Returned tt)
      | Raised e =>
          match handle_failure (Schedule.id t) (str_exn e) w2 with
          | (w', Returned _) => (w', Returned tt)
          | (w', Raised e') => (w', Raised e')
          end
      end.
Proof.
  intros Ht p w1 w2.
  destruct (keeps_store_send_scheduled_email t w1) as (Hsch & _).
  fold w2 in Hsch. change (schedules w1) with (<[Schedule.id t := p]> (schedules w)) in Hsch.
  split; [exact Hsch |].
  unfold execute_single_email_schedule, try_except, mbind, Exec_bind, bind.
  rewrite (update_status_found w (Schedule.id t) t PROCESSING None None Ht).
  cbn [truthy].
  change (Schedule.set_updated_at (clock (ticks w)) (Schedule.set_status PROCESSING t))
    with p.
  fold w1. subst w2.
  destruct (send_scheduled_email t w1) as [w2 o] eqn:Hsend. cbn [fst snd] in *.
  destruct o as [result|e].
  - unfold utcnow.
    erewrite update_status_found; last first.
    { cbn. rewrite Hsch. apply lookup_insert_eq. }
    cbn. rewrite Hsch, insert_insert_eq. reflexivity.
  - destruct (handle_failure (Schedule.id t) (str_exn e) w2) as [w' [r|e']]; done.
Qed.

End ExecutionUnit.

Section UnitResult.
Context `{!Collaborators}.
Import ScheduleRepository email_router.

Lemma timedelta_of_seconds_value (n : Z) (d : timedelta) :
  timedelta_of_seconds n = Returned d → d = n * us_per_second.
Proof.
  unfold timedelta_of_seconds. cbv zeta.
  destruct (999999999 <? Z.abs (n / 86400)); congruence.
Qed.

Lemma add_value (t d r : Z) : add t d = Returned r → r = t + d.
Proof. unfold add. destruct (representable (t + d)); congruence. Qed.

(** What one execution unit does to the store. *)
Lemma execute_single_effect (w : World) (t : Schedule.t) :
  schedules w !! Schedule.id t = Some t →
  ∃ s' w' o,
    execute_single_email_schedule t w = (w', o)
    ∧ schedules w' = <[Schedule.id t := s']> (schedules w)
    ∧ api_keys w' = api_keys w
    ∧ environ w' = environ w
    ∧ next_schedule_id w' = next_schedule_id w
    ∧ unit_result (ticks w) t s' o.
Proof.
  intros Ht. destruct (execute_single_run w t Ht) as [Hsch ->]. cbv zeta in *.
  set (p := processing_row t (clock (ticks w))) in *.
  set (w1 := with_schedules (<[Schedule.id t := p]> (schedules w))
                            (with_ticks (S (ticks w)) w)) in *.
  destruct (keeps_store_send_scheduled_email t w1) as (_ & Hkeys & Henv & Hnext).
  set (w2 := (send_scheduled_email t w1).1) in *.
  assert (schedules w2 !! Schedule.id t = Some p) as Hp
    by (rewrite Hsch; apply lookup_insert_eq).
  destruct (send_scheduled_email t w1).2 as [result|e].
  { eexists _, _, _. split; [reflexivity |]. cbn.
    repeat (split; [done |]). constructor. }
  destruct (decide (Schedule.max_retry t ≤ Schedule.retry_count t + 1)) as [Hex|Hre].
  - rewrite (handle_failure_exhausted w2 _ p (str_exn e) Hp) by (cbn; lia).
    eexists _, _, _. split; [reflexivity |]. cbn.
    rewrite Hsch, insert_insert_eq. repeat (split; [done |]). by constructor.
  - rewrite (handle_failure_rearm w2 _ p (str_exn e) Hp) by (cbn; lia).
    cbn [Schedule.retry_interval p processing_row Schedule.set_updated_at
         Schedule.set_status].
    destruct (timedelta_of_seconds (Schedule.retry_interval t)) as [delta|e'] eqn:Hd.
    + apply timedelta_of_seconds_value in Hd as ->.
      destruct (add _ _) as [at_|e'] eqn:Ha.
      * apply add_value in Ha as ->.
        eexists _, _, _. split; [reflexivity |]. cbn.
        rewrite Hsch, insert_insert_eq. repeat (split; [done |]).
        apply unit_rearmed. lia.
      * eexists _, _, _. split; [reflexivity |]. cbn.
        rewrite Hsch. repeat (split; [done |]). apply unit_stuck. lia.
    + eexists _, _, _. split; [reflexivity |]. cbn.
      rewrite Hsch. repeat (split; [done |]). apply unit_stuck. lia.
Qed.

Lemma unit_result_id (n : nat) (t s' : Schedule.t) (o : outcome unit) :
  unit_result n t s' o → Schedule.id s' = Schedule.id t.
Proof.
  destruct 1; try done. unfold completed_row. by destruct (truthy _).
Qed.

Lemma unit_result_retry_bounded (n : nat) (t s' : Schedule.t) (o : outcome unit) :
  unit_result n t s' o →
  Schedule.status t = PENDING → retry_bounded t → retry_bounded s'.
Proof.
  intros Hres Hst (Hmax & Hint & Hcount & Hleft). specialize (Hleft Hst).
  destruct Hres; unfold retry_bounded, completed_row;
    try destruct (truthy _); cbn; repeat split; try lia; done.
Qed.

(** A unit that ran to its end leaves a schedule the due-query at [now]
    passes over, when the clock stands at [now] and the retry interval is
    longer than the part of the minute that has passed. *)
Lemma unit_result_not_due (n : nat) (t s' : Schedule.t) (now : datetime) :
  unit_result n t s' (Returned tt) →
  (∀ i, clock i = now) →
  (Schedule.retry_count t + 1 < Schedule.max_retry t →
   now mod us_per_minute < Schedule.retry_interval t * us_per_second) →
  not_due now s'.
Proof.
  intros Hres Hclock Hint. unfold not_due.
  inversion Hres; subst.
  - left. unfold completed_row. by destruct (truthy _).
  - by left.
  - right. cbn. rewrite Hclock, replace_second_microsecond_floor.
    match goal with Hlt : _ < Schedule.max_retry t |- _ => specialize (Hint Hlt) end.
    lia.
Qed.

End UnitResult.

(** C5: a schedule with [max_retry = 0] and [retry_count = 0] whose first
    attempt fails ends FAILED with [retry_count = 1], the reason of the
    failure as [error_message], and no [result]. *)
Theorem first_failure_without_retries_is_final `{!Collaborators}
    (w : World) (t : Schedule.t) (e : exn) :
  schedules w !! Schedule.id t = Some t →
  Schedule.max_retry t = 0 →
  Schedule.retry_count t = 0 →
  Schedule.result t = None →
  (email_router.send_scheduled_email t
     (ScheduleRepository.update_status (Schedule.id t) PROCESSING None None w).1).2
  = Raised e →
  ∃ w' s',
    email_router.execute_single_email_schedule t w = (w', Returned tt)
    ∧ schedules w' !! Schedule.id t = Some s'
    ∧ Schedule.status s' = FAILED
    ∧ Schedule.retry_count s' = 1
    ∧ Schedule.error_message s' = Some (str_exn e)
    ∧ Schedule.result s' = None.
Proof.
  intros Ht Hmax Hcount Hresult Hsend.
  rewrite (update_status_found w (Schedule.id t) t PROCESSING None None Ht) in Hsend.
  cbn [truthy fst] in Hsend.
  destruct (execute_single_run w t Ht) as [Hsch ->]. cbv zeta in *.
  unfold processing_row in *. rewrite Hsend.
  erewrite handle_failure_exhausted;
    [| rewrite Hsch; apply lookup_insert_eq | cbn; lia].
  eexists _, _. split; [reflexivity |].
  split; [cbn; apply lookup_insert_eq |].
  cbn. rewrite Hcount, Hresult. done.
Qed.

Lemma first_failure_without_retries_is_final_witness :
  ∃ w' s',
    @email_router.execute_single_email_schedule
      (Samples.collaborators (Samples.noon + Samples.seconds 45) false false)
      (Samples.schedule 7 Samples.noon PENDING 0 0 300)
      (Samples.world [Samples.schedule 7 Samples.noon PENDING 0 0 300])
    = (w', Returned tt)
    ∧ schedules w' !! 7 = Some s'
    ∧ Schedule.status s' = FAILED
    ∧ Schedule.retry_count s' = 1
    ∧ Schedule.error_message s'
      = Some "이메일 발송 서비스 오류: API 요청 시간 초과 (30초)"
    ∧ Schedule.result s' = None.
Proof.
  apply (@first_failure_without_retries_is_final
           (Samples.collaborators (Samples.noon + Samples.seconds 45) false false)
           (Samples.world [Samples.schedule 7 Samples.noon PENDING 0 0 300])
           (Samples.schedule 7 Samples.noon PENDING 0 0 300)
           (ApiError "이메일 발송 서비스 오류: API 요청 시간 초과 (30초)"));
    vm_compute; reflexivity.
Defined.

(** ** One cycle *)

Section Cycle.
Context `{!Collaborators}.
Import ScheduleRepository email_router.

Lemma dispatch_foldl (n : nat) (pending : list Schedule.t) (acc : Dispatch) :
  tasks (foldl (dispatch n) acc pending)
  = tasks acc ++ filter (λ s, add_task_raises n s = None) pending
  ∧ executed_count (foldl (dispatch n) acc pending)
    = executed_count acc
      + Z.of_nat (length (filter (λ s, add_task_raises n s = None) pending))
  ∧ failed_count (foldl (dispatch n) acc pending)
    = failed_count acc
      + Z.of_nat (length (filter (λ s, add_task_raises n s ≠ None) pending))
  ∧ execution_details (foldl (dispatch n) acc pending)
    = execution_details acc ++ (dispatch_detail n <$> pending).
Proof.
  revert acc. induction pending as [|s pending IH]; intros acc.
  { cbn. rewrite !app_nil_r. repeat split; lia. }
  cbn [foldl]. destruct (IH (dispatch n acc s)) as (Ht & He & Hf & Hd).
  rewrite Ht, He, Hf, Hd. rewrite !filter_cons, fmap_cons.
  unfold dispatch, dispatch_detail.
  destruct (add_task_raises n s) as [e|] eqn:Hs; cbn [tasks executed_count
    failed_count execution_details].
  - rewrite decide_False by done. rewrite decide_True by done.
    rewrite <- !app_assoc. cbn [length app]. repeat split; lia.
  - rewrite decide_True by done. rewrite decide_False by (intros Hn; by apply Hn).
    rewrite <- !app_assoc. cbn [length app]. repeat split; lia.
Qed.

Lemma failed_details_length (n : nat) (pending : list Schedule.t) :
  length (filter (λ d, ExecutionDetail.status d = "failed")
                 (dispatch_detail n <$> pending))
  = length (filter (λ s, add_task_raises n s ≠ None) pending).
Proof.
  induction pending as [|s pending IH]; [done |].
  rewrite fmap_cons, !filter_cons.
  assert (ExecutionDetail.status (dispatch_detail n s) = "failed"
          ↔ add_task_raises n s ≠ None) as Hiff.
  { unfold dispatch_detail. destruct (add_task_raises n s); cbn; split; done. }
  repeat case_decide; cbn; rewrite ?IH; try done; tauto.
Qed.

(** The handler: one clock reading, the due-query, the dispatch loop. *)
Lemma execute_pending_run (w : World) :
  let due := filter (λ s, Schedule.scheduled_at s ≤ clock (ticks w)
                          ∧ Schedule.status s = PENDING
                          ∧ Schedule.schedule_type s = EMAIL)
                    (map_to_list (schedules w)).*2 in
  let acc := foldl (dispatch (S (ticks w))) (mkDispatch 0 0 [] []) due in
  execute_pending_email_schedules w
  = (with_ticks (S (ticks w)) w,
     Returned
       (EmailScheduleExecuteResponse.mk
          ("이메일 스케줄 실행 완료: 성공 " +:+ pretty (executed_count acc)
           +:+ "개, 실패 " +:+ pretty (failed_count acc) +:+ "개")
          (executed_count acc) (failed_count acc) (clock (ticks w))
          (execution_details acc),
        tasks acc)).
Proof. reflexivity. Qed.

(** The rows of a well-formed store have pairwise different ids. *)
Lemma store_rows_NoDup (w : World) :
  store_wf w → NoDup (Schedule.id <$> (map_to_list (schedules w)).*2).
Proof.
  intros Hwf.
  assert (Schedule.id <$> (map_to_list (schedules w)).*2
          = (map_to_list (schedules w)).*1) as ->.
  { rewrite <- list_fmap_compose. apply list_fmap_ext.
    intros i [k s] Hin%list_elem_of_lookup_2%elem_of_map_to_list. cbn.
    by apply Hwf. }
  apply NoDup_fst_map_to_list.
Qed.

Lemma NoDup_ids_filter (P : Schedule.t → Prop) `{!∀ s, Decision (P s)}
    (l : list Schedule.t) :
  NoDup (Schedule.id <$> l) → NoDup (Schedule.id <$> filter P l).
Proof.
  induction l as [|s l IH]; [done |].
  rewrite fmap_cons, filter_cons, NoDup_cons. intros [Hfresh Hnodup].
  case_decide; [| by apply IH].
  rewrite fmap_cons, NoDup_cons. split; [| by apply IH].
  rewrite list_elem_of_fmap in *. intros (s' & Hid & Hin%list_elem_of_filter).
  apply Hfresh. exists s'. tauto.
Qed.

Lemma run_background_tasks_effect (queue : list Schedule.t) (w : World) :
  NoDup (Schedule.id <$> queue) →
  (∀ t, t ∈ queue → schedules w !! Schedule.id t = Some t) →
  ∃ w' o,
    run_background_tasks queue w = (w', o)
    ∧ (∀ k, k ∉ Schedule.id <$> queue → schedules w' !! k = schedules w !! k)
    ∧ (∀ t, t ∈ queue →
         ∃ s', schedules w' !! Schedule.id t = Some s'
               ∧ (s' = t ∨ ∃ n o', unit_result n t s' o'))
    ∧ (o = Returned tt →
       ∀ t, t ∈ queue →
         ∃ s' n, schedules w' !! Schedule.id t = Some s'
                 ∧ unit_result n t s' (Returned tt)).
Proof.
  revert w. induction queue as [|t queue IH]; intros w Hnodup Hrows.
  { exists w, (Returned tt). split; [done |]. split; [done |].
    split; intros; exfalso; eapply not_elem_of_nil; eauto. }
  rewrite fmap_cons in Hnodup. apply NoDup_cons in Hnodup as [Hfresh Hnodup].
  destruct (execute_single_effect w t) as (s1 & w1 & o1 & Hrun & Hsch & _ & _ & _ & Hres).
  { apply Hrows. left. }
  cbn [run_background_tasks]. unfold mbind, Exec_bind, bind. rewrite Hrun.
  assert (∀ t', t' ∈ queue → Schedule.id t' ≠ Schedule.id t) as Hne.
  { intros t' Hin Heq. apply Hfresh. rewrite <- Heq.
    apply list_elem_of_fmap. eauto. }
  destruct o1 as [[]|e].
  - destruct (IH w1 Hnodup) as (w' & o & Hrest & Hframe & Hany & Hall).
    { intros t' Hin. rewrite Hsch, lookup_insert_ne by (symmetry; by apply Hne).
      apply Hrows. by right. }
    exists w', o. split; [done |]. split; [| split].
    + intros k Hk. rewrite fmap_cons, not_elem_of_cons in Hk. destruct Hk as [Hkt Hk].
      rewrite (Hframe k Hk), Hsch. by rewrite lookup_insert_ne.
    + intros t' [->|Hin]%elem_of_cons; [| by apply Hany].
      exists s1. rewrite (Hframe _ Hfresh), Hsch, lookup_insert_eq. eauto.
    + intros Ho t' [->|Hin]%elem_of_cons; [| by apply Hall].
      exists s1, (ticks w). rewrite (Hframe _ Hfresh), Hsch.
      by rewrite lookup_insert_eq.
  - eexists _, _. split; [reflexivity |]. split; [| split].
    + intros k Hk. rewrite fmap_cons, not_elem_of_cons in Hk. destruct Hk as [Hkt Hk].
      rewrite Hsch. by rewrite lookup_insert_ne.
    + intros t' [->|Hin]%elem_of_cons.
      * exists s1. rewrite Hsch, lookup_insert_eq. eauto.
      * exists t'. rewrite Hsch, lookup_insert_ne by (symmetry; by apply Hne).
        split; [apply Hrows; by right | by left].
    + discriminate.
Qed.

End Cycle.

Section CycleFacts.
Context `{!Collaborators}.
Import ScheduleRepository email_router.

Lemma execute_pending_facts (w w1 : World)
    (response : EmailScheduleExecuteResponse.t) (queue : list Schedule.t) :
  execute_pending_email_schedules w = (w1, Returned (response, queue)) →
  w1 = with_ticks (S (ticks w)) w
  ∧ queue = filter (λ s, add_task_raises (S (ticks w)) s = None) (due_of w)
  ∧ EmailScheduleExecuteResponse.executed_count response = Z.of_nat (length queue)
  ∧ EmailScheduleExecuteResponse.failed_count response
    = Z.of_nat (length (filter (λ s, add_task_raises (S (ticks w)) s ≠ None) (due_of w)))
  ∧ EmailScheduleExecuteResponse.details response
    = dispatch_detail (S (ticks w)) <$> due_of w.
Proof.
  rewrite execute_pending_run. cbv zeta. fold (due_of w).
  destruct (dispatch_foldl (S (ticks w)) (due_of w) (mkDispatch 0 0 [] []))
    as (Ht & He & Hf & Hd).
  intros [= <- <- <-]. cbn in *. rewrite Ht, He, Hf, Hd. done.
Qed.

Lemma due_of_elem_of (w : World) (s : Schedule.t) :
  s ∈ due_of w
  ↔ (∃ k, schedules w !! k = Some s)
    ∧ Schedule.status s = PENDING
    ∧ Schedule.scheduled_at s ≤ clock (ticks w)
    ∧ Schedule.schedule_type s = EMAIL.
Proof. apply get_pending_elem_of. Qed.

Lemma due_of_NoDup (w : World) : store_wf w → NoDup (Schedule.id <$> due_of w).
Proof. intros Hwf. by apply NoDup_ids_filter, store_rows_NoDup. Qed.

(** The queue of a cycle: rows of the store, with different ids. *)
Lemma queue_rows (w : World) (queue : list Schedule.t) :
  store_wf w →
  queue = filter (λ s, add_task_raises (S (ticks w)) s = None) (due_of w) →
  NoDup (Schedule.id <$> queue)
  ∧ ∀ t, t ∈ queue →
      schedules (with_ticks (S (ticks w)) w) !! Schedule.id t = Some t
      ∧ Schedule.status t = PENDING.
Proof.
  intros Hwf ->. split; [by apply NoDup_ids_filter, due_of_NoDup |].
  intros t [_ Hdue]%list_elem_of_filter.
  apply due_of_elem_of in Hdue as ((k & Hk) & Hst & _). split; [| done].
  cbn. by rewrite (Hwf k t Hk).
Qed.

(** A due schedule that was not queued has an id no queued schedule has. *)
Lemma not_queued_id (w : World) (queue : list Schedule.t) (k : Z) (s : Schedule.t) :
  store_wf w →
  queue = filter (λ s, add_task_raises (S (ticks w)) s = None) (due_of w) →
  schedules w !! k = Some s →
  s ∉ queue →
  k ∉ Schedule.id <$> queue.
Proof.
  intros Hwf -> Hk Hout (t & Hid & Hin)%list_elem_of_fmap. apply Hout.
  pose proof Hin as [_ Hdue]%list_elem_of_filter.
  apply due_of_elem_of in Hdue as ((k' & Hk') & _).
  pose proof (Hwf k' t Hk') as Hid'. cbn in Hid'.
  assert (k' = k) as -> by congruence.
  by assert (s = t) as -> by congruence.
Qed.

End CycleFacts.

(** C8: when queueing the execution unit of a due schedule raises, the cycle
    counts the schedule as failed and reports it with the error, and writes
    nothing for it: the handler leaves the whole store as it was, no unit
    runs for the schedule, and after the units of the cycle have run its
    row is still the same, so that a later due-query returns it again. *)
Theorem dispatch_failure_leaves_schedule_untouched `{!Collaborators}
    (w w1 w2 : World) (response : EmailScheduleExecuteResponse.t)
    (queue : list Schedule.t) (o : outcome unit) (s : Schedule.t) (e : exn) :
  store_wf w →
  email_router.execute_pending_email_schedules w = (w1, Returned (response, queue)) →
  email_router.run_background_tasks queue w1 = (w2, o) →
  schedules w !! Schedule.id s = Some s →
  Schedule.status s = PENDING →
  Schedule.schedule_type s = EMAIL →
  Schedule.scheduled_at s ≤ clock (ticks w) →
  add_task_raises (S (ticks w)) s = Some e →
  schedules w1 = schedules w
  ∧ ExecutionDetail.mk (Schedule.id s) (Schedule.schedule_name s) "failed"
                       (Some (str_exn e))
    ∈ EmailScheduleExecuteResponse.details response
  ∧ EmailScheduleExecuteResponse.failed_count response
    = Z.of_nat (length (filter (λ d, ExecutionDetail.status d = "failed")
                               (EmailScheduleExecuteResponse.details response)))
  ∧ 1 ≤ EmailScheduleExecuteResponse.failed_count response
  ∧ (s ∉ queue)
  ∧ schedules w2 !! Schedule.id s = Some s
  ∧ (∀ now, Schedule.scheduled_at s ≤ now →
       ∃ due,
         ScheduleRepository.get_pending_schedules_by_time_and_type now EMAIL w2
         = (w2, Returned due) ∧ s ∈ due).
Proof.
  intros Hwf Hpending Hrun Hs Hst Hty Hat Hraise.
  apply execute_pending_facts in Hpending as (-> & Hqueue & _ & Hfailed & Hdetails).
  assert (s ∈ due_of w) as Hdue by (apply due_of_elem_of; eauto 10).
  assert (s ∉ queue) as Hout.
  { rewrite Hqueue. intros [Hnone _]%list_elem_of_filter. congruence. }
  assert (schedules w2 !! Schedule.id s = Some s) as Hrow.
  { destruct (queue_rows w queue Hwf Hqueue) as [Hnodup Hrows].
    destruct (run_background_tasks_effect queue (with_ticks (S (ticks w)) w) Hnodup)
      as (w' & o' & Hrun' & Hframe & _).
    { intros t Hin. by apply Hrows. }
    rewrite Hrun in Hrun'. injection Hrun' as <- <-.
    rewrite Hframe; [done |]. by eapply not_queued_id. }
  split; [done |]. split; [| split; [| split; [| split; [done | split; [done |]]]]].
  - rewrite Hdetails. apply list_elem_of_fmap. exists s. split; [| done].
    unfold dispatch_detail. by rewrite Hraise.
  - by rewrite Hfailed, Hdetails, failed_details_length.
  - rewrite Hfailed.
    assert (s ∈ filter (λ s, add_task_raises (S (ticks w)) s ≠ None) (due_of w)) as Hin.
    { apply list_elem_of_filter. split; [congruence | done]. }
    apply list_elem_of_lookup in Hin as [i Hi%lookup_lt_Some]. lia.
  - intros now Hnow. eexists. split; [reflexivity |].
    apply get_pending_elem_of. eauto 10.
Qed.

Lemma dispatch_failure_leaves_schedule_untouched_witness :
  ∃ w1 w2 response queue o,
    @email_router.execute_pending_email_schedules
      (Samples.collaborators (Samples.noon + Samples.seconds 45) true true)
      (Samples.world [Samples.schedule 7 Samples.noon PENDING 3 0 300])
    = (w1, Returned (response, queue))
    ∧ @email_router.run_background_tasks
        (Samples.collaborators (Samples.noon + Samples.seconds 45) true true) queue w1
      = (w2, o)
    ∧ EmailScheduleExecuteResponse.failed_count response = 1
    ∧ EmailScheduleExecuteResponse.executed_count response = 0
    ∧ schedules w2 !! 7 = Some (Samples.schedule 7 Samples.noon PENDING 3 0 300).
Proof.
  eexists _, _, _, _, _.
  split; [apply execute_pending_run |]. split; [apply surjective_pairing |].
  split; [vm_compute; reflexivity |]. split; [vm_compute; reflexivity |].
  refine (proj1 (proj2 (proj2 (proj2 (proj2 (proj2
    (@dispatch_failure_leaves_schedule_untouched
       (Samples.collaborators (Samples.noon + Samples.seconds 45) true true)
       (Samples.world [Samples.schedule 7 Samples.noon PENDING 3 0 300])
       _ _ _ _ _
       (Samples.schedule 7 Samples.noon PENDING 3 0 300)
       (OtherException "queue full")
       (sample_world_wf _) (execute_pending_run _) (surjective_pairing _)
       _ _ _ _ _))))))).
  - vm_compute. reflexivity.
  - reflexivity.
  - reflexivity.
  - vm_compute. discriminate.
  - reflexivity.
Defined.

Section CycleRows.
Context `{!Collaborators}.
Import ScheduleRepository email_router.

(** After a cycle every row is a row of before, or the row a unit of the
    cycle left for a schedule that was due. *)
Lemma cycle_rows (w w1 w2 : World) (response : EmailScheduleExecuteResponse.t)
    (queue : list Schedule.t) (o : outcome unit) (k : Z) (s' : Schedule.t) :
  store_wf w →
  execute_pending_email_schedules w = (w1, Returned (response, queue)) →
  run_background_tasks queue w1 = (w2, o) →
  schedules w2 !! k = Some s' →
  schedules w !! k = Some s'
  ∨ ∃ t n o', schedules w !! k = Some t ∧ Schedule.id t = k
              ∧ Schedule.status t = PENDING ∧ unit_result n t s' o'.
Proof.
  intros Hwf Hpending Hrun Hk.
  apply execute_pending_facts in Hpending as (-> & Hqueue & _).
  destruct (queue_rows w queue Hwf Hqueue) as [Hnodup Hrows].
  destruct (run_background_tasks_effect queue (with_ticks (S (ticks w)) w) Hnodup)
    as (w' & o' & Hrun' & Hframe & Hany & _).
  { intros t Hin. by apply Hrows. }
  rewrite Hrun in Hrun'. injection Hrun' as <- <-.
  destruct (decide (k ∈ Schedule.id <$> queue)) as [Hin|Hout].
  - apply list_elem_of_fmap in Hin as (t & -> & Hin).
    destruct (Hrows t Hin) as [Ht Hst]. cbn in Ht.
    destruct (Hany t Hin) as (s'' & Hs'' & Hcase).
    assert (s'' = s') as -> by congruence.
    destruct Hcase as [-> | (n & o' & Hres)]; [by left |].
    right. eauto 10.
  - left. rewrite (Hframe k Hout) in Hk. exact Hk.
Qed.

Lemma cycle_store_wf (w w1 w2 : World) (response : EmailScheduleExecuteResponse.t)
    (queue : list Schedule.t) (o : outcome unit) :
  store_wf w →
  execute_pending_email_schedules w = (w1, Returned (response, queue)) →
  run_background_tasks queue w1 = (w2, o) →
  store_wf w2.
Proof.
  intros Hwf Hpending Hrun k s' Hk. cbn.
  destruct (cycle_rows w w1 w2 response queue o k s' Hwf Hpending Hrun Hk)
    as [Hold | (t & n & o' & Ht & Hid & _ & Hres)].
  - by apply (Hwf k s').
  - by rewrite (unit_result_id n t s' o' Hres).
Qed.

End CycleRows.

(** C4, as the code has it: the handler only queues the execution units, so
    the second call finds what the units of the first call have left.  When
    these units have all run to their end on a clock that stands still, and
    every schedule they arm again has a retry interval longer than the part
    of the current minute that has passed (every interval of 60 seconds or
    more is), the second call starts no schedule but those the first call
    failed to queue: none at all when the first call reported no failure. *)
Theorem second_call_starts_nothing `{!Collaborators}
    (now : datetime) (w w1 w2 w3 : World)
    (response1 response2 : EmailScheduleExecuteResponse.t)
    (queue1 queue2 : list Schedule.t) :
  store_wf w →
  (∀ n, clock n = now) →
  email_router.execute_pending_email_schedules w = (w1, Returned (response1, queue1)) →
  email_router.run_background_tasks queue1 w1 = (w2, Returned tt) →
  (∀ t, t ∈ queue1 →
     Schedule.retry_count t + 1 < Schedule.max_retry t →
     now mod us_per_minute < Schedule.retry_interval t * us_per_second) →
  email_router.execute_pending_email_schedules w2 = (w3, Returned (response2, queue2)) →
  0 ≤ EmailScheduleExecuteResponse.executed_count response2
    ≤ EmailScheduleExecuteResponse.failed_count response1
  ∧ (EmailScheduleExecuteResponse.failed_count response1 = 0 →
     EmailScheduleExecuteResponse.executed_count response2 = 0 ∧ queue2 = []).
Proof.
  intros Hwf Hclock Hfirst Hrun Hint Hsecond.
  pose proof (cycle_store_wf w w1 w2 response1 queue1 _ Hwf Hfirst Hrun) as Hwf2.
  apply execute_pending_facts in Hfirst as (-> & Hqueue1 & _ & Hfailed1 & _).
  apply execute_pending_facts in Hsecond as (_ & Hqueue2 & Hstarted2 & _).
  destruct (queue_rows w queue1 Hwf Hqueue1) as [Hnodup Hrows].
  destruct (run_background_tasks_effect queue1 (with_ticks (S (ticks w)) w) Hnodup)
    as (w' & o' & Hrun' & Hframe & _ & Hall).
  { intros t Hin. by apply Hrows. }
  rewrite Hrun in Hrun'. injection Hrun' as <- <-. specialize (Hall eq_refl).
  assert (∀ s, s ∈ due_of w2 →
               s ∈ filter (λ s, add_task_raises (S (ticks w)) s ≠ None) (due_of w))
    as Hsub.
  { intros s ((k & Hk) & Hst & Hat & Hty)%due_of_elem_of. rewrite Hclock in Hat.
    destruct (decide (k ∈ Schedule.id <$> queue1)) as [Hin|Hout].
    - exfalso. apply list_elem_of_fmap in Hin as (t & -> & Hin).
      destruct (Hall t Hin) as (s' & n & Hs' & Hres).
      assert (s' = s) as -> by congruence.
      destruct (unit_result_not_due n t s now Hres Hclock (Hint t Hin)); [done | lia].
    - rewrite (Hframe k Hout) in Hk. cbn in Hk.
      assert (s ∈ due_of w) as Hdue.
      { apply due_of_elem_of. rewrite Hclock. eauto 10. }
      apply list_elem_of_filter. split; [| done]. intros Hnone. apply Hout.
      rewrite <- (Hwf k s Hk). apply list_elem_of_fmap. exists s. split; [done |].
      rewrite Hqueue1. by apply list_elem_of_filter. }
  assert (length queue2
          ≤ length (filter (λ s, add_task_raises (S (ticks w)) s ≠ None) (due_of w)))%nat
    as Hlen.
  { etrans; [rewrite Hqueue2; apply length_filter |].
    apply submseteq_length, NoDup_submseteq; [| done].
    eapply NoDup_fmap_1, due_of_NoDup, Hwf2. }
  split; [lia |]. intros Hzero. split; [lia |].
  destruct queue2; [done | cbn in *; lia].
Qed.

Lemma second_call_starts_nothing_witness :
  ∃ w1 w2 w3 response1 response2 queue1 queue2,
    @email_router.execute_pending_email_schedules
      (Samples.collaborators (Samples.noon + Samples.seconds 45) false false)
      (Samples.world [Samples.schedule 7 Samples.noon PENDING 3 0 300;
                      Samples.schedule 8 (Samples.noon + Samples.seconds 30) PENDING 1 0 60])
    = (w1, Returned (response1, queue1))
    ∧ @email_router.run_background_tasks
        (Samples.collaborators (Samples.noon + Samples.seconds 45) false false)
        queue1 w1
      = (w2, Returned tt)
    ∧ @email_router.execute_pending_email_schedules
        (Samples.collaborators (Samples.noon + Samples.seconds 45) false false) w2
      = (w3, Returned (response2, queue2))
    ∧ EmailScheduleExecuteResponse.executed_count response1 = 2
    ∧ EmailScheduleExecuteResponse.executed_count response2 = 0.
Proof.
  eexists _, _, _, _, _, _, _.
  split; [apply execute_pending_run |].
  split; [apply pair_eta_snd; vm_compute; reflexivity |].
  split; [apply execute_pending_run |]. split; [vm_compute; reflexivity |].
  refine (proj1 (proj2
    (@second_call_starts_nothing
       (Samples.collaborators (Samples.noon + Samples.seconds 45) false false)
       (Samples.noon + Samples.seconds 45)
       (Samples.world [Samples.schedule 7 Samples.noon PENDING 3 0 300;
                       Samples.schedule 8 (Samples.noon + Samples.seconds 30) PENDING 1 0 60])
       _ _ _ _ _ _ _
       (sample_world_wf _) (λ _, eq_refl) (execute_pending_run _) _ _
       (execute_pending_run _)) _)).
  - apply pair_eta_snd. vm_compute. reflexivity.
  - intros t Hin _. vm_compute in Hin.
    repeat (apply elem_of_cons in Hin as [-> | Hin]); [| | by apply not_elem_of_nil in Hin];
      vm_compute; reflexivity.
  - vm_compute. reflexivity.
Defined.

(** C4, counterexample.  First: the handler queues the unit of the due
    schedule and writes nothing, so a second call that comes before the unit
    has run starts the same schedule again.  Second: the unit has run and
    failed at 12:00:45 with a retry interval of 10 seconds; the schedule is
    PENDING for 12:00:10, and a second call at the same clock reading starts
    it again. *)
Lemma second_call_starts_again :
  (∃ w1 w2 response1 response2 queue1 queue2,
      @email_router.execute_pending_email_schedules
        (Samples.collaborators (Samples.noon + Samples.seconds 45) true false)
        (Samples.world [Samples.schedule 7 Samples.noon PENDING 3 0 300])
      = (w1, Returned (response1, queue1))
      ∧ @email_router.execute_pending_email_schedules
          (Samples.collaborators (Samples.noon + Samples.seconds 45) true false) w1
        = (w2, Returned (response2, queue2))
      ∧ EmailScheduleExecuteResponse.executed_count response2 = 1)
  ∧ (∃ w1 w2 w3 response1 response2 queue1 queue2,
        @email_router.execute_pending_email_schedules
          (Samples.collaborators (Samples.noon + Samples.seconds 45) false false)
          (Samples.world
             [Samples.schedule 7 (Samples.noon + Samples.seconds 30) PENDING 3 0 10])
        = (w1, Returned (response1, queue1))
        ∧ @email_router.run_background_tasks
            (Samples.collaborators (Samples.noon + Samples.seconds 45) false false)
            queue1 w1
          = (w2, Returned tt)
        ∧ @email_router.execute_pending_email_schedules
            (Samples.collaborators (Samples.noon + Samples.seconds 45) false false) w2
          = (w3, Returned (response2, queue2))
        ∧ EmailScheduleExecuteResponse.executed_count response2 = 1).
Proof.
  split.
  - eexists _, _, _, _, _, _.
    split; [apply execute_pending_run |]. split; [apply execute_pending_run |].
    vm_compute. reflexivity.
  - eexists _, _, _, _, _, _, _.
    split; [apply execute_pending_run |].
    split; [apply pair_eta_snd; vm_compute; reflexivity |].
    split; [apply execute_pending_run |]. vm_compute. reflexivity.
Qed.

(** ** The retry bound along the transitions of the engine *)

Section RetryBound.
Context `{!Collaborators}.
Import ScheduleRepository email_router.

Lemma BaseRetrySettings_valid_spec (max_retry retry_interval : Z) :
  BaseRetrySettings_valid max_retry retry_interval = true
  ↔ 0 ≤ max_retry ≤ 10 ∧ 60 ≤ retry_interval ≤ 3600.
Proof.
  unfold BaseRetrySettings_valid. rewrite !andb_true_iff, !Z.leb_le. tauto.
Qed.

Lemma create_retry_bounded (w w' : World) (api_key_id : Z) (name : string)
    (kind : ScheduleType) (scheduled_at : datetime) (payload tz : string)
    (max_retry retry_interval : Z) (o : outcome Schedule.t) :
  store_retry_bounded w →
  BaseRetrySettings_valid max_retry retry_interval = true →
  create api_key_id name kind scheduled_at payload tz max_retry retry_interval w
  = (w', o) →
  store_retry_bounded w'.
Proof.
  intros [Hwf Hb] Hvalid%BaseRetrySettings_valid_spec.
  unfold create. exec_unfold. cbn. intros [= <- <-].
  split; apply map_Forall_insert_2; try done.
  unfold retry_bounded; cbn. repeat split; lia.
Qed.

Lemma submit_retry_bounded (w w' : World) (request : EmailScheduleRequest.t)
    (api_key_id : Z) (email_service : EmailService.t)
    (o : outcome EmailScheduleResponse.t) :
  store_retry_bounded w →
  BaseRetrySettings_valid (EmailScheduleRequest.max_retry request)
                          (EmailScheduleRequest.retry_interval request) = true →
  create_email_schedule request api_key_id email_service w = (w', o) →
  store_retry_bounded w'.
Proof.
  intros Hinv Hvalid. unfold create_email_schedule.
  rewrite bind_reads_only by apply reads_only_sender_selection.
  match goal with
  | |- context [match ?x with Returned _ => _ | Raised _ => _ end] =>
      destruct x as [a|e]
  end; [| by intros [= <- <-]].
  unfold mbind, Exec_bind, bind.
  destruct (create _ _ _ _ _ _ _ _ w) as [w1 [schedule|e]] eqn:Hcreate;
    intros [= <- <-]; by eapply create_retry_bounded.
Qed.

Lemma submit_bulk_retry_bounded (w w' : World) (request : BulkEmailScheduleRequest.t)
    (api_key_id : Z) (email_service : EmailService.t)
    (o : outcome EmailScheduleResponse.t) :
  store_retry_bounded w →
  BaseRetrySettings_valid (BulkEmailScheduleRequest.max_retry request)
                          (BulkEmailScheduleRequest.retry_interval request) = true →
  create_bulk_email_schedule request api_key_id email_service w = (w', o) →
  store_retry_bounded w'.
Proof.
  intros Hinv Hvalid. unfold create_bulk_email_schedule.
  rewrite bind_reads_only by apply reads_only_sender_selection.
  match goal with
  | |- context [match ?x with Returned _ => _ | Raised _ => _ end] =>
      destruct x as [a|e]
  end; [| by intros [= <- <-]].
  unfold mbind, Exec_bind, bind.
  destruct (create _ _ _ _ _ _ _ _ w) as [w1 [schedule|e]] eqn:Hcreate;
    intros [= <- <-]; by eapply create_retry_bounded.
Qed.

Lemma cancel_retry_bounded (w w' : World) (schedule_id api_key_id : Z)
    (o : outcome CancelResponse) :
  store_retry_bounded w →
  cancel_email_schedule schedule_id api_key_id w = (w', o) →
  store_retry_bounded w'.
Proof.
  intros [Hwf Hb]. unfold cancel_email_schedule, try_except, mbind, Exec_bind, bind.
  unfold get_by_id, query_first.
  destruct (schedules w !! schedule_id) as [s|] eqn:Hs; [| by intros [= <- <-]].
  repeat (case_bool_decide; [by intros [= <- <-] |]).
  rewrite (update_status_found w schedule_id s CANCELLED None None Hs).
  cbn. intros [= <- <-].
  destruct (Hb _ _ Hs) as (Hmax & Hint & Hcount & _).
  split; apply map_Forall_insert_2; done.
Qed.

Lemma cycle_retry_bounded (w w1 w2 : World)
    (response : EmailScheduleExecuteResponse.t) (queue : list Schedule.t)
    (o : outcome unit) :
  store_retry_bounded w →
  execute_pending_email_schedules w = (w1, Returned (response, queue)) →
  run_background_tasks queue w1 = (w2, o) →
  store_retry_bounded w2.
Proof.
  intros [Hwf Hb] Hpending Hrun. split; [by eapply cycle_store_wf |].
  intros k s' Hk.
  destruct (cycle_rows w w1 w2 response queue o k s' Hwf Hpending Hrun Hk)
    as [Hold | (t & n & o' & Ht & _ & Hst & Hres)].
  - by apply (Hb k s').
  - eapply unit_result_retry_bounded; [done | done |]. by apply (Hb k t).
Qed.

Lemma engine_step_retry_bounded (w w' : World) :
  engine_step w w' → store_retry_bounded w → store_retry_bounded w'.
Proof.
  intros Hstep Hinv.
  destruct Hstep; eauto using submit_retry_bounded, submit_bulk_retry_bounded,
    cancel_retry_bounded, cycle_retry_bounded.
Qed.

(** Every world the engine reaches from an empty store keeps the invariant;
    in particular every stored schedule has a retry interval of 60 to 3600
    seconds. *)
Lemma reachable_retry_bounded (w0 w : World) :
  schedules w0 = ∅ → rtc engine_step w0 w → store_retry_bounded w.
Proof.
  intros Hempty Hsteps. revert w Hsteps.
  apply (rtc_ind_r (λ w, store_retry_bounded w)).
  - split; intros k s; rewrite Hempty, lookup_empty; done.
  - intros w1 w _ Hstep IH. by eapply engine_step_retry_bounded.
Qed.

End RetryBound.

(** C2, as the code has it: along every sequence of transitions of the
    engine (a submission that passed the schema, a cycle with the execution
    units it starts and their calls of [handle_failure], a cancellation),
    [retry_count] stays within [max_retry] for every schedule with
    [max_retry] at least 1, and within 1 for a schedule with
    [max_retry = 0]: a unit runs only for a schedule found PENDING, and such
    a schedule has an attempt left. *)
Theorem retry_count_within_max_retry `{!Collaborators} (w0 w : World) :
  schedules w0 = ∅ →
  rtc engine_step w0 w →
  ∀ k s, schedules w !! k = Some s →
         0 ≤ Schedule.retry_count s
         ∧ (1 ≤ Schedule.max_retry s → Schedule.retry_count s ≤ Schedule.max_retry s)
         ∧ (Schedule.max_retry s = 0 → Schedule.retry_count s ≤ 1).
Proof.
  intros Hempty Hsteps k s Hks.
  destruct (reachable_retry_bounded w0 w Hempty Hsteps) as [_ Hb].
  destruct (Hb k s Hks) as (_ & _ & Hcount & _). lia.
Qed.

Lemma retry_count_within_max_retry_witness :
  rtc (@engine_step Samples.failing) (Samples.world []) Samples.after_cycle
  ∧ ∃ s, schedules Samples.after_cycle !! 100 = Some s
         ∧ Schedule.status s = FAILED
         ∧ Schedule.max_retry s = 1
         ∧ Schedule.retry_count s ≤ Schedule.max_retry s.
Proof.
  assert (rtc (@engine_step Samples.failing) (Samples.world []) Samples.after_cycle)
    as Hsteps.
  { eapply rtc_l.
    - eapply (@step_submit Samples.failing Samples.submission 1 (EmailService.mk true));
        [vm_compute; reflexivity | apply surjective_pairing].
    - apply rtc_once. eapply (@step_cycle Samples.failing).
      + apply execute_pending_run.
      + apply surjective_pairing. }
  split; [exact Hsteps |].
  destruct (schedules Samples.after_cycle !! 100) as [s|] eqn:Hs;
    [| vm_compute in Hs; discriminate Hs].
  exists s.
  assert (Schedule.max_retry s = 1) as Hmax
    by (vm_compute in Hs; by injection Hs as <-).
  split; [done |]. split; [vm_compute in Hs; by injection Hs as <- |].
  split; [done |].
  apply (@retry_count_within_max_retry Samples.failing
           (Samples.world []) Samples.after_cycle eq_refl Hsteps 100 s Hs).
  lia.
Defined.

(** A retry interval the schema admits is longer than what can have passed
    of the current minute: for the schedules of a world the engine reached,
    the side conditions of the statements on C4 and C7 hold. *)
Lemma retry_bounded_interval (s : Schedule.t) (now : datetime) :
  retry_bounded s →
  60 ≤ Schedule.retry_interval s
  ∧ now mod us_per_minute < Schedule.retry_interval s * us_per_second.
Proof.
  intros (_ & Hint & _).
  pose proof (Z.mod_pos_bound now us_per_minute
                ltac:(unfold us_per_minute, us_per_second; lia)).
  unfold us_per_minute, us_per_second in *. lia.
Qed.

(** * Further properties of the code *)

(** ** The queries of the schedule store *)

Section Queries.
Import ScheduleRepositoryQueries.

Lemma elem_of_apply_filters (filters : Filters) (query : list Schedule.t)
    (s : Schedule.t) :
  s ∈ apply_filters filters query
  ↔ s ∈ query
    ∧ (∀ v, status filters = Some v → Schedule.status s = v)
    ∧ (∀ v, schedule_type filters = Some v → Schedule.schedule_type s = v)
    ∧ (∀ v, api_key_id filters = Some v → Schedule.api_key_id s = v).
Proof.
  unfold apply_filters.
  destruct (status filters), (schedule_type filters), (api_key_id filters);
    rewrite ?list_elem_of_filter;
    (split;
     [ intros Hin; repeat split; try tauto; try discriminate;
       intros v [= <-]; tauto
     | intros (Hin & Hst & Hty & Hkey); repeat split; eauto ]).
Qed.

Lemma apply_filters_sublist (filters : Filters) (query : list Schedule.t) :
  apply_filters filters query `sublist_of` query.
Proof.
  unfold apply_filters.
  destruct (status filters), (schedule_type filters), (api_key_id filters);
    repeat (etrans; [apply sublist_filter |]); done.
Qed.

Lemma created_at_desc_total : Total created_at_desc.
Proof. intros a b. unfold created_at_desc. lia. Qed.

Lemma created_at_desc_trans : Transitive created_at_desc.
Proof. intros a b c. unfold created_at_desc. lia. Qed.

Lemma StronglySorted_lookup {A} (R : relation A) (l : list A) (i j : nat) (a b : A) :
  StronglySorted R l → (i < j)%nat → l !! i = Some a → l !! j = Some b → R a b.
Proof.
  intros Hsorted Hij Ha Hb. rewrite <- (take_drop j l) in Hsorted.
  eapply StronglySorted_app_1_elem_of; [exact Hsorted | |].
  - apply elem_of_take. eauto.
  - apply list_elem_of_lookup. exists 0%nat. rewrite lookup_drop.
    by rewrite Nat.add_0_r.
Qed.

(** What [get_by_filters] computes, for an offset and a limit the database
    accepts. *)
Lemma get_by_filters_run (w : World) (filters : Filters) (limit offset : Z) :
  0 ≤ limit → 0 ≤ offset →
  get_by_filters filters limit offset w
  = (w, Returned
          (take (Z.to_nat limit)
             (drop (Z.to_nat offset)
                (order_by_created_at_desc
                   (apply_filters filters (map_to_list (schedules w)).*2))))).
Proof.
  intros Hl Ho. unfold get_by_filters, offset_limit_all. exec_unfold.
  rewrite bool_decide_eq_false_2 by lia. reflexivity.
Qed.

Lemma page_sublist {A} (n m : nat) (l : list A) : take n (drop m l) `sublist_of` l.
Proof. etrans; [apply sublist_take | apply sublist_drop]. Qed.

(** The rows of a page: rows of the table that match the filters, each
    schedule once. *)
Lemma page_rows (w : World) (filters : Filters) (n m : nat) :
  store_wf w →
  let rows :=
    take n (drop m (order_by_created_at_desc
                      (apply_filters filters (map_to_list (schedules w)).*2))) in
  NoDup (Schedule.id <$> rows)
  ∧ ∀ s, s ∈ rows →
      schedules w !! Schedule.id s = Some s
      ∧ (∀ v, status filters = Some v → Schedule.status s = v)
      ∧ (∀ v, schedule_type filters = Some v → Schedule.schedule_type s = v)
      ∧ (∀ v, api_key_id filters = Some v → Schedule.api_key_id s = v).
Proof.
  intros Hwf rows. subst rows.
  set (matching := apply_filters filters (map_to_list (schedules w)).*2).
  assert (order_by_created_at_desc matching ≡ₚ matching) as Hperm
    by apply merge_sort_Permutation.
  split.
  - eapply sublist_NoDup; [| apply fmap_sublist, page_sublist].
    rewrite Hperm.
    eapply sublist_NoDup; [| apply fmap_sublist, apply_filters_sublist].
    by apply store_rows_NoDup.
  - intros s Hin.
    assert (s ∈ matching) as Hs.
    { rewrite <- Hperm. eapply elem_of_sublist; [exact Hin | apply page_sublist]. }
    apply elem_of_apply_filters in Hs as (Hrow & Hrest). split; [| exact Hrest].
    apply list_elem_of_fmap in Hrow as ([k s'] & -> & Hks%elem_of_map_to_list).
    cbn. by rewrite (Hwf k s' Hks).
Qed.

Lemma page_length (w : World) (filters : Filters) (limit offset : Z) :
  0 ≤ limit → 0 ≤ offset →
  Z.of_nat
    (length
       (take (Z.to_nat limit)
          (drop (Z.to_nat offset)
             (order_by_created_at_desc
                (apply_filters filters (map_to_list (schedules w)).*2)))))
  = Z.min limit
      (Z.max 0
         (Z.of_nat (length (apply_filters filters (map_to_list (schedules w)).*2))
          - offset)).
Proof.
  intros Hl Ho. rewrite length_take, length_drop.
  unfold order_by_created_at_desc. rewrite merge_sort_Permutation. lia.
Qed.

End Queries.

Section QueryResults.
Import ScheduleRepositoryQueries.

(** X1: for a limit and an offset that are not negative, [get_by_filters]
    returns without changing anything; every row it returns is a row of the
    table that has the status, the type and the owner the filters ask for,
    and no schedule is returned twice. *)
Theorem get_by_filters_sound (w : World) (filters : Filters) (limit offset : Z) :
  store_wf w → 0 ≤ limit → 0 ≤ offset →
  ∃ rows,
    get_by_filters filters limit offset w = (w, Returned rows)
    ∧ NoDup (Schedule.id <$> rows)
    ∧ ∀ s, s ∈ rows →
        schedules w !! Schedule.id s = Some s
        ∧ (∀ v, status filters = Some v → Schedule.status s = v)
        ∧ (∀ v, schedule_type filters = Some v → Schedule.schedule_type s = v)
        ∧ (∀ v, api_key_id filters = Some v → Schedule.api_key_id s = v).
Proof.
  intros Hwf Hl Ho. eexists. split; [by apply get_by_filters_run |].
  by apply page_rows.
Qed.

Lemma get_by_filters_sound_witness :
  ∃ rows,
    get_by_filters (mkFilters (Some PENDING) (Some EMAIL) (Some 1)) 10 0 Listing.world
    = (Listing.world, Returned rows)
    ∧ NoDup (Schedule.id <$> rows)
    ∧ ∀ s, s ∈ rows →
        schedules Listing.world !! Schedule.id s = Some s
        ∧ (∀ v, Some PENDING = Some v → Schedule.status s = v)
        ∧ (∀ v, Some EMAIL = Some v → Schedule.schedule_type s = v)
        ∧ (∀ v, Some 1 = Some v → Schedule.api_key_id s = v).
Proof.
  apply (get_by_filters_sound Listing.world
           (mkFilters (Some PENDING) (Some EMAIL) (Some 1)) 10 0);
    [apply sample_world_wf | lia | lia].
Defined.

(** X2: the rows [get_by_filters] returns are ordered by their creation
    time, the newest first. *)
Theorem get_by_filters_newest_first (w w' : World) (filters : Filters)
    (limit offset : Z) (rows : list Schedule.t) (i j : nat) (a b : Schedule.t) :
  get_by_filters filters limit offset w = (w', Returned rows) →
  (i < j)%nat → rows !! i = Some a → rows !! j = Some b →
  Schedule.created_at b ≤ Schedule.created_at a.
Proof.
  unfold get_by_filters, offset_limit_all. exec_unfold.
  case_bool_decide; [discriminate |]. intros [= <- <-] Hij Ha Hb.
  apply lookup_take_Some in Ha as [Ha _]. apply lookup_take_Some in Hb as [Hb _].
  rewrite lookup_drop in Ha, Hb.
  eapply (StronglySorted_lookup created_at_desc); [| | exact Ha | exact Hb]; [| lia].
  apply StronglySorted_merge_sort;
    [apply created_at_desc_trans | apply created_at_desc_total].
Qed.

Lemma get_by_filters_newest_first_witness :
  Schedule.created_at (Listing.row 1 1 EMAIL PENDING (Samples.noon - Samples.seconds 500))
  ≤ Schedule.created_at (Listing.row 5 1 EMAIL PENDING (Samples.noon - Samples.seconds 100)).
Proof.
  apply (get_by_filters_newest_first Listing.world Listing.world
           (mkFilters (Some PENDING) (Some EMAIL) (Some 1)) 10 0
           [Listing.row 5 1 EMAIL PENDING (Samples.noon - Samples.seconds 100);
            Listing.row 1 1 EMAIL PENDING (Samples.noon - Samples.seconds 500)]
           0 1);
    [vm_compute; reflexivity | lia | reflexivity | reflexivity].
Defined.

(** X3: the number of rows a page holds is the limit, or what is left of
    the matching rows counted by [count_by_filters] after the offset, if
    that is less. *)
Theorem get_by_filters_length (w : World) (filters : Filters) (limit offset : Z) :
  0 ≤ limit → 0 ≤ offset →
  ∃ rows total,
    get_by_filters filters limit offset w = (w, Returned rows)
    ∧ count_by_filters filters w = (w, Returned total)
    ∧ Z.of_nat (length rows) = Z.min limit (Z.max 0 (total - offset)).
Proof.
  intros Hl Ho. eexists _, _. split; [by apply get_by_filters_run |].
  split; [reflexivity |]. by apply page_length.
Qed.

Lemma get_by_filters_length_witness :
  ∃ rows total,
    get_by_filters (mkFilters None (Some EMAIL) (Some 1)) 2 2 Listing.world
    = (Listing.world, Returned rows)
    ∧ count_by_filters (mkFilters None (Some EMAIL) (Some 1)) Listing.world
      = (Listing.world, Returned total)
    ∧ Z.of_nat (length rows) = Z.min 2 (Z.max 0 (total - 2)).
Proof.
  apply (get_by_filters_length Listing.world
           (mkFilters None (Some EMAIL) (Some 1)) 2 2); lia.
Defined.

(** X4: a page that starts at offset 0 and whose limit is at least the
    count of [count_by_filters] holds every row of the table that matches
    the filters. *)
Theorem get_by_filters_complete (w w1 w2 : World) (filters : Filters) (limit total : Z)
    (rows : list Schedule.t) (k : Z) (s : Schedule.t) :
  count_by_filters filters w = (w1, Returned total) →
  total ≤ limit →
  get_by_filters filters limit 0 w = (w2, Returned rows) →
  schedules w !! k = Some s →
  (∀ v, status filters = Some v → Schedule.status s = v) →
  (∀ v, schedule_type filters = Some v → Schedule.schedule_type s = v) →
  (∀ v, api_key_id filters = Some v → Schedule.api_key_id s = v) →
  s ∈ rows.
Proof.
  unfold count_by_filters. exec_unfold. intros [= <- <-] Htotal.
  rewrite get_by_filters_run by lia. intros [= <- <-] Hks Hst Hty Hkey.
  change (Z.to_nat 0) with 0%nat. rewrite drop_0, take_ge; last first.
  { unfold order_by_created_at_desc. rewrite merge_sort_Permutation. lia. }
  unfold order_by_created_at_desc. rewrite merge_sort_Permutation.
  apply elem_of_apply_filters. split; [| done].
  apply list_elem_of_fmap. exists (k, s). split; [done |].
  by apply elem_of_map_to_list.
Qed.

Lemma get_by_filters_complete_witness :
  Listing.row 2 1 EMAIL COMPLETED (Samples.noon - Samples.seconds 400)
  ∈ [Listing.row 5 1 EMAIL PENDING (Samples.noon - Samples.seconds 100);
     Listing.row 2 1 EMAIL COMPLETED (Samples.noon - Samples.seconds 400);
     Listing.row 1 1 EMAIL PENDING (Samples.noon - Samples.seconds 500)].
Proof.
  apply (get_by_filters_complete Listing.world Listing.world Listing.world
           (mkFilters None (Some EMAIL) (Some 1)) 100 3 _ 2);
    [vm_compute; reflexivity | lia | vm_compute; reflexivity
    | vm_compute; reflexivity | discriminate
    | by intros v [= <-] | by intros v [= <-]].
Defined.

(** X5: the due-queries narrow one another: the due schedules of a type are
    the due schedules filtered by type, the due schedules are the PENDING
    rows of [get_by_status] whose time has come, and the schedules waiting
    for a retry are the due schedules with a retry count above 0 and below
    [max_retry]. *)
Theorem due_queries_narrow (w : World) (current_time : datetime)
    (schedule_type : ScheduleType) :
  ∃ pending due,
    get_by_status PENDING w = (w, Returned pending)
    ∧ get_pending_schedules_by_time current_time w = (w, Returned due)
    ∧ due = filter (λ s, Schedule.scheduled_at s ≤ current_time) pending
    ∧ ScheduleRepository.get_pending_schedules_by_time_and_type
        current_time schedule_type w
      = (w, Returned (filter (λ s, Schedule.schedule_type s = schedule_type) due))
    ∧ get_retry_pending_schedules current_time w
      = (w, Returned (filter (λ s, 0 < Schedule.retry_count s
                                   ∧ Schedule.retry_count s < Schedule.max_retry s)
                             due)).
Proof.
  eexists _, _. split; [reflexivity |]. split; [reflexivity |].
  unfold ScheduleRepository.get_pending_schedules_by_time_and_type,
    get_retry_pending_schedules.
  rewrite !list_filter_filter. split; [| split].
  - apply list_filter_iff. tauto.
  - do 2 f_equal. apply list_filter_iff. tauto.
  - do 2 f_equal. apply list_filter_iff. intros s. intuition lia.
Qed.

End QueryResults.

(** ** The read endpoints *)

Section ReadEndpoints.
Import ScheduleRepositoryQueries email_router_queries.

Lemma ScheduleStatus_of_status_value (st : ScheduleStatus) :
  ScheduleStatus_of_value (status_value st) = Returned st.
Proof. by destruct st. Qed.

Lemma ScheduleStatus_of_value_Returned (value : string) (st : ScheduleStatus) :
  ScheduleStatus_of_value value = Returned st → value = status_value st.
Proof.
  unfold ScheduleStatus_of_value.
  repeat case_decide; try discriminate; intros [= <-]; by subst.
Qed.

Lemma ScheduleStatus_of_value_Raised (value : string) :
  (∀ st, value ≠ status_value st) →
  ScheduleStatus_of_value value
  = Raised (ValueError ("'" +:+ value +:+ "' is not a valid ScheduleStatus")).
Proof.
  intros Hno. unfold ScheduleStatus_of_value.
  repeat (case_decide;
          [exfalso;
           first [ by eapply (Hno PENDING) | by eapply (Hno PROCESSING)
                 | by eapply (Hno COMPLETED) | by eapply (Hno FAILED)
                 | by eapply (Hno CANCELLED) ] |]).
  reflexivity.
Qed.

(** X6: [ScheduleStatus(value)] is the inverse of [.value]: it returns a
    status exactly for that status's own lower-case value, and raises
    [ValueError] for every other string. *)
Theorem ScheduleStatus_of_value_round_trip (value : string) :
  (∀ st, ScheduleStatus_of_value value = Returned st ↔ value = status_value st)
  ∧ ((∀ st, value ≠ status_value st) →
     ∃ msg, ScheduleStatus_of_value value = Raised (ValueError msg)).
Proof.
  split.
  - intros st. split; [apply ScheduleStatus_of_value_Returned |].
    intros ->. apply ScheduleStatus_of_status_value.
  - intros Hno. eexists. by apply ScheduleStatus_of_value_Raised.
Qed.

(** X7: for parameters the schema admits and a status that is absent or
    the value of a status, the list endpoint returns without changing
    anything; it lists only e-mail schedules of the calling key, with the
    status asked for, each once; [total_count] is the count of all such
    schedules, and the page holds [limit] of them or what is left after
    [offset]. *)
Theorem list_email_schedules_own_email_only `{!Formats} (w : World)
    (params : ScheduleFilterParams) (api_key_id : Z) (st : option ScheduleStatus) :
  store_wf w →
  1 ≤ limit params → 0 ≤ offset params →
  truthy (status params) = status_value <$> st →
  ∃ rows total,
    list_email_schedules params api_key_id w
    = (w, Returned (mkListResponse (list_item <$> rows) total
                      (offset params / limit params) (limit params)))
    ∧ count_by_filters (mkFilters st (Some EMAIL) (Some api_key_id)) w
      = (w, Returned total)
    ∧ Z.of_nat (length rows) = Z.min (limit params) (Z.max 0 (total - offset params))
    ∧ NoDup (Schedule.id <$> rows)
    ∧ ∀ s, s ∈ rows →
        schedules w !! Schedule.id s = Some s
        ∧ Schedule.api_key_id s = api_key_id
        ∧ Schedule.schedule_type s = EMAIL
        ∧ (∀ v, st = Some v → Schedule.status s = v).
Proof.
  intros Hwf Hl Ho Hst.
  set (filters := mkFilters st (Some EMAIL) (Some api_key_id)).
  destruct (page_rows w filters (Z.to_nat (limit params)) (Z.to_nat (offset params)) Hwf)
    as [Hnodup Hrows].
  eexists _, _. split; [| split; [reflexivity | split; [| split]]].
  - unfold list_email_schedules. rewrite Hst.
    assert (∀ k : Filters → Exec EmailScheduleListResponse,
              (match status_value <$> st with
               | Some value =>
                   st' ← lift (ScheduleStatus_of_value value);
                   mret (mkFilters (Some st') (Some EMAIL) (Some api_key_id))
               | None => mret (mkFilters None (Some EMAIL) (Some api_key_id))
               end ≫= k) w = k filters w) as ->.
    { intros k. destruct st as [v|]; cbn; [| done].
      unfold mbind, Exec_bind, bind, lift. by rewrite ScheduleStatus_of_status_value. }
    unfold mbind, Exec_bind, bind.
    rewrite (get_by_filters_run w filters) by lia.
    unfold count_by_filters. exec_unfold.
    rewrite decide_False by lia. reflexivity.
  - apply page_length; lia.
  - exact Hnodup.
  - intros s Hin. destruct (Hrows s Hin) as (Hrow & Hstatus & Hty & Hkey).
    repeat split; [done | by apply Hkey | by apply Hty | done].
Qed.

Lemma list_email_schedules_own_email_only_witness :
  ∃ rows total,
    @list_email_schedules Listing.formats (mkParams (Some "pending") 10 0) 1 Listing.world
    = (Listing.world,
       Returned (mkListResponse (@list_item Listing.formats <$> rows) total (0 / 10) 10))
    ∧ count_by_filters (mkFilters (Some PENDING) (Some EMAIL) (Some 1)) Listing.world
      = (Listing.world, Returned total)
    ∧ Z.of_nat (length rows) = Z.min 10 (Z.max 0 (total - 0))
    ∧ NoDup (Schedule.id <$> rows)
    ∧ ∀ s, s ∈ rows →
        schedules Listing.world !! Schedule.id s = Some s
        ∧ Schedule.api_key_id s = 1
        ∧ Schedule.schedule_type s = EMAIL
        ∧ (∀ v, Some PENDING = Some v → Schedule.status s = v).
Proof.
  apply (@list_email_schedules_own_email_only Listing.formats Listing.world
           (mkParams (Some "pending") 10 0) 1 (Some PENDING));
    [apply sample_world_wf | cbn; lia | cbn; lia | reflexivity].
Defined.

(** X8: a status filter that is not the lower-case value of a status makes
    the list endpoint raise [ValueError], which the handler does not catch;
    nothing is changed.  The example of the schema, [PENDING] in upper
    case, is such a filter. *)
Theorem list_email_schedules_unknown_status `{!Formats} (w : World)
    (params : ScheduleFilterParams) (api_key_id : Z) (value : string) :
  truthy (status params) = Some value →
  (∀ st, value ≠ status_value st) →
  ∃ msg, list_email_schedules params api_key_id w = (w, Raised (ValueError msg)).
Proof.
  intros Hst Hno. eexists. unfold list_email_schedules. rewrite Hst.
  unfold mbind, Exec_bind, bind, lift.
  rewrite (ScheduleStatus_of_value_Raised value Hno). reflexivity.
Qed.

Lemma list_email_schedules_unknown_status_witness :
  ∃ msg,
    @list_email_schedules Listing.formats (mkParams (Some "PENDING") 100 0) 1 Listing.world
    = (Listing.world, Raised (ValueError msg)).
Proof.
  apply (@list_email_schedules_unknown_status Listing.formats Listing.world
           (mkParams (Some "PENDING") 100 0) 1 "PENDING");
    [reflexivity | by intros []].
Defined.

(** X9: the detail endpoint changes nothing, and shows a schedule only to
    the key that owns it and only if it is an e-mail schedule: a missing id,
    a schedule of another key and a schedule of another type are each
    refused with [ApiError], and a detail that is returned is the one of
    the stored row of that id. *)
Theorem get_email_schedule_access `{!Collaborators} `{!Formats} (w w' : World) (schedule_id api_key_id : Z)
    (o : outcome ScheduleDetail) :
  get_email_schedule schedule_id api_key_id w = (w', o) →
  w' = w
  ∧ (schedules w !! schedule_id = None →
     o = Raised (ApiError "스케줄을 찾을 수 없습니다"))
  ∧ (∀ s, schedules w !! schedule_id = Some s →
          Schedule.api_key_id s ≠ api_key_id →
          o = Raised (ApiError "접근 권한이 없습니다"))
  ∧ (∀ s, schedules w !! schedule_id = Some s →
          Schedule.api_key_id s = api_key_id →
          Schedule.schedule_type s ≠ EMAIL →
          o = Raised (ApiError "이메일 스케줄이 아닙니다"))
  ∧ (∀ d, o = Returned d →
          ∃ s, schedules w !! schedule_id = Some s
               ∧ Schedule.api_key_id s = api_key_id
               ∧ Schedule.schedule_type s = EMAIL
               ∧ detail_schedule_id d = Schedule.id s
               ∧ detail_status d = status_value (Schedule.status s)
               ∧ detail_retry_count d = Schedule.retry_count s
               ∧ detail_error_message d = Schedule.error_message s
               ∧ json_loads (Schedule.payload s) = Returned (detail_payload d)).
Proof.
  unfold get_email_schedule. exec_unfold.
  unfold ScheduleRepository.query_first. cbv beta iota.
  destruct (schedules w !! schedule_id) as [s|] eqn:Hs; cbn.
  2: { intros [= <- <-]. by repeat (split; [intros; simplify_eq; done |]). }
  case_bool_decide as Hkey; cbn.
  { intros [= <- <-]. by repeat (split; [intros; simplify_eq; done |]). }
  case_bool_decide as Hty; cbn.
  { intros [= <- <-]. by repeat (split; [intros; simplify_eq; done |]). }
  destruct (json_loads (Schedule.payload s)) as [payload|e] eqn:Hpayload; cbn.
  2: { intros [= <- <-]. by repeat (split; [intros; simplify_eq; done |]). }
  assert (Schedule.api_key_id s = api_key_id) as Hown
    by (destruct (decide (Schedule.api_key_id s = api_key_id)); done).
  assert (Schedule.schedule_type s = EMAIL) as Hemail
    by (destruct (decide (Schedule.schedule_type s = EMAIL)); done).
  destruct (truthy (Schedule.result s)) as [r|]; cbn;
    [destruct (json_loads r) as [result|e]; cbn |];
    intros [= <- <-];
    repeat (split; [intros; simplify_eq; done |]);
    intros d Hd; simplify_eq; exists s; cbn; done.
Qed.

Lemma get_email_schedule_access_witness :
  Listing.world = Listing.world
  ∧ (schedules Listing.world !! 3 = None →
     @Raised (@ScheduleDetail (Samples.collaborators Samples.noon true false))
       (ApiError "접근 권한이 없습니다")
     = Raised (ApiError "스케줄을 찾을 수 없습니다"))
  ∧ (∀ s, schedules Listing.world !! 3 = Some s →
          Schedule.api_key_id s ≠ 1 →
          @Raised (@ScheduleDetail (Samples.collaborators Samples.noon true false))
            (ApiError "접근 권한이 없습니다")
          = Raised (ApiError "접근 권한이 없습니다"))
  ∧ (∀ s, schedules Listing.world !! 3 = Some s →
          Schedule.api_key_id s = 1 →
          Schedule.schedule_type s ≠ EMAIL →
          @Raised (@ScheduleDetail (Samples.collaborators Samples.noon true false))
            (ApiError "접근 권한이 없습니다")
          = Raised (ApiError "이메일 스케줄이 아닙니다"))
  ∧ (∀ d, @Raised (@ScheduleDetail (Samples.collaborators Samples.noon true false))
            (ApiError "접근 권한이 없습니다") = Returned d →
          ∃ s, schedules Listing.world !! 3 = Some s
               ∧ Schedule.api_key_id s = 1
               ∧ Schedule.schedule_type s = EMAIL
               ∧ detail_schedule_id d = Schedule.id s
               ∧ detail_status d = status_value (Schedule.status s)
               ∧ detail_retry_count d = Schedule.retry_count s
               ∧ detail_error_message d = Schedule.error_message s
               ∧ json_loads (Schedule.payload s) = Returned (detail_payload d)).
Proof.
  apply (@get_email_schedule_access (Samples.collaborators Samples.noon true false)
           Listing.formats Listing.world Listing.world 3 1).
  vm_compute. reflexivity.
Defined.

End ReadEndpoints.

(** ** Cancelling a schedule *)

(** X10: cancelling a PENDING e-mail schedule of the calling key succeeds:
    the row becomes CANCELLED with a new [updated_at], every other column
    and every other row is as before, and the response names the
    schedule. *)
Theorem cancel_email_schedule_effect `{!Collaborators}
    (w : World) (schedule_id api_key_id : Z) (s : Schedule.t) :
  store_wf w →
  schedules w !! schedule_id = Some s →
  Schedule.api_key_id s = api_key_id →
  Schedule.schedule_type s = EMAIL →
  Schedule.status s = PENDING →
  ∃ w',
    email_router.cancel_email_schedule schedule_id api_key_id w
    = (w', Returned (email_router.mkCancelResponse
                       "이메일 스케줄이 취소되었습니다" schedule_id (clock (S (ticks w)))))
    ∧ schedules w' = <[schedule_id := cancelled_row s (clock (ticks w))]> (schedules w)
    ∧ api_keys w' = api_keys w
    ∧ environ w' = environ w
    ∧ next_schedule_id w' = next_schedule_id w.
Proof.
  intros Hwf Hs Hown Hty Hst. eexists.
  unfold email_router.cancel_email_schedule, try_except, mbind, Exec_bind, bind.
  unfold ScheduleRepository.get_by_id, ScheduleRepository.query_first.
  rewrite Hs.
  rewrite !bool_decide_eq_false_2 by (intros Hne; by apply Hne).
  rewrite (update_status_found w schedule_id s CANCELLED None None Hs).
  cbn. rewrite (Hwf _ _ Hs). done.
Qed.

Lemma cancel_email_schedule_effect_witness :
  ∃ w',
    @email_router.cancel_email_schedule (Samples.collaborators Samples.noon true false)
      1 1 Listing.world
    = (w', Returned (email_router.mkCancelResponse
                       "이메일 스케줄이 취소되었습니다" 1 Samples.noon))
    ∧ schedules w'
      = <[1 := cancelled_row
                 (Listing.row 1 1 EMAIL PENDING (Samples.noon - Samples.seconds 500))
                 Samples.noon]> (schedules Listing.world)
    ∧ api_keys w' = api_keys Listing.world
    ∧ environ w' = environ Listing.world
    ∧ next_schedule_id w' = next_schedule_id Listing.world.
Proof.
  apply (@cancel_email_schedule_effect (Samples.collaborators Samples.noon true false)
           Listing.world 1 1
           (Listing.row 1 1 EMAIL PENDING (Samples.noon - Samples.seconds 500)));
    [apply sample_world_wf | vm_compute; reflexivity
    | reflexivity | reflexivity | reflexivity].
Defined.

(** X11: in every other case, that is when the id is unknown or the
    schedule belongs to another key, is no e-mail schedule or is no longer
    PENDING, the cancel endpoint raises [ApiError] and changes nothing. *)
Theorem cancel_email_schedule_refused `{!Collaborators}
    (w : World) (schedule_id api_key_id : Z) :
  (∀ s, schedules w !! schedule_id = Some s →
        ¬ (Schedule.api_key_id s = api_key_id
           ∧ Schedule.schedule_type s = EMAIL
           ∧ Schedule.status s = PENDING)) →
  ∃ msg,
    email_router.cancel_email_schedule schedule_id api_key_id w
    = (w, Raised (ApiError msg)).
Proof.
  intros Hno.
  unfold email_router.cancel_email_schedule, try_except, mbind, Exec_bind, bind.
  unfold ScheduleRepository.get_by_id, ScheduleRepository.query_first.
  destruct (schedules w !! schedule_id) as [s|] eqn:Hs; [| by eexists].
  specialize (Hno s eq_refl).
  repeat (case_bool_decide; [by eexists |]).
  destruct Hno.
  repeat split;
    match goal with
    | |- ?a = ?b => by destruct (decide (a = b))
    end.
Qed.

Lemma cancel_email_schedule_refused_witness :
  ∃ msg,
    @email_router.cancel_email_schedule (Samples.collaborators Samples.noon true false)
      2 1 Listing.world
    = (Listing.world, Raised (ApiError msg)).
Proof.
  apply (@cancel_email_schedule_refused (Samples.collaborators Samples.noon true false)
           Listing.world 2 1).
  intros s Hs. vm_compute in Hs. injection Hs as <-.
  intros (_ & _ & Hst). discriminate Hst.
Defined.

(** ** API keys *)

(** X12: [get_api_key_id] changes nothing; the id it returns is the id of a
    stored key that is active and whose value is the header, which is not
    empty; and every exception it raises is an [ApiError]. *)
Theorem get_api_key_id_sound (w w' : World) (x_api_key : option string)
    (o : outcome Z) :
  auth.get_api_key_id x_api_key w = (w', o) →
  w' = w
  ∧ match o with
    | Returned id =>
        ∃ k record value,
          x_api_key = Some value ∧ value ≠ ""
          ∧ api_keys w !! k = Some record
          ∧ ApiKey.api_key record = value
          ∧ ApiKey.is_active record = true
          ∧ ApiKey.id record = id
    | Raised e => ∃ msg, e = ApiError msg
    end.
Proof.
  unfold auth.get_api_key_id.
  destruct x_api_key as [value|]; cbn; [| intros [= <- <-]; eauto].
  case_decide as Hvalue; [intros [= <- <-]; eauto |].
  unfold ApiKeyRepository.get_by_api_key, mbind, Exec_bind, bind.
  destruct (head _) as [record|] eqn:Hhead; [| intros [= <- <-]; eauto].
  apply head_Some_elem_of, list_elem_of_filter in Hhead as [Hkey Hin].
  apply list_elem_of_fmap in Hin as ([k r] & -> & Hk%elem_of_map_to_list).
  cbn in *.
  destruct (ApiKey.is_active r) eqn:Hactive; cbn; intros [= <- <-]; [| eauto].
  split; [done |]. exists k, r, value. done.
Qed.

Lemma get_api_key_id_sound_witness :
  Listing.world = Listing.world
  ∧ ∃ k record value,
      Some "eb2058a8" = Some value ∧ value ≠ ""
      ∧ api_keys Listing.world !! k = Some record
      ∧ ApiKey.api_key record = value
      ∧ ApiKey.is_active record = true
      ∧ ApiKey.id record = 1.
Proof.
  apply (get_api_key_id_sound Listing.world Listing.world (Some "eb2058a8") (Returned 1)).
  vm_compute. reflexivity.
Defined.

(** X13: the key value is a UNIQUE column; when the table holds no two
    keys with the value of the header, the key with that value decides: its
    id is returned if it is active, and [ApiError] is raised if it is
    not. *)
Theorem get_api_key_id_complete (w : World) (value : string) (k : Z)
    (record : ApiKey.t) :
  value ≠ "" →
  api_keys w !! k = Some record →
  ApiKey.api_key record = value →
  (∀ k' record', api_keys w !! k' = Some record' →
                 ApiKey.api_key record' = value → record' = record) →
  auth.get_api_key_id (Some value) w
  = (w, if ApiKey.is_active record
        then Returned (ApiKey.id record)
        else Raised (ApiError "비활성화된 API 키입니다")).
Proof.
  intros Hvalue Hk Hkey Hunique. unfold auth.get_api_key_id. cbn.
  rewrite decide_False by done.
  unfold ApiKeyRepository.get_by_api_key, mbind, Exec_bind, bind.
  destruct (head _) as [r|] eqn:Hhead.
  - apply head_Some_elem_of, list_elem_of_filter in Hhead as [Hr Hin].
    apply list_elem_of_fmap in Hin as ([k' r'] & -> & Hk'%elem_of_map_to_list).
    cbn in *. rewrite (Hunique k' r' Hk' Hr).
    by destruct (ApiKey.is_active record).
  - apply head_None in Hhead.
    assert (record ∈ filter (λ r, ApiKey.api_key r = value)
                            (map_to_list (api_keys w)).*2) as Hin.
    { apply list_elem_of_filter. split; [done |].
      apply list_elem_of_fmap. exists (k, record). split; [done |].
      by apply elem_of_map_to_list. }
    rewrite Hhead in Hin. by apply not_elem_of_nil in Hin.
Qed.

Lemma get_api_key_id_complete_witness :
  auth.get_api_key_id (Some "798004a6") Listing.world
  = (Listing.world,
     if ApiKey.is_active (ApiKey.mk 2 "key of service b" "798004a6" "service_b" true)
     then Returned (ApiKey.id (ApiKey.mk 2 "key of service b" "798004a6" "service_b" true))
     else Raised (ApiError "비활성화된 API 키입니다")).
Proof.
  apply (get_api_key_id_complete Listing.world "798004a6" 2
           (ApiKey.mk 2 "key of service b" "798004a6" "service_b" true));
    [done | vm_compute; reflexivity | reflexivity |].
  intros k' record' Hk' Hvalue.
  destruct (decide (k' = 1)) as [->|]; [vm_compute in Hk'; by simplify_eq |].
  destruct (decide (k' = 2)) as [->|]; [vm_compute in Hk'; by simplify_eq |].
  unfold Listing.world, Samples.world, Samples.keys in Hk'. cbn in Hk'.
  rewrite !lookup_insert_ne in Hk' by done. by rewrite lookup_empty in Hk'.
Defined.

(** ** Checks of the configuration *)

Section Configuration.
Context `{!Collaborators}.

Lemma validate_run (w : World) :
  NCloudConfigChecks.validate w
  = (w, Returned
          (bool_decide (truthy (environ w !! "NCLOUD_ACCESS_KEY") ≠ None
                        ∧ truthy (environ w !! "NCLOUD_SECRET_KEY") ≠ None))).
Proof.
  unfold NCloudConfigChecks.validate, NCloudConfig.access_key, NCloudConfig.secret_key.
  exec_unfold. cbv beta iota.
  destruct (truthy (environ w !! "NCLOUD_ACCESS_KEY")) as [a|];
    destruct (truthy (environ w !! "NCLOUD_SECRET_KEY")) as [b|];
    cbv beta iota; case_bool_decide as Hset; try reflexivity;
    exfalso; first [by apply Hset | by destruct Hset as [Ha Hb]].
Qed.

Lemma init_run (w : World) (db : bool) :
  EmailService.init db w
  = (w, match truthy (environ w !! "NCLOUD_ACCESS_KEY") with
        | Some _ =>
            match truthy (environ w !! "NCLOUD_SECRET_KEY") with
            | Some _ => Returned (EmailService.mk db)
            | None =>
                Raised (ValueError "NCLOUD_SECRET_KEY 환경변수가 설정되지 않았습니다.")
            end
        | None => Raised (ValueError "NCLOUD_ACCESS_KEY 환경변수가 설정되지 않았습니다.")
        end).
Proof.
  unfold EmailService.init, NCloudConfig.access_key, NCloudConfig.secret_key.
  exec_unfold. cbv beta iota.
  destruct (truthy (environ w !! "NCLOUD_ACCESS_KEY")) as [a|]; cbn; [| done].
  by destruct (truthy (environ w !! "NCLOUD_SECRET_KEY")) as [b|].
Qed.

End Configuration.

(** ** The sender of an execution *)

Section ScheduledSending.
Context `{!Collaborators}.
Import email_router.

(** With both keys of the provider configured, the execution of a stored
    single message is [send_single_email] for the request of the payload and
    the key that owns the schedule. *)
Lemma send_scheduled_email_single (w : World) (schedule : Schedule.t)
    (payload : Payload) (request : EmailRequest.t) :
  json_loads (Schedule.payload schedule) = Returned payload →
  truthy (environ w !! "NCLOUD_ACCESS_KEY") ≠ None →
  truthy (environ w !! "NCLOUD_SECRET_KEY") ≠ None →
  payload_is_bulk payload = false →
  email_request_of_payload payload = Returned request →
  send_scheduled_email schedule w
  = EmailService.send_single_email (EmailService.mk true) request
      (Schedule.api_key_id schedule) w.
Proof.
  intros Hload Ha Hs Hbulk Hreq.
  unfold send_scheduled_email, mbind, Exec_bind, bind, lift.
  rewrite Hload, init_run.
  destruct (truthy (environ w !! "NCLOUD_ACCESS_KEY")); [| done].
  destruct (truthy (environ w !! "NCLOUD_SECRET_KEY")); [| done].
  by rewrite Hbulk, Hreq.
Qed.

(** The execution of a stored bulk message raises before a sender is
    selected, and writes nothing. *)
Lemma send_scheduled_email_bulk (w : World) (schedule : Schedule.t)
    (payload : Payload) :
  json_loads (Schedule.payload schedule) = Returned payload →
  truthy (environ w !! "NCLOUD_ACCESS_KEY") ≠ None →
  truthy (environ w !! "NCLOUD_SECRET_KEY") ≠ None →
  payload_is_bulk payload = true →
  send_scheduled_email schedule w
  = (w, Raised match payload_recipients payload with
               | Returned (S _) => OtherException "name 'EmailRecipient' is not defined"
               | Returned O => empty_bulk_request_error payload
               | Raised e => e
               end).
Proof.
  intros Hload Ha Hs Hbulk.
  unfold send_scheduled_email, mbind, Exec_bind, bind, lift.
  rewrite Hload, init_run.
  destruct (truthy (environ w !! "NCLOUD_ACCESS_KEY")); [| done].
  destruct (truthy (environ w !! "NCLOUD_SECRET_KEY")); [| done].
  rewrite Hbulk. by destruct (payload_recipients payload) as [[|n]|e].
Qed.

(** When sending raises, a unit that returns has recorded the failure on
    the schedule. *)
Lemma unit_records_failure (w w1 w' : World) (t : Schedule.t) (e : exn) :
  schedules w !! Schedule.id t = Some t →
  send_scheduled_email t
    (with_schedules (<[Schedule.id t := processing_row t (clock (ticks w))]> (schedules w))
                    (with_ticks (S (ticks w)) w))
  = (w1, Raised e) →
  execute_single_email_schedule t w = (w', Returned tt) →
  ∃ s',
    schedules w' !! Schedule.id t = Some s'
    ∧ Schedule.error_message s' = Some (str_exn e)
    ∧ Schedule.retry_count s' = Schedule.retry_count t + 1
    ∧ (Schedule.max_retry t ≤ Schedule.retry_count t + 1 → Schedule.status s' = FAILED)
    ∧ (Schedule.retry_count t + 1 < Schedule.max_retry t → Schedule.status s' = PENDING)
    ∧ Schedule.executed_at s' = Schedule.executed_at t
    ∧ Schedule.result s' = Schedule.result t.
Proof.
  intros Ht Hsend. destruct (execute_single_run w t Ht) as [Hsch ->].
  cbv zeta in *. rewrite Hsend in *. cbn [fst snd] in *.
  set (p := processing_row t (clock (ticks w))) in *.
  assert (schedules w1 !! Schedule.id t = Some p) as Hp
    by (rewrite Hsch; apply lookup_insert_eq).
  destruct (decide (Schedule.max_retry t ≤ Schedule.retry_count t + 1)) as [Hex|Hre].
  - rewrite (handle_failure_exhausted w1 _ p (str_exn e) Hp) by (cbn; lia).
    cbn. intros [= <-]. eexists. split; [cbn; apply lookup_insert_eq |].
    cbn. repeat (split; [done || lia |]). done.
  - rewrite (handle_failure_rearm w1 _ p (str_exn e) Hp) by (cbn; lia).
    destruct (timedelta_of_seconds _) as [delta|e']; [| discriminate].
    destruct (add _ _) as [at_|e']; [| discriminate].
    cbn. intros [= <-]. eexists. split; [cbn; apply lookup_insert_eq |].
    cbn. repeat (split; [done || lia |]). done.
Qed.

End ScheduledSending.

(** C9: what the execution of a schedule does about the sender, with both
    keys of the provider configured.  The execution of a single message
    selects the sender by the three levels, from the payload, the key that
    owns the schedule and the environment as they are at the call: the
    provider is called with the explicit value of the payload if there is
    one, else with the address configured for the service name of the owning
    key, else with the global default, and without any of them the execution
    fails.  The execution of a bulk message selects no sender: it raises
    before [send_bulk_email] is reached and writes nothing, with NameError
    for the name [EmailRecipient] as soon as the payload has a recipient, and
    a unit that returns has recorded that message as a failed attempt and has
    not completed the schedule.  The function that reads the last two levels
    changes nothing and keeps nothing, [send_bulk_email] itself would call
    the provider with the address selected by the three levels, and the
    creation endpoint stores the address selected in the same way in the
    payload of the schedule. *)
Theorem execution_sender_three_level_fallback `{!Collaborators}
    (w : World) (schedule : Schedule.t) (payload : Payload) :
  json_loads (Schedule.payload schedule) = Returned payload →
  truthy (environ w !! "NCLOUD_ACCESS_KEY") ≠ None →
  truthy (environ w !! "NCLOUD_SECRET_KEY") ≠ None →
  (payload_is_bulk payload = false →
   ∀ request,
     email_request_of_payload payload = Returned request →
     match SenderSpec.resolveSenderAddress (EmailRequest.sender_address request)
             (api_keys w !! Schedule.api_key_id schedule) (environ w) with
     | Returned a =>
         ∃ n,
           match ncloud_send_email n request a with
           | Returned result =>
               ∃ m,
                 (email_router.send_scheduled_email schedule w).2
                 = Returned (SendResult.mk true "이메일이 성공적으로 발송되었습니다"
                               (NCloudResponse.requestId result)
                               (default 1 (NCloudResponse.count result))
                               (now_isoformat m))
           | Raised e =>
               ∃ msg,
                 (email_router.send_scheduled_email schedule w).2
                 = Raised (ApiError msg)
           end
     | Raised e =>
         ∃ msg,
           (email_router.send_scheduled_email schedule w).2 = Raised (ApiError msg)
     end)
  ∧ (payload_is_bulk payload = true →
     ∃ e,
       email_router.send_scheduled_email schedule w = (w, Raised e)
       ∧ ∀ n, payload_recipients payload = Returned (S n) →
              e = OtherException "name 'EmailRecipient' is not defined")
  ∧ (payload_is_bulk payload = true →
     ∀ n w',
       payload_recipients payload = Returned (S n) →
       schedules w !! Schedule.id schedule = Some schedule →
       email_router.execute_single_email_schedule schedule w = (w', Returned tt) →
       ∃ s',
         schedules w' !! Schedule.id schedule = Some s'
         ∧ Schedule.error_message s' = Some "name 'EmailRecipient' is not defined"
         ∧ Schedule.retry_count s' = Schedule.retry_count schedule + 1
         ∧ Schedule.status s' ≠ COMPLETED
         ∧ Schedule.result s' = Schedule.result schedule)
  ∧ (∀ api_key_id,
       EmailService._get_sender_email_by_api_key (EmailService.mk true) api_key_id w
       = (w, SenderSpec.resolveSenderAddress None (api_keys w !! api_key_id)
               (environ w)))
  ∧ (∀ request api_key_id a result,
       SenderSpec.resolveSenderAddress
         (BulkEmailRequest.sender_address request) (api_keys w !! api_key_id) (environ w)
       = Returned a →
       ncloud_send_bulk_email (ticks w) request a = Returned result →
       ∃ sent,
         EmailService.send_bulk_email (EmailService.mk true) request api_key_id w
         = (w, Returned sent)
         ∧ SendResult.request_id sent = NCloudResponse.requestId result)
  ∧ (∀ request api_key_id a,
       SenderSpec.resolveSenderAddress
         (EmailScheduleRequest.sender_address request)
         (api_keys w !! api_key_id) (environ w)
       = Returned a →
       ∃ w' response,
         email_router.create_email_schedule request api_key_id (EmailService.mk true) w
         = (w', Returned response)
         ∧ Schedule.payload <$> schedules w' !! next_schedule_id w
           = Some (json_dumps_payload request a)).
Proof.
  intros Hload Ha Hs.
  split; [| split; [| split; [| split; [| split]]]].
  - intros Hbulk request Hreq.
    rewrite (send_scheduled_email_single w schedule payload request Hload Ha Hs Hbulk Hreq).
    apply send_single_email_outcome.
  - intros Hbulk.
    rewrite (send_scheduled_email_bulk w schedule payload Hload Ha Hs Hbulk).
    eexists. split; [reflexivity |]. by intros n ->.
  - intros Hbulk n w' Hn Ht Hrun.
    destruct (unit_records_failure w
                (with_schedules
                   (<[Schedule.id schedule := processing_row schedule (clock (ticks w))]>
                      (schedules w))
                   (with_ticks (S (ticks w)) w))
                w' schedule (OtherException "name 'EmailRecipient' is not defined") Ht)
      as (s' & Hrow & Hmsg & Hcount & Hfailed & Hpending & _ & Hresult);
      [| exact Hrun |].
    { rewrite (send_scheduled_email_bulk
                 (with_schedules
                    (<[Schedule.id schedule
                       := processing_row schedule (clock (ticks w))]> (schedules w))
                    (with_ticks (S (ticks w)) w))
                 schedule payload Hload Ha Hs Hbulk).
      by rewrite Hn. }
    exists s'. split; [exact Hrow |]. split; [exact Hmsg |]. split; [exact Hcount |].
    split; [| exact Hresult].
    destruct (decide (Schedule.max_retry schedule ≤ Schedule.retry_count schedule + 1))
      as [Hex|Hre].
    + by rewrite (Hfailed Hex).
    + rewrite Hpending by lia. done.
  - apply get_sender_email_by_api_key_spec.
  - intros request api_key_id a result Hsel Hsend.
    unfold EmailService.send_bulk_email, try_except, mbind, Exec_bind, bind.
    rewrite sender_selection_spec, Hsel. cbn. unfold lift. rewrite Hsend. cbn.
    eexists. split; reflexivity.
  - intros request api_key_id a Hsel.
    unfold email_router.create_email_schedule, mbind, Exec_bind, bind.
    rewrite sender_selection_spec, Hsel.
    unfold ScheduleRepository.create. exec_unfold. cbn.
    eexists _, _. split; [reflexivity |]. cbn. by rewrite lookup_insert_eq.
Qed.

(** A due bulk schedule of two recipients, with a provider that would accept
    every message: the unit records NameError as the first failed attempt
    and leaves the schedule PENDING for the next one. *)
Lemma execution_sender_three_level_fallback_witness :
  ∃ s',
    schedules (@email_router.execute_single_email_schedule
                 (Samples.bulk_collaborators Samples.noon)
                 (Samples.schedule 7 Samples.noon PENDING 3 0 300)
                 (Samples.world [Samples.schedule 7 Samples.noon PENDING 3 0 300])).1
      !! 7 = Some s'
    ∧ Schedule.error_message s' = Some "name 'EmailRecipient' is not defined"
    ∧ Schedule.retry_count s' = 0 + 1
    ∧ Schedule.status s' ≠ COMPLETED
    ∧ Schedule.result s' = None.
Proof.
  refine (proj1 (proj2 (proj2
            (@execution_sender_three_level_fallback
               (Samples.bulk_collaborators Samples.noon)
               (Samples.world [Samples.schedule 7 Samples.noon PENDING 3 0 300])
               (Samples.schedule 7 Samples.noon PENDING 3 0 300) tt _ _ _)))
            _ 1%nat _ _ _ _).
  - vm_compute. reflexivity.
  - vm_compute. discriminate.
  - vm_compute. discriminate.
  - vm_compute. reflexivity.
  - vm_compute. reflexivity.
  - vm_compute. reflexivity.
  - apply pair_eta_snd. vm_compute. reflexivity.
Defined.

(** The three levels on the sample configuration, read off the request id of
    the provider's answer: an explicit address wins; key 1 (service_a) has an
    address of its own; key 2 (service_b) has none and key 3 does not exist,
    so both get the default; an empty explicit address counts as none. *)
Example sender_levels :
  (λ '(explicit, api_key_id),
     match (@EmailService.send_single_email
              (Samples.collaborators Samples.noon true false) (EmailService.mk true)
              (EmailRequest.mk "user@example.com" None "Welcome" "<h1>Welcome</h1>"
                               explicit)
              api_key_id (Samples.world [])).2 with
     | Returned sent => SendResult.request_id sent
     | Raised _ => None
     end)
  <$> [(Some "me@example.com", 1); (None, 1); (None, 2); (None, 3); (Some "", 1)]
  = Some <$> ["me@example.com"; "a@example.com"; "default@example.com";
              "default@example.com"; "a@example.com"].
Proof. vm_compute. reflexivity. Qed.

(** X14: [validate] never raises and changes nothing; it answers true
    exactly when the access key and the secret key are both set to a
    non-empty value, and that is exactly when building an [EmailService]
    succeeds; otherwise building the service raises [ValueError]. *)
Theorem validate_iff_init (w : World) (db : bool) :
  ∃ ok,
    NCloudConfigChecks.validate w = (w, Returned ok)
    ∧ (ok = true ↔ truthy (environ w !! "NCLOUD_ACCESS_KEY") ≠ None
                   ∧ truthy (environ w !! "NCLOUD_SECRET_KEY") ≠ None)
    ∧ (ok = true ↔ EmailService.init db w = (w, Returned (EmailService.mk db)))
    ∧ (ok = false ↔ ∃ msg, EmailService.init db w = (w, Raised (ValueError msg))).
Proof.
  eexists. split; [apply validate_run |].
  rewrite init_run, bool_decide_eq_true, bool_decide_eq_false.
  destruct (truthy (environ w !! "NCLOUD_ACCESS_KEY")) as [a|];
    [destruct (truthy (environ w !! "NCLOUD_SECRET_KEY")) as [b|] |].
  - split; [done |]. split; [done |].
    split; [intros Hno; by destruct Hno | intros [msg [=]]].
  - split; [done |]. split; [split; [intros []; done | intros [=]] |].
    split; [eauto | intros _ []; done].
  - split; [done |]. split; [split; [intros []; done | intros [=]] |].
    split; [eauto | intros _ []; done].
Qed.

(** X15: [health_check] never raises and changes nothing: it reports
    [healthy] when the access key and the secret key are both set, and
    [unhealthy] when one of them is missing or empty, with the answer of
    [validate] as [ncloud_config]. *)
Theorem health_check_reports_configuration `{!Collaborators}
    (w : World) (self : EmailService.t) :
  ∃ report,
    EmailServiceHealth.health_check self w = (w, Returned report)
    ∧ EmailServiceHealth.service report = "email"
    ∧ (EmailServiceHealth.status report = "healthy"
       ∨ EmailServiceHealth.status report = "unhealthy")
    ∧ (EmailServiceHealth.status report = "healthy"
       ↔ truthy (environ w !! "NCLOUD_ACCESS_KEY") ≠ None
         ∧ truthy (environ w !! "NCLOUD_SECRET_KEY") ≠ None)
    ∧ EmailServiceHealth.ncloud_config report
      = Some (bool_decide (EmailServiceHealth.status report = "healthy")).
Proof.
  unfold EmailServiceHealth.health_check, try_except, mbind, Exec_bind, bind.
  rewrite validate_run. unfold get_world, mret, Exec_ret, ret.
  eexists. split; [reflexivity |]. cbn.
  case_bool_decide as Hset; cbn.
  - split; [done |]. split; [by left |]. split; [done |]. done.
  - split; [done |]. split; [by right |]. split; [split; [intros [=] | done] |]. done.
Qed.

(** ** Sending *)

(** X16: [send_single_email] writes nothing but the e-mail log: the
    schedules, the API keys, the environment and the next schedule id are
    as before.  It answers with [success] when it returns, and every
    exception that leaves it is an [ApiError], whose message starts with one
    of the three texts of the handlers: input validation, provider, or
    system error. *)
Theorem send_single_email_writes_only_the_log `{!Collaborators}
    (w w' : World) (self : EmailService.t) (request : EmailRequest.t)
    (api_key_id : Z) (o : outcome SendResult.t) :
  EmailService.send_single_email self request api_key_id w = (w', o) →
  schedules w' = schedules w
  ∧ api_keys w' = api_keys w
  ∧ environ w' = environ w
  ∧ next_schedule_id w' = next_schedule_id w
  ∧ match o with
    | Returned result => SendResult.success result = true
    | Raised e =>
        ∃ prefix cause,
          e = ApiError (prefix +:+ cause)
          ∧ prefix ∈ ["이메일 입력 검증 실패: "; "이메일 발송 서비스 오류: ";
                      "이메일 발송 중 시스템 오류가 발생했습니다: "]
    end.
Proof.
  intros Hrun.
  destruct (keeps_store_send_single_email self request api_key_id w)
    as (Hsch & Hkeys & Henv & Hnext).
  rewrite Hrun in Hsch, Hkeys, Henv, Hnext. cbn in Hsch, Hkeys, Henv, Hnext.
  repeat (split; [done |]).
  revert Hrun. unfold EmailService.send_single_email.
  rewrite bind_reads_only by apply reads_only_get_world. cbn [snd get_world].
  unfold try_except.
  match goal with
  | |- context [match ?m w with (_, _) => _ end] => destruct (m w) as [w1 [r|e]] eqn:Hm
  end.
  - intros [= <- <-].
    apply bind_Returned in Hm as (sender & w2 & _ & Hm).
    apply bind_Returned in Hm as ([] & w3 & _ & Hm).
    apply bind_Returned in Hm as (w3' & w4 & _ & Hm).
    apply bind_Returned in Hm as (result & w5 & _ & Hm).
    apply bind_Returned in Hm as ([] & w6 & _ & Hm).
    apply bind_Returned in Hm as (w6' & w7 & _ & Hm).
    by injection Hm as _ <-.
  - unfold mbind, Exec_bind, bind.
    pose proof (log_failure_returns self (new_request_id (ticks w)) e w1) as Hlog.
    destruct (EmailService.log_failure _ _ _ w1) as [w2 o2]. cbn in Hlog. subst o2.
    destruct e; unfold raise; intros [= <- <-]; eexists _, _;
      (split; [reflexivity |]); set_solver.
Qed.

Lemma send_single_email_writes_only_the_log_witness :
  ∃ w',
    @EmailService.send_single_email Samples.failing (EmailService.mk true)
      Samples.request 1 Listing.world
    = (w', Raised (ApiError "이메일 발송 서비스 오류: API 요청 시간 초과 (30초)"))
    ∧ EmailLog.status <$> email_logs w' = ["failed"]
    ∧ schedules w' = schedules Listing.world
    ∧ api_keys w' = api_keys Listing.world
    ∧ environ w' = environ Listing.world
    ∧ next_schedule_id w' = next_schedule_id Listing.world
    ∧ ∃ prefix cause,
        ApiError "이메일 발송 서비스 오류: API 요청 시간 초과 (30초)"
        = ApiError (prefix +:+ cause)
        ∧ prefix ∈ ["이메일 입력 검증 실패: "; "이메일 발송 서비스 오류: ";
                    "이메일 발송 중 시스템 오류가 발생했습니다: "].
Proof.
  eexists.
  assert (@EmailService.send_single_email Samples.failing (EmailService.mk true)
            Samples.request 1 Listing.world
          = ((@EmailService.send_single_email Samples.failing (EmailService.mk true)
                Samples.request 1 Listing.world).1,
             Raised (ApiError "이메일 발송 서비스 오류: API 요청 시간 초과 (30초)")))
    as Hrun by (apply pair_eta_snd; vm_compute; reflexivity).
  split; [exact Hrun |]. split; [vm_compute; reflexivity |].
  apply (@send_single_email_writes_only_the_log Samples.failing
           Listing.world _ (EmailService.mk true) Samples.request 1 _ Hrun).
Defined.

(** ** The rows the engine writes *)

Section EngineRows.
Context `{!Collaborators}.
Import ScheduleRepository email_router.

Lemma create_run (w : World) (api_key_id : Z) (name : string) (kind : ScheduleType)
    (scheduled_at : datetime) (payload tz : string) (max_retry retry_interval : Z) :
  let row := created_row (next_schedule_id w) api_key_id name kind scheduled_at
                         payload tz max_retry retry_interval
                         (clock (ticks w)) (clock (S (ticks w))) in
  create api_key_id name kind scheduled_at payload tz max_retry retry_interval w
  = (mkWorld (<[next_schedule_id w := row]> (schedules w)) (api_keys w) (environ w)
             (next_schedule_id w + 1) (S (S (ticks w))) (email_logs w),
     Returned row).
Proof. reflexivity. Qed.

(** A submission either fails before anything is written, or stores one
    new row under the next key. *)
Lemma submit_rows (w w' : World) (request : EmailScheduleRequest.t)
    (api_key_id : Z) (email_service : EmailService.t)
    (o : outcome EmailScheduleResponse.t) :
  BaseRetrySettings_valid (EmailScheduleRequest.max_retry request)
                          (EmailScheduleRequest.retry_interval request) = true →
  create_email_schedule request api_key_id email_service w = (w', o) →
  (w' = w ∧ ∃ e, o = Raised e)
  ∨ ∃ row response,
      newly_created row
      ∧ Schedule.id row = next_schedule_id w
      ∧ Schedule.api_key_id row = api_key_id
      ∧ schedules w' = <[next_schedule_id w := row]> (schedules w)
      ∧ next_schedule_id w' = next_schedule_id w + 1
      ∧ o = Returned response
      ∧ EmailScheduleResponse.schedule_id response = next_schedule_id w.
Proof.
  intros Hvalid. unfold create_email_schedule.
  rewrite bind_reads_only by apply reads_only_sender_selection.
  match goal with
  | |- context [match ?x with Returned _ => _ | Raised _ => _ end] =>
      destruct x as [a|e]
  end; [| intros [= <- <-]; left; eauto].
  unfold mbind, Exec_bind, bind. rewrite create_run. cbv zeta.
  intros [= <- <-]. right. eexists _, _.
  split; [| split; [| split; [| split; [| split; [| split]]]]];
    try reflexivity.
  all: try reflexivity.
  unfold newly_created. cbn. done.
Qed.

Lemma submit_bulk_rows (w w' : World) (request : BulkEmailScheduleRequest.t)
    (api_key_id : Z) (email_service : EmailService.t)
    (o : outcome EmailScheduleResponse.t) :
  BaseRetrySettings_valid (BulkEmailScheduleRequest.max_retry request)
                          (BulkEmailScheduleRequest.retry_interval request) = true →
  create_bulk_email_schedule request api_key_id email_service w = (w', o) →
  (w' = w ∧ ∃ e, o = Raised e)
  ∨ ∃ row response,
      newly_created row
      ∧ Schedule.id row = next_schedule_id w
      ∧ Schedule.api_key_id row = api_key_id
      ∧ schedules w' = <[next_schedule_id w := row]> (schedules w)
      ∧ next_schedule_id w' = next_schedule_id w + 1
      ∧ o = Returned response
      ∧ EmailScheduleResponse.schedule_id response = next_schedule_id w.
Proof.
  intros Hvalid. unfold create_bulk_email_schedule.
  rewrite bind_reads_only by apply reads_only_sender_selection.
  match goal with
  | |- context [match ?x with Returned _ => _ | Raised _ => _ end] =>
      destruct x as [a|e]
  end; [| intros [= <- <-]; left; eauto].
  unfold mbind, Exec_bind, bind. rewrite create_run. cbv zeta.
  intros [= <- <-]. right. eexists _, _.
  split; [| split; [| split; [| split; [| split; [| split]]]]];
    try reflexivity.
  all: try reflexivity.
  unfold newly_created. cbn. done.
Qed.

(** A cancellation either changes nothing, or rewrites one PENDING row. *)
Lemma cancel_rows (w w' : World) (schedule_id api_key_id : Z)
    (o : outcome CancelResponse) :
  store_wf w →
  cancel_email_schedule schedule_id api_key_id w = (w', o) →
  w' = w
  ∨ ∃ s, schedules w !! schedule_id = Some s
         ∧ Schedule.status s = PENDING
         ∧ schedules w'
           = <[schedule_id := cancelled_row s (clock (ticks w))]> (schedules w)
         ∧ next_schedule_id w' = next_schedule_id w.
Proof.
  intros Hwf. unfold cancel_email_schedule, try_except, mbind, Exec_bind, bind.
  unfold get_by_id, query_first.
  destruct (schedules w !! schedule_id) as [s|] eqn:Hs; [| intros [= <- <-]; by left].
  repeat (case_bool_decide; [intros [= <- <-]; by left |]).
  rewrite (update_status_found w schedule_id s CANCELLED None None Hs).
  cbn. intros [= <- <-]. right. exists s. cbn. rewrite (Hwf _ _ Hs).
  split; [done |]. split; [| done].
  by destruct (decide (Schedule.status s = PENDING)).
Qed.

(** The execution units of a cycle assign no key. *)
Lemma run_background_tasks_next_id (queue : list Schedule.t) (w : World) :
  NoDup (Schedule.id <$> queue) →
  (∀ t, t ∈ queue → schedules w !! Schedule.id t = Some t) →
  next_schedule_id (run_background_tasks queue w).1 = next_schedule_id w.
Proof.
  revert w. induction queue as [|t queue IH]; intros w Hnodup Hrows; [done |].
  rewrite fmap_cons in Hnodup. apply NoDup_cons in Hnodup as [Hfresh Hnodup].
  destruct (execute_single_effect w t)
    as (s1 & w1 & o1 & Hrun & Hsch & _ & _ & Hnext & Hres).
  { apply Hrows. left. }
  cbn [run_background_tasks]. unfold mbind, Exec_bind, bind. rewrite Hrun.
  destruct o1 as [[]|e]; [| done].
  rewrite IH; [done | done |].
  intros t' Hin. rewrite Hsch, lookup_insert_ne.
  - apply Hrows. by right.
  - intros Heq. apply Hfresh. rewrite Heq. apply list_elem_of_fmap. eauto.
Qed.

Lemma cycle_next_id (w w1 w2 : World) (response : EmailScheduleExecuteResponse.t)
    (queue : list Schedule.t) (o : outcome unit) :
  store_wf w →
  execute_pending_email_schedules w = (w1, Returned (response, queue)) →
  run_background_tasks queue w1 = (w2, o) →
  next_schedule_id w2 = next_schedule_id w.
Proof.
  intros Hwf Hpending Hrun.
  apply execute_pending_facts in Hpending as (-> & Hqueue & _).
  destruct (queue_rows w queue Hwf Hqueue) as [Hnodup Hrows].
  pose proof (run_background_tasks_next_id queue (with_ticks (S (ticks w)) w) Hnodup)
    as Hnext.
  rewrite Hrun in Hnext. apply Hnext. intros t Hin. by apply Hrows.
Qed.

(** A cycle leaves the rows its due-query passes over as they are. *)
Lemma cycle_passed_over (w w1 w2 : World) (response : EmailScheduleExecuteResponse.t)
    (queue : list Schedule.t) (o : outcome unit) (k : Z) (s : Schedule.t) :
  store_wf w →
  execute_pending_email_schedules w = (w1, Returned (response, queue)) →
  run_background_tasks queue w1 = (w2, o) →
  schedules w !! k = Some s →
  passed_over w s →
  schedules w2 !! k = Some s.
Proof.
  intros Hwf Hpending Hrun Hk Hover.
  apply execute_pending_facts in Hpending as (-> & Hqueue & _).
  destruct (queue_rows w queue Hwf Hqueue) as [Hnodup Hrows].
  destruct (run_background_tasks_effect queue (with_ticks (S (ticks w)) w) Hnodup)
    as (w' & o' & Hrun' & Hframe & _).
  { intros t Hin. by apply Hrows. }
  rewrite Hrun in Hrun'. injection Hrun' as <- <-.
  rewrite Hframe; [exact Hk |].
  apply (not_queued_id w queue k s Hwf Hqueue Hk).
  rewrite Hqueue. intros [_ Hdue]%list_elem_of_filter.
  apply due_of_elem_of in Hdue as (_ & Hst & Hat & Hty).
  destruct Hover as [Hover | [Hover | Hover]]; [done | lia | done].
Qed.

(** What a transition of the engine does to the rows: a row of the new
    store is a row of before, a newly created row under a key that was not
    in use, the cancelled form of a PENDING row, or what an execution unit
    left of a PENDING row. *)
Lemma engine_step_rows (w w' : World) :
  engine_step w w' →
  store_wf w → ids_below_next w →
  ids_below_next w'
  ∧ (∀ k s, schedules w !! k = Some s → Schedule.status s ≠ PENDING →
            schedules w' !! k = Some s)
  ∧ (∀ k s', schedules w' !! k = Some s' →
       schedules w !! k = Some s'
       ∨ (schedules w !! k = None ∧ newly_created s')
       ∨ (∃ s now, schedules w !! k = Some s ∧ Schedule.status s = PENDING
                   ∧ s' = cancelled_row s now)
       ∨ (∃ t n o, schedules w !! k = Some t ∧ Schedule.status t = PENDING
                   ∧ unit_result n t s' o)).
Proof.
  assert (∀ row,
            ids_below_next w →
            schedules w' = <[next_schedule_id w := row]> (schedules w) →
            next_schedule_id w' = next_schedule_id w + 1 →
            newly_created row →
            ids_below_next w'
            ∧ (∀ k s, schedules w !! k = Some s → Schedule.status s ≠ PENDING →
                      schedules w' !! k = Some s)
            ∧ (∀ k s', schedules w' !! k = Some s' →
                 schedules w !! k = Some s'
                 ∨ (schedules w !! k = None ∧ newly_created s')
                 ∨ (∃ s now, schedules w !! k = Some s ∧ Schedule.status s = PENDING
                             ∧ s' = cancelled_row s now)
                 ∨ (∃ t n o, schedules w !! k = Some t ∧ Schedule.status t = PENDING
                             ∧ unit_result n t s' o))) as Hcreated.
  { intros row Hbelow Hrows Hnext Hnew.
    assert (schedules w !! next_schedule_id w = None) as Hfresh.
    { destruct (schedules w !! next_schedule_id w) as [s|] eqn:Hs; [| done].
      apply Hbelow in Hs. lia. }
    split; [| split].
    - intros k s. rewrite Hrows, Hnext.
      destruct (decide (k = next_schedule_id w)) as [->|Hne]; [lia |].
      rewrite lookup_insert_ne by done. intros Hs%Hbelow. lia.
    - intros k s Hs _. rewrite Hrows.
      rewrite lookup_insert_ne; [done |]. intros <-. congruence.
    - intros k s'. rewrite Hrows.
      destruct (decide (k = next_schedule_id w)) as [->|Hne].
      + rewrite lookup_insert_eq. intros [= <-]. right. left. done.
      + rewrite lookup_insert_ne by done. by left. }
  assert (w' = w →
          ids_below_next w →
          ids_below_next w'
          ∧ (∀ k s, schedules w !! k = Some s → Schedule.status s ≠ PENDING →
                    schedules w' !! k = Some s)
          ∧ (∀ k s', schedules w' !! k = Some s' →
               schedules w !! k = Some s'
               ∨ (schedules w !! k = None ∧ newly_created s')
               ∨ (∃ s now, schedules w !! k = Some s ∧ Schedule.status s = PENDING
                           ∧ s' = cancelled_row s now)
               ∨ (∃ t n o, schedules w !! k = Some t ∧ Schedule.status t = PENDING
                           ∧ unit_result n t s' o))) as Hsame.
  { intros -> Hbelow. split; [done |]. split; [done |]. intros k s' Hs'. by left. }
  intros Hstep Hwf Hbelow. revert Hcreated Hsame.
  destruct Hstep as [request api_key_id email_service w w' o Hvalid Hrun
                    |request api_key_id email_service w w' o Hvalid Hrun
                    |w w1 response queue w2 o Hpending Hrun
                    |schedule_id api_key_id w w' o Hrun]; intros Hcreated Hsame.
  - destruct (submit_rows _ _ _ _ _ _ Hvalid Hrun)
      as [[-> _] | (row & r & Hnew & _ & _ & Hrows & Hnext & _)]; eauto.
  - destruct (submit_bulk_rows _ _ _ _ _ _ Hvalid Hrun)
      as [[-> _] | (row & r & Hnew & _ & _ & Hrows & Hnext & _)]; eauto.
  - split; [| split].
    + intros k s' Hs'. rewrite (cycle_next_id w w1 w2 response queue o Hwf Hpending Hrun).
      destruct (cycle_rows w w1 w2 response queue o k s' Hwf Hpending Hrun Hs')
        as [Hold | (t & n & o' & Ht & _)]; eauto.
    + intros k s Hs Hst.
      apply (cycle_passed_over w w1 w2 response queue o k s Hwf Hpending Hrun Hs).
      by left.
    + intros k s' Hs'.
      destruct (cycle_rows w w1 w2 response queue o k s' Hwf Hpending Hrun Hs')
        as [Hold | (t & n & o' & Ht & _ & Hst & Hres)]; [by left |].
      right. right. right. by exists t, n, o'.
  - destruct (cancel_rows _ _ _ _ _ Hwf Hrun)
      as [-> | (s & Hs & Hst & Hrows & Hnext)]; [eauto |].
    split; [| split].
    + intros k s'. rewrite Hrows, Hnext.
      destruct (decide (k = schedule_id)) as [->|Hne].
      * intros _. by apply (Hbelow _ s).
      * rewrite lookup_insert_ne by done. apply Hbelow.
    + intros k s0 Hs0 Hne. rewrite Hrows.
      rewrite lookup_insert_ne; [done |]. intros <-. congruence.
    + intros k s'. rewrite Hrows.
      destruct (decide (k = schedule_id)) as [->|Hne].
      * rewrite lookup_insert_eq. intros [= <-]. right. right. left.
        by exists s, (clock (ticks w)).
      * rewrite lookup_insert_ne by done. by left.
Qed.

(** Every world the engine reaches from an empty store is well formed and
    has its keys below the next key. *)
Lemma reachable_ids_below_next (w0 w : World) :
  schedules w0 = ∅ → rtc engine_step w0 w →
  store_retry_bounded w ∧ ids_below_next w.
Proof.
  intros Hempty Hsteps.
  split; [by eapply reachable_retry_bounded |].
  revert w Hsteps.
  apply (rtc_ind_r (λ w, ids_below_next w)).
  - intros k s. by rewrite Hempty, lookup_empty.
  - intros w1 w Hsteps Hstep IH.
    destruct (reachable_retry_bounded w0 w1 Hempty Hsteps) as [Hwf _].
    by destruct (engine_step_rows w1 w Hstep Hwf IH).
Qed.

(** Induction on the rows of the worlds the engine reaches from an empty
    store: a property of the newly created rows that cancelling a PENDING
    row and running a unit for a PENDING row keep is a property of every
    row. *)
Lemma reachable_rows_ind (P : Schedule.t → Prop) (w0 w : World) :
  (∀ s, newly_created s → P s) →
  (∀ s now, P s → retry_bounded s → Schedule.status s = PENDING →
            P (cancelled_row s now)) →
  (∀ n t s' o, P t → retry_bounded t → Schedule.status t = PENDING →
               unit_result n t s' o → P s') →
  schedules w0 = ∅ → rtc engine_step w0 w →
  ∀ k s, schedules w !! k = Some s → P s.
Proof.
  intros Hnew Hcancel Hunit Hempty Hsteps. revert w Hsteps.
  apply (rtc_ind_r (λ w, ∀ k s, schedules w !! k = Some s → P s)).
  - intros k s. by rewrite Hempty, lookup_empty.
  - intros w1 w Hsteps Hstep IH k s' Hs'.
    destruct (reachable_ids_below_next w0 w1 Hempty Hsteps) as [[Hwf Hb] Hbelow].
    destruct (engine_step_rows w1 w Hstep Hwf Hbelow) as (_ & _ & Hrows).
    destruct (Hrows k s' Hs')
      as [Hold | [[_ Hcreated] | [(s & now & Hs & Hst & ->)
                                 | (t & n & o & Ht & Hst & Hres)]]].
    + by apply (IH k).
    + by apply Hnew.
    + apply Hcancel; [by apply (IH k) | by apply (Hb k) | done].
    + eapply Hunit; [by apply (IH k) | by apply (Hb k) | done | done].
Qed.

End EngineRows.

(** The sample run: a submission, then a cycle whose unit fails. *)
Lemma sample_run :
  rtc (@engine_step Samples.failing) (Samples.world []) Samples.after_cycle.
Proof.
  eapply rtc_l.
  - eapply (@step_submit Samples.failing Samples.submission 1 (EmailService.mk true));
      [vm_compute; reflexivity | apply surjective_pairing].
  - apply rtc_once. eapply (@step_cycle Samples.failing).
    + apply execute_pending_run.
    + apply surjective_pairing.
Qed.

(** X17: a cycle touches only the schedules its due-query selects: a row
    that is not PENDING, not yet due at the clock reading of the handler, or
    not an e-mail schedule is the same after the cycle, whatever the units
    of the cycle do. *)
Theorem cycle_leaves_rows_not_due `{!Collaborators}
    (w w1 w2 : World) (response : EmailScheduleExecuteResponse.t)
    (queue : list Schedule.t) (o : outcome unit) (k : Z) (s : Schedule.t) :
  store_wf w →
  email_router.execute_pending_email_schedules w = (w1, Returned (response, queue)) →
  email_router.run_background_tasks queue w1 = (w2, o) →
  schedules w !! k = Some s →
  passed_over w s →
  schedules w2 !! k = Some s.
Proof. apply cycle_passed_over. Qed.

Lemma cycle_leaves_rows_not_due_witness :
  ∃ w1 w2 response queue o,
    @email_router.execute_pending_email_schedules
      (Samples.collaborators Samples.noon true false) Listing.world
    = (w1, Returned (response, queue))
    ∧ @email_router.run_background_tasks
        (Samples.collaborators Samples.noon true false) queue w1
      = (w2, o)
    ∧ EmailScheduleExecuteResponse.executed_count response = 3
    ∧ schedules w2 !! 2
      = Some (Listing.row 2 1 EMAIL COMPLETED (Samples.noon - Samples.seconds 400))
    ∧ schedules w2 !! 4
      = Some (Listing.row 4 1 SMS PENDING (Samples.noon - Samples.seconds 200)).
Proof.
  eexists _, _, _, _, _.
  split; [apply execute_pending_run |]. split; [apply surjective_pairing |].
  split; [vm_compute; reflexivity |].
  split.
  - apply (@cycle_leaves_rows_not_due (Samples.collaborators Samples.noon true false)
             Listing.world _ _ _ _ _ 2
             (Listing.row 2 1 EMAIL COMPLETED (Samples.noon - Samples.seconds 400))
             (sample_world_wf _) (execute_pending_run _) (surjective_pairing _)).
    + vm_compute. reflexivity.
    + left. discriminate.
  - apply (cycle_passed_over Listing.world _ _ _ _ _ 4
             (Listing.row 4 1 SMS PENDING (Samples.noon - Samples.seconds 200))
             (sample_world_wf _) (execute_pending_run _) (surjective_pairing _)).
    + vm_compute. reflexivity.
    + right. right. discriminate.
Defined.

(** ** Runs in which requests and units interleave *)

Section Interleaved.
Context `{!Collaborators}.
Import ScheduleRepository email_router.

Lemma row_written_same (k : Z) (P : Schedule.t → Prop) (w w' : World) :
  store_wf w →
  schedules w' = schedules w →
  next_schedule_id w' = next_schedule_id w →
  row_written k P w w'.
Proof.
  intros Hwf Hsch Hnext. unfold row_written, store_wf. rewrite Hsch.
  split; [done |]. split; [done |]. split; [done |]. eauto.
Qed.

Lemma row_written_insert (k : Z) (P : Schedule.t → Prop) (w w' : World)
    (s s' : Schedule.t) :
  store_wf w →
  schedules w !! k = Some s →
  schedules w' = <[Schedule.id s := s']> (schedules w) →
  Schedule.id s' = Schedule.id s →
  next_schedule_id w' = next_schedule_id w →
  (P s → P s') →
  row_written k P w w'.
Proof.
  intros Hwf Hs Hsch Hid Hnext HP. pose proof (Hwf k s Hs) as Hk. cbn in Hk.
  rewrite Hk in Hsch, Hid. unfold row_written, store_wf. rewrite Hsch.
  split; [by apply map_Forall_insert_2 |]. split; [done |]. split.
  - intros j Hj. by rewrite lookup_insert_ne.
  - intros s''. rewrite lookup_insert_eq. intros [= <-]. eauto.
Qed.

Lemma row_written_trans (k : Z) (P : Schedule.t → Prop) (w w1 w2 : World) :
  row_written k P w w1 → row_written k P w1 w2 → row_written k P w w2.
Proof.
  intros (_ & Hn1 & Ho1 & Hk1) (Hwf2 & Hn2 & Ho2 & Hk2).
  split; [done |]. split; [congruence |]. split.
  - intros j Hj. by rewrite Ho2, Ho1.
  - intros s'' Hs''. destruct (Hk2 _ Hs'') as (s' & Hs' & HP').
    destruct (Hk1 _ Hs') as (s & Hs & HP). eauto.
Qed.

Lemma writes_row_only_keeps_store {A} (k : Z) (P : Schedule.t → Prop) (m : Exec A) :
  keeps_store m → writes_row_only k P m.
Proof.
  intros Hm w Hwf. destruct (Hm w) as (Hsch & _ & _ & Hnext).
  by apply row_written_same.
Qed.

Lemma writes_row_only_bind {A B} (k : Z) (P : Schedule.t → Prop)
    (m : Exec A) (f : A → Exec B) :
  writes_row_only k P m → (∀ a, writes_row_only k P (f a)) →
  writes_row_only k P (m ≫= f).
Proof.
  intros Hm Hf w Hwf. specialize (Hm w Hwf).
  unfold mbind, Exec_bind, bind.
  destruct (m w) as [w1 [a|e]]; cbn [fst] in *; [| done].
  eapply row_written_trans; [exact Hm |]. apply Hf. by destruct Hm.
Qed.

Lemma writes_row_only_try_except {A} (k : Z) (P : Schedule.t → Prop)
    (m : Exec A) (h : exn → Exec A) :
  writes_row_only k P m → (∀ e, writes_row_only k P (h e)) →
  writes_row_only k P (try_except m h).
Proof.
  intros Hm Hh w Hwf. specialize (Hm w Hwf). unfold try_except.
  destruct (m w) as [w1 [a|e]]; cbn [fst] in *; [done |].
  eapply row_written_trans; [exact Hm |]. apply Hh. by destruct Hm.
Qed.

Lemma writes_row_only_update_status (k : Z) (P : Schedule.t → Prop)
    (st : ScheduleStatus) (ea : option datetime) (r : option string) :
  (∀ s now,
     P s →
     P (Schedule.set_updated_at now
          match truthy r with
          | Some _ =>
              Schedule.set_result r
                match ea with
                | Some _ => Schedule.set_executed_at ea (Schedule.set_status st s)
                | None => Schedule.set_status st s
                end
          | None =>
              match ea with
              | Some _ => Schedule.set_executed_at ea (Schedule.set_status st s)
              | None => Schedule.set_status st s
              end
          end)) →
  writes_row_only k P (update_status k st ea r).
Proof.
  intros HP w Hwf. destruct (schedules w !! k) as [s|] eqn:Hs.
  - rewrite (update_status_found w k s st ea r Hs). cbv zeta. cbn [fst].
    eapply (row_written_insert k P w _ s); [done | done | reflexivity | | done |].
    + by destruct ea, (truthy r).
    + apply HP.
  - rewrite (update_status_missing w k st ea r Hs). by apply row_written_same.
Qed.

Lemma writes_row_only_handle_failure (k : Z) (P : Schedule.t → Prop) (msg : string) :
  (∀ s now, P s → P (failed_row s msg now)) →
  (∀ s now at_, P s → P (rearmed_row s msg now at_)) →
  writes_row_only k P (handle_failure k msg).
Proof.
  intros Hfailed Hrearmed w Hwf. destruct (schedules w !! k) as [s|] eqn:Hs.
  - destruct (decide (Schedule.max_retry s ≤ Schedule.retry_count s + 1)) as [Hex|Hre].
    + rewrite (handle_failure_exhausted w k s msg Hs Hex). cbv zeta. cbn [fst].
      eapply (row_written_insert k P w _ s); [done | done | reflexivity | done | done |].
      apply Hfailed.
    + rewrite (handle_failure_rearm w k s msg Hs) by lia.
      destruct (timedelta_of_seconds _) as [delta|e];
        [| by apply row_written_same].
      destruct (add _ _) as [at_|e]; [| by apply row_written_same].
      cbn [fst].
      eapply (row_written_insert k P w _ s); [done | done | reflexivity | done | done |].
      apply Hrearmed.
  - rewrite (handle_failure_missing w k msg Hs). by apply row_written_same.
Qed.

(** An execution unit writes the row of its schedule, if there is one, and
    nothing else of the store, whatever the row has become since the unit
    was queued. *)
Lemma writes_row_only_execute_single (P : Schedule.t → Prop) (t : Schedule.t) :
  kept_by_unit P →
  writes_row_only (Schedule.id t) P (execute_single_email_schedule t).
Proof.
  intros (Hprocessing & Hcompleted & Hfailed & Hrearmed).
  apply writes_row_only_try_except.
  - apply writes_row_only_bind.
    { apply writes_row_only_update_status. intros s now. apply Hprocessing. }
    intros _. apply writes_row_only_bind.
    { apply writes_row_only_keeps_store, keeps_store_send_scheduled_email. }
    intros result. apply writes_row_only_bind.
    { apply writes_row_only_keeps_store, keeps_store_utcnow. }
    intros executed_at. apply writes_row_only_bind.
    { apply writes_row_only_update_status. intros s now. apply Hcompleted. }
    intros _. apply writes_row_only_keeps_store, keeps_store_reads_only, reads_only_ret.
  - intros e. apply writes_row_only_bind.
    { apply writes_row_only_handle_failure;
        [intros s now; apply Hfailed | intros s now at_; apply Hrearmed]. }
    intros _. apply writes_row_only_keeps_store, keeps_store_reads_only, reads_only_ret.
Qed.

(** What one transition does: the store stays well formed with its keys
    below the next key; a property of the newly created rows that
    cancelling a PENDING row and the writes of a unit keep stays a property
    of every row; and a row that has left PENDING and has no unit waiting
    is kept, with no unit waiting for it afterwards. *)
Lemma interleaved_step_effect (e e' : World * list Schedule.t) :
  interleaved_step e e' →
  store_wf e.1 → ids_below_next e.1 →
  (store_wf e'.1 ∧ ids_below_next e'.1)
  ∧ (∀ P : Schedule.t → Prop,
       (∀ s, newly_created s → P s) →
       (∀ s now, P s → Schedule.status s = PENDING → P (cancelled_row s now)) →
       kept_by_unit P →
       (∀ k s, schedules e.1 !! k = Some s → P s) →
       ∀ k s, schedules e'.1 !! k = Some s → P s)
  ∧ (∀ k s,
       schedules e.1 !! k = Some s →
       Schedule.status s ≠ PENDING →
       k ∉ Schedule.id <$> e.2 →
       schedules e'.1 !! k = Some s ∧ k ∉ Schedule.id <$> e'.2).
Proof.
  assert (∀ (w w' : World) (waiting : list Schedule.t) (row : Schedule.t),
            store_wf w → ids_below_next w →
            newly_created row →
            Schedule.id row = next_schedule_id w →
            schedules w' = <[next_schedule_id w := row]> (schedules w) →
            next_schedule_id w' = next_schedule_id w + 1 →
            (store_wf w' ∧ ids_below_next w')
            ∧ (∀ P : Schedule.t → Prop,
                 (∀ s, newly_created s → P s) →
                 (∀ s now, P s → Schedule.status s = PENDING → P (cancelled_row s now)) →
                 kept_by_unit P →
                 (∀ k s, schedules w !! k = Some s → P s) →
                 ∀ k s, schedules w' !! k = Some s → P s)
            ∧ (∀ k s,
                 schedules w !! k = Some s →
                 Schedule.status s ≠ PENDING →
                 k ∉ Schedule.id <$> waiting →
                 schedules w' !! k = Some s ∧ k ∉ Schedule.id <$> waiting))
    as Hcreated.
  { intros w w' waiting row Hwf Hbelow Hnew Hid Hrows Hnext.
    split; [split |]; [| | split].
    - unfold store_wf. rewrite Hrows. by apply map_Forall_insert_2.
    - intros k s. rewrite Hrows, Hnext.
      destruct (decide (k = next_schedule_id w)) as [->|Hne]; [lia |].
      rewrite lookup_insert_ne by done. intros Hs%Hbelow. lia.
    - intros P HPnew _ _ HP k s. rewrite Hrows.
      destruct (decide (k = next_schedule_id w)) as [->|Hne].
      + rewrite lookup_insert_eq. intros [= <-]. by apply HPnew.
      + rewrite lookup_insert_ne by done. apply HP.
    - intros k s Hs _ Hk. split; [| done]. rewrite Hrows.
      rewrite lookup_insert_ne; [done |]. intros <-. apply Hbelow in Hs. lia. }
  assert (∀ (w : World) (waiting waiting' : list Schedule.t),
            store_wf w → ids_below_next w →
            (∀ k, k ∉ Schedule.id <$> waiting → k ∉ Schedule.id <$> waiting') →
            (store_wf w ∧ ids_below_next w)
            ∧ (∀ P : Schedule.t → Prop,
                 (∀ s, newly_created s → P s) →
                 (∀ s now, P s → Schedule.status s = PENDING → P (cancelled_row s now)) →
                 kept_by_unit P →
                 (∀ k s, schedules w !! k = Some s → P s) →
                 ∀ k s, schedules w !! k = Some s → P s)
            ∧ (∀ k s,
                 schedules w !! k = Some s →
                 Schedule.status s ≠ PENDING →
                 k ∉ Schedule.id <$> waiting →
                 schedules w !! k = Some s ∧ k ∉ Schedule.id <$> waiting'))
    as Hsame.
  { intros w waiting waiting' Hwf Hbelow Hsub. split; [done |]. split; [eauto |].
    intros k s Hs _ Hk. split; [done | by apply Hsub]. }
  assert (∀ (k : Z) (before after : list Schedule.t) (t : Schedule.t),
            k ∉ Schedule.id <$> before ++ t :: after →
            k ≠ Schedule.id t ∧ k ∉ Schedule.id <$> before ++ after) as Hout.
  { intros k before after t.
    rewrite !fmap_app, fmap_cons, !not_elem_of_app, not_elem_of_cons. tauto. }
  intros Hstep.
  destruct Hstep as [request api_key_id email_service w w' o waiting Hvalid Hrun
                    |request api_key_id email_service w w' o waiting Hvalid Hrun
                    |schedule_id api_key_id w w' o waiting Hrun
                    |w w1 response queue waiting Hpending
                    |w w' o before t after Hrun
                    |w before t after]; cbn [fst snd]; intros Hwf Hbelow.
  - destruct (submit_rows _ _ _ _ _ _ Hvalid Hrun)
      as [[-> _] | (row & r & Hnew & Hid & _ & Hrows & Hnext & _)]; eauto.
  - destruct (submit_bulk_rows _ _ _ _ _ _ Hvalid Hrun)
      as [[-> _] | (row & r & Hnew & Hid & _ & Hrows & Hnext & _)]; eauto.
  - destruct (cancel_rows _ _ _ _ _ Hwf Hrun)
      as [-> | (s & Hs & Hst & Hrows & Hnext)]; [eauto |].
    split; [split |]; [| | split].
    + unfold store_wf. rewrite Hrows. apply map_Forall_insert_2; [| done].
      cbn. by apply Hwf.
    + intros k s'. rewrite Hrows, Hnext.
      destruct (decide (k = schedule_id)) as [->|Hne].
      * intros _. by apply (Hbelow _ s).
      * rewrite lookup_insert_ne by done. apply Hbelow.
    + intros P _ HPcancel _ HP k s'. rewrite Hrows.
      destruct (decide (k = schedule_id)) as [->|Hne].
      * rewrite lookup_insert_eq. intros [= <-]. apply HPcancel; [| done].
        by apply (HP schedule_id).
      * rewrite lookup_insert_ne by done. apply HP.
    + intros k s0 Hs0 Hne Hk. split; [| done]. rewrite Hrows.
      rewrite lookup_insert_ne; [done |]. intros <-. congruence.
  - apply execute_pending_facts in Hpending as (-> & Hqueue & _).
    destruct (queue_rows w queue Hwf Hqueue) as [_ Hrows].
    split; [done |]. split; [eauto |].
    intros k s Hs Hst Hk. split; [done |].
    rewrite fmap_app, not_elem_of_app. split; [done |].
    intros (t & -> & Hin)%list_elem_of_fmap.
    destruct (Hrows t Hin) as [Ht Hpending]. cbn in Ht. congruence.
  - pose proof (writes_row_only_execute_single (λ _, True) t) as Hframe.
    destruct (Hframe ltac:(by repeat split) w Hwf) as (Hwf' & Hnext & Hothers & Hrow).
    rewrite Hrun in Hwf', Hnext, Hothers, Hrow. cbn [fst] in *.
    split; [split |]; [done | | split].
    + intros k s'. rewrite Hnext.
      destruct (decide (k = Schedule.id t)) as [->|Hne].
      * intros (s & Hs & _)%Hrow. by apply (Hbelow _ s).
      * rewrite Hothers by done. apply Hbelow.
    + intros P _ _ Hunit HP k s'.
      destruct (writes_row_only_execute_single P t Hunit w Hwf) as (_ & _ & _ & HrowP).
      rewrite Hrun in HrowP. cbn [fst] in HrowP.
      destruct (decide (k = Schedule.id t)) as [->|Hne].
      * intros (s & Hs & HPs)%HrowP. apply HPs. by apply (HP (Schedule.id t)).
      * rewrite Hothers by done. apply HP.
    + intros k s Hs _ Hk. apply Hout in Hk as [Hne Hk].
      split; [| done]. by rewrite Hothers.
  - apply Hsame; [done | done |]. intros k Hk. by apply Hout in Hk as [_ Hk].
Qed.

(** Every state reached from an empty store has a well-formed store with
    its keys below the next key. *)
Lemma interleaved_reachable (w0 : World) (e : World * list Schedule.t) :
  schedules w0 = ∅ → rtc interleaved_step (w0, []) e →
  store_wf e.1 ∧ ids_below_next e.1.
Proof.
  intros Hempty Hsteps. revert e Hsteps.
  apply (rtc_ind_r (λ e, store_wf e.1 ∧ ids_below_next e.1)).
  - cbn. split.
    + unfold store_wf. rewrite Hempty. apply map_Forall_empty.
    + intros k s. by rewrite Hempty, lookup_empty.
  - intros e1 e _ Hstep [Hwf Hbelow].
    by destruct (interleaved_step_effect e1 e Hstep Hwf Hbelow) as (Hinv & _).
Qed.

(** Induction on the rows of the states reached from an empty store. *)
Lemma interleaved_rows_ind (P : Schedule.t → Prop) (w0 : World)
    (e : World * list Schedule.t) :
  (∀ s, newly_created s → P s) →
  (∀ s now, P s → Schedule.status s = PENDING → P (cancelled_row s now)) →
  kept_by_unit P →
  schedules w0 = ∅ → rtc interleaved_step (w0, []) e →
  ∀ k s, schedules e.1 !! k = Some s → P s.
Proof.
  intros Hnew Hcancel Hunit Hempty Hsteps. revert e Hsteps.
  apply (rtc_ind_r (λ e, ∀ k s, schedules e.1 !! k = Some s → P s)).
  - intros k s. cbn. by rewrite Hempty, lookup_empty.
  - intros e1 e Hsteps Hstep IH.
    destruct (interleaved_reachable w0 e1 Hempty Hsteps) as [Hwf Hbelow].
    destruct (interleaved_step_effect e1 e Hstep Hwf Hbelow) as (_ & Hrows & _).
    by apply Hrows.
Qed.

(** The runs that handle one request after the other are among the
    interleaved ones. *)
Lemma skip_waiting (w : World) (waiting : list Schedule.t) :
  rtc interleaved_step (w, waiting) (w, []).
Proof.
  induction waiting as [|t waiting IH]; [done |].
  eapply rtc_l; [apply (interleaved_skip w [] t waiting) | exact IH].
Qed.

Lemma run_background_tasks_interleaved (queue : list Schedule.t) (w w' : World)
    (o : outcome unit) :
  run_background_tasks queue w = (w', o) →
  rtc interleaved_step (w, queue) (w', []).
Proof.
  revert w. induction queue as [|t queue IH]; intros w.
  { intros [= <- <-]. done. }
  cbn [run_background_tasks]. unfold mbind, Exec_bind, bind.
  destruct (execute_single_email_schedule t w) as [w1 o1] eqn:Hrun.
  intros Hrest.
  eapply rtc_l; [apply (interleaved_unit w w1 o1 [] t queue Hrun) |].
  cbn [app]. destruct o1 as [[]|e].
  - by apply IH.
  - injection Hrest as <- <-. apply skip_waiting.
Qed.

Lemma engine_step_interleaved (w w' : World) :
  engine_step w w' → rtc interleaved_step (w, []) (w', []).
Proof.
  intros [request api_key_id email_service w1 w2 o Hvalid Hrun
         |request api_key_id email_service w1 w2 o Hvalid Hrun
         |w1 w2 response queue w3 o Hpending Hrun
         |schedule_id api_key_id w1 w2 o Hrun].
  - apply rtc_once. by eapply interleaved_submit.
  - apply rtc_once. by eapply interleaved_submit_bulk.
  - eapply rtc_l; [apply (interleaved_handler w1 w2 response queue [] Hpending) |].
    cbn [app]. by eapply run_background_tasks_interleaved.
  - apply rtc_once. by eapply interleaved_cancel.
Qed.

(** The unit at position [i] of the waiting ones runs. *)
Lemma interleaved_unit_at (w : World) (waiting : list Schedule.t) (i : nat)
    (t : Schedule.t) :
  waiting !! i = Some t →
  interleaved_step (w, waiting)
    ((execute_single_email_schedule t w).1, delete i waiting).
Proof.
  intros Hi. rewrite <- (take_drop_middle waiting i t Hi) at 1.
  rewrite delete_take_drop.
  apply (interleaved_unit w _ (execute_single_email_schedule t w).2).
  apply surjective_pairing.
Qed.

Lemma serial_run_interleaved (w0 w : World) :
  rtc engine_step w0 w → rtc interleaved_step (w0, []) (w, []).
Proof.
  induction 1 as [|w1 w2 w3 Hstep _ IH]; [done |].
  etrans; [by apply engine_step_interleaved | exact IH].
Qed.

End Interleaved.

(** X18: a schedule that has left PENDING and has no execution unit waiting
    is never written again.  In every run from an empty store, whatever the
    order in which requests are handled and waiting units run, a row that
    is COMPLETED, FAILED, CANCELLED or left in PROCESSING, for which no
    queued unit is waiting, stays as it is through every later submission,
    cancellation, cycle and unit.  A unit that is waiting for the schedule
    does write the row, whatever its status has become
    ([waiting_unit_rewrites_cancelled_row]). *)
Theorem settled_rows_without_unit_are_final `{!Collaborators}
    (w0 w w' : World) (waiting waiting' : list Schedule.t)
    (k : Z) (s : Schedule.t) :
  schedules w0 = ∅ →
  rtc interleaved_step (w0, []) (w, waiting) →
  rtc interleaved_step (w, waiting) (w', waiting') →
  schedules w !! k = Some s →
  Schedule.status s ≠ PENDING →
  k ∉ Schedule.id <$> waiting →
  schedules w' !! k = Some s.
Proof.
  intros Hempty Hreach Hsteps Hs Hst Hk.
  enough (schedules (w', waiting').1 !! k = Some s
          ∧ k ∉ Schedule.id <$> (w', waiting').2) as [Hrow _] by exact Hrow.
  revert Hsteps. generalize (w', waiting'). intros e' Hsteps. revert e' Hsteps.
  apply (rtc_ind_r (λ e', schedules e'.1 !! k = Some s ∧ k ∉ Schedule.id <$> e'.2));
    [done |].
  intros e1 e2 Hsteps Hstep [Hrow Hout].
  destruct (interleaved_reachable w0 e1 Hempty) as [Hwf Hbelow]; [by etrans |].
  destruct (interleaved_step_effect e1 e2 Hstep Hwf Hbelow) as (_ & _ & Hkeep).
  by apply Hkeep.
Qed.

(** After the sample run the schedule is FAILED and no unit is waiting: a
    cancellation by its owner leaves the row as it is. *)
Lemma settled_rows_without_unit_are_final_witness :
  ∃ s,
    schedules Samples.after_cycle !! 100 = Some s
    ∧ Schedule.status s = FAILED
    ∧ schedules (@email_router.cancel_email_schedule Samples.failing 100 1
                   Samples.after_cycle).1 !! 100
      = Some s.
Proof.
  destruct (schedules Samples.after_cycle !! 100) as [s|] eqn:Hs;
    [| vm_compute in Hs; discriminate Hs].
  exists s.
  assert (Schedule.status s = FAILED) as Hst
    by (vm_compute in Hs; by injection Hs as <-).
  split; [done |]. split; [done |].
  apply (@settled_rows_without_unit_are_final Samples.failing (Samples.world [])
           Samples.after_cycle _ [] [] 100 s eq_refl
           (serial_run_interleaved _ _ sample_run)).
  - apply rtc_once. eapply (@interleaved_cancel Samples.failing 100 1).
    apply surjective_pairing.
  - exact Hs.
  - rewrite Hst. discriminate.
  - apply not_elem_of_nil.
Defined.

(** A cancellation handled between the handler of a cycle and the unit it
    queued: the unit takes the CANCELLED row in hand all the same and, with
    a provider that times out and one attempt allowed, leaves it FAILED. *)
Example waiting_unit_rewrites_cancelled_row :
  match @email_router.execute_pending_email_schedules Samples.failing
          Samples.after_submit with
  | (w1, Returned (_, [schedule])) =>
      let w2 := (@email_router.cancel_email_schedule Samples.failing 100 1 w1).1 in
      let w3 := (@email_router.execute_single_email_schedule Samples.failing
                   schedule w2).1 in
      Schedule.status <$> schedules w1 !! 100 = Some PENDING
      ∧ Schedule.status <$> schedules w2 !! 100 = Some CANCELLED
      ∧ Schedule.status <$> schedules w3 !! 100 = Some FAILED
  | _ => False
  end.
Proof. vm_compute. done. Qed.

(** X19: a submission stores its schedule under an id that was not in use
    and replaces no other row: in a run of the engine from an empty store,
    the id in the response of [create_email_schedule] is new, every earlier
    row is kept, and [get_by_id] of the new id yields the new row, which
    belongs to the calling key and is PENDING with no attempt made. *)
Theorem submission_gets_fresh_id `{!Collaborators} (w0 w w' : World)
    (request : EmailScheduleRequest.t) (api_key_id : Z)
    (email_service : EmailService.t) (response : EmailScheduleResponse.t) :
  schedules w0 = ∅ →
  rtc engine_step w0 w →
  BaseRetrySettings_valid (EmailScheduleRequest.max_retry request)
                          (EmailScheduleRequest.retry_interval request) = true →
  email_router.create_email_schedule request api_key_id email_service w
  = (w', Returned response) →
  schedules w !! EmailScheduleResponse.schedule_id response = None
  ∧ (∀ k s, schedules w !! k = Some s → schedules w' !! k = Some s)
  ∧ ∃ row,
      ScheduleRepository.get_by_id (EmailScheduleResponse.schedule_id response) w'
      = (w', Returned (Some row))
      ∧ Schedule.id row = EmailScheduleResponse.schedule_id response
      ∧ Schedule.api_key_id row = api_key_id
      ∧ newly_created row.
Proof.
  intros Hempty Hreach Hvalid Hrun.
  destruct (reachable_ids_below_next w0 w Hempty Hreach) as [_ Hbelow].
  destruct (submit_rows _ _ _ _ _ _ Hvalid Hrun)
    as [[_ [e [=]]] | (row & r & Hnew & Hid & Hown & Hrows & _ & [= <-] & Hr)].
  rewrite Hr.
  assert (schedules w !! next_schedule_id w = None) as Hfresh.
  { destruct (schedules w !! next_schedule_id w) as [s|] eqn:Hs; [| done].
    apply Hbelow in Hs. lia. }
  split; [done |]. split.
  - intros k s Hs. rewrite Hrows, lookup_insert_ne; [done |]. intros <-. congruence.
  - exists row. unfold ScheduleRepository.get_by_id, ScheduleRepository.query_first.
    rewrite Hrows, lookup_insert_eq. done.
Qed.

Lemma submission_gets_fresh_id_witness :
  ∃ w' response,
    @email_router.create_email_schedule Samples.failing Samples.submission 2
      (EmailService.mk true) Samples.after_cycle
    = (w', Returned response)
    ∧ schedules Samples.after_cycle !! EmailScheduleResponse.schedule_id response = None
    ∧ (∀ k s, schedules Samples.after_cycle !! k = Some s → schedules w' !! k = Some s)
    ∧ ∃ row,
        ScheduleRepository.get_by_id (EmailScheduleResponse.schedule_id response) w'
        = (w', Returned (Some row))
        ∧ Schedule.id row = EmailScheduleResponse.schedule_id response
        ∧ Schedule.api_key_id row = 2
        ∧ newly_created row.
Proof.
  eexists _, _.
  assert (@email_router.create_email_schedule Samples.failing Samples.submission 2
            (EmailService.mk true) Samples.after_cycle
          = ((@email_router.create_email_schedule Samples.failing Samples.submission 2
                (EmailService.mk true) Samples.after_cycle).1,
             Returned (EmailScheduleResponse.mk true
                         "이메일 스케줄이 성공적으로 생성되었습니다" 101 "welcome mail"
                         Samples.noon "pending" (Samples.noon + Samples.seconds 45))))
    as Hrun by (apply pair_eta_snd; vm_compute; reflexivity).
  split; [exact Hrun |].
  apply (@submission_gets_fresh_id Samples.failing (Samples.world [])
           Samples.after_cycle _ Samples.submission 2 (EmailService.mk true) _
           eq_refl sample_run eq_refl Hrun).
Defined.

(** X20: a FAILED schedule has used up its retries: in a run of the engine
    from an empty store, every FAILED row has made at least one attempt,
    has a retry count of at least [max_retry], and carries the message of
    its last failure. *)
Theorem failed_rows_exhausted_retries `{!Collaborators} (w0 w : World)
    (k : Z) (s : Schedule.t) :
  schedules w0 = ∅ →
  rtc engine_step w0 w →
  schedules w !! k = Some s →
  Schedule.status s = FAILED →
  1 ≤ Schedule.retry_count s
  ∧ Schedule.max_retry s ≤ Schedule.retry_count s
  ∧ ∃ msg, Schedule.error_message s = Some msg.
Proof.
  intros Hempty Hreach. revert k s.
  apply (reachable_rows_ind
           (λ s, Schedule.status s = FAILED →
                 1 ≤ Schedule.retry_count s
                 ∧ Schedule.max_retry s ≤ Schedule.retry_count s
                 ∧ ∃ msg, Schedule.error_message s = Some msg) w0 w);
    [| | | done | done].
  - intros s (_ & Hst & _) Hfailed. congruence.
  - intros s now _ _ _ Hfailed. discriminate Hfailed.
  - intros n t s' o _ (_ & _ & Hcount & _) Hst Hres Hfailed.
    destruct Hres as [result | msg Hex | msg Hre | e Hre].
    + exfalso. unfold completed_row in Hfailed.
      destruct (truthy _); discriminate Hfailed.
    + cbn. split; [lia |]. split; [lia |]. eauto.
    + discriminate Hfailed.
    + discriminate Hfailed.
Qed.

Lemma failed_rows_exhausted_retries_witness :
  ∃ s,
    schedules Samples.after_cycle !! 100 = Some s
    ∧ 1 ≤ Schedule.retry_count s
    ∧ Schedule.max_retry s ≤ Schedule.retry_count s
    ∧ ∃ msg, Schedule.error_message s = Some msg.
Proof.
  destruct (schedules Samples.after_cycle !! 100) as [s|] eqn:Hs;
    [| vm_compute in Hs; discriminate Hs].
  exists s. split; [done |].
  apply (@failed_rows_exhausted_retries Samples.failing (Samples.world [])
           Samples.after_cycle 100 s eq_refl sample_run Hs).
  vm_compute in Hs. by injection Hs as <-.
Defined.

(** X21: the error message tells whether an attempt has failed: in a run
    of the engine from an empty store, a row has no [error_message] exactly
    when its [retry_count] is 0. *)
Theorem error_message_iff_retried `{!Collaborators} (w0 w : World)
    (k : Z) (s : Schedule.t) :
  schedules w0 = ∅ →
  rtc engine_step w0 w →
  schedules w !! k = Some s →
  (Schedule.retry_count s = 0 ↔ Schedule.error_message s = None).
Proof.
  intros Hempty Hreach. revert k s.
  apply (reachable_rows_ind
           (λ s, Schedule.retry_count s = 0 ↔ Schedule.error_message s = None) w0 w);
    [| | | done | done].
  - intros s (_ & _ & Hcount & _ & _ & Hmsg & _). by rewrite Hcount, Hmsg.
  - intros s now Hs _ _. exact Hs.
  - intros n t s' o Ht (_ & _ & Hcount & _) Hst Hres.
    destruct Hres as [result | msg Hex | msg Hre | e Hre].
    + unfold completed_row. by destruct (truthy (Some result)).
    + cbn. split; [lia | done].
    + cbn. split; [lia | done].
    + exact Ht.
Qed.

Lemma error_message_iff_retried_witness :
  ∃ s,
    schedules Samples.after_cycle !! 100 = Some s
    ∧ (Schedule.retry_count s = 0 ↔ Schedule.error_message s = None).
Proof.
  destruct (schedules Samples.after_cycle !! 100) as [s|] eqn:Hs;
    [| vm_compute in Hs; discriminate Hs].
  exists s. split; [done |].
  apply (@error_message_iff_retried Samples.failing (Samples.world [])
           Samples.after_cycle 100 s eq_refl sample_run Hs).
Defined.

(** When no other request is handled between the handler of a cycle and
    the last of its units ([engine_step]), [executed_at] and [result] belong
    to the completed schedules: a row has an [executed_at] exactly when it
    is COMPLETED, and a row that is not COMPLETED has no [result].  A unit
    that runs for a schedule a second time breaks this
    ([second_unit_keeps_executed_at]). *)
Lemma executed_at_iff_completed_serial `{!Collaborators} (w0 w : World)
    (k : Z) (s : Schedule.t) :
  schedules w0 = ∅ →
  rtc engine_step w0 w →
  schedules w !! k = Some s →
  (Schedule.status s = COMPLETED ↔ is_Some (Schedule.executed_at s))
  ∧ (Schedule.status s ≠ COMPLETED → Schedule.result s = None).
Proof.
  intros Hempty Hreach. revert k s.
  assert (∀ t, Schedule.status t = PENDING →
               (Schedule.status t = COMPLETED ↔ is_Some (Schedule.executed_at t))
               ∧ (Schedule.status t ≠ COMPLETED → Schedule.result t = None) →
               Schedule.executed_at t = None ∧ Schedule.result t = None) as Hpending.
  { intros t Hst [Hat Hresult]. split; [| apply Hresult; congruence].
    destruct (Schedule.executed_at t) as [at_|] eqn:Heq; [| done].
    assert (Schedule.status t = COMPLETED) by (apply Hat; eauto). congruence. }
  apply (reachable_rows_ind
           (λ s, (Schedule.status s = COMPLETED ↔ is_Some (Schedule.executed_at s))
                 ∧ (Schedule.status s ≠ COMPLETED → Schedule.result s = None)) w0 w);
    [| | | done | done].
  - intros s (_ & Hst & _ & Hat & Hresult & _). rewrite Hst, Hat.
    split; [| done]. split; [discriminate | by intros [? [=]]].
  - intros s now Hs _ Hst. destruct (Hpending s Hst Hs) as [Hat Hresult]. cbn.
    rewrite Hat. split; [| done]. split; [discriminate | by intros [? [=]]].
  - intros n t s' o Ht _ Hst Hres.
    destruct (Hpending t Hst Ht) as [Hat Hresult].
    destruct Hres as [result | msg Hex | msg Hre | e Hre].
    + unfold completed_row. destruct (truthy (Some result)); cbn;
        (split; [split; eauto | done]).
    + cbn. rewrite Hat. split; [| done]. split; [discriminate | by intros [? [=]]].
    + cbn. rewrite Hat. split; [| done]. split; [discriminate | by intros [? [=]]].
    + cbn. rewrite Hat. split; [| done]. split; [discriminate | by intros [? [=]]].
Qed.

(** X22: [executed_at] and [result] are written by the completion of a
    schedule and never taken back.  In every run from an empty store,
    whatever the order in which requests are handled and waiting units run,
    a COMPLETED row has an [executed_at]; a row with a [result] has an
    [executed_at]; and, [json.dumps] never yielding the empty text, a
    COMPLETED row has a [result].  The converse holds only when no unit runs
    for a schedule that was completed before: a second unit that fails
    leaves a FAILED row with both columns set
    ([second_unit_keeps_executed_at]). *)
Theorem completed_rows_have_executed_at `{!Collaborators} (w0 w : World)
    (waiting : list Schedule.t) (k : Z) (s : Schedule.t) :
  schedules w0 = ∅ →
  rtc interleaved_step (w0, []) (w, waiting) →
  schedules w !! k = Some s →
  (Schedule.status s = COMPLETED → is_Some (Schedule.executed_at s))
  ∧ (is_Some (Schedule.result s) → is_Some (Schedule.executed_at s))
  ∧ ((∀ result, json_dumps_result result ≠ "") →
     Schedule.status s = COMPLETED → is_Some (Schedule.result s)).
Proof.
  intros Hempty Hreach Hs. split; [| split].
  - revert k s Hs.
    apply (interleaved_rows_ind
             (λ s, Schedule.status s = COMPLETED → is_Some (Schedule.executed_at s))
             w0 (w, waiting)); [| | | done | done].
    + intros s (_ & Hst & _). rewrite Hst. discriminate.
    + intros s now _ _. cbn. discriminate.
    + split; [| split; [| split]].
      * intros s now _. cbn. discriminate.
      * intros s executed_at result now _ _. unfold completed_row.
        destruct (truthy _); cbn; eauto.
      * intros s msg now _. cbn. discriminate.
      * intros s msg now at_ _. cbn. discriminate.
  - revert k s Hs.
    apply (interleaved_rows_ind
             (λ s, is_Some (Schedule.result s) → is_Some (Schedule.executed_at s))
             w0 (w, waiting)); [| | | done | done].
    + intros s (_ & _ & _ & _ & Hresult & _). rewrite Hresult. by intros [? [=]].
    + intros s now HP _. exact HP.
    + split; [| split; [| split]].
      * intros s now HP. exact HP.
      * intros s executed_at result now _ _. unfold completed_row.
        destruct (truthy _); cbn; eauto.
      * intros s msg now HP. exact HP.
      * intros s msg now at_ HP. exact HP.
  - intros Hjson. revert k s Hs.
    apply (interleaved_rows_ind
             (λ s, Schedule.status s = COMPLETED → is_Some (Schedule.result s))
             w0 (w, waiting)); [| | | done | done].
    + intros s (_ & Hst & _). rewrite Hst. discriminate.
    + intros s now _ _. cbn. discriminate.
    + split; [| split; [| split]].
      * intros s now _. cbn. discriminate.
      * intros s executed_at result now _ _. unfold completed_row, truthy.
        destruct (decide (json_dumps_result result = "")) as [Heq|_];
          [by apply Hjson in Heq |].
        cbn. eauto.
      * intros s msg now _. cbn. discriminate.
      * intros s msg now at_ _. cbn. discriminate.
Qed.

(** A submission, then two cycles handled before the unit of the first has
    run, with a provider that accepts the first message only: after the
    first unit the schedule is COMPLETED with [executed_at] and [result],
    as the theorem says. *)
Lemma completed_rows_have_executed_at_witness :
  ∃ w waiting,
    rtc (@interleaved_step (Samples.flaky (Samples.noon + Samples.seconds 45)))
        (Samples.world [], []) (w, waiting)
    ∧ length waiting = 1%nat
    ∧ Schedule.status <$> schedules w !! 100 = Some COMPLETED
    ∧ (∃ s, schedules w !! 100 = Some s
            ∧ is_Some (Schedule.executed_at s)
            ∧ is_Some (Schedule.result s)).
Proof.
  set (C := Samples.flaky (Samples.noon + Samples.seconds 45)).
  set (row := Schedule.mk 100 1 "welcome mail" EMAIL Samples.noon "UTC" "{...}"
                PENDING None 1 0 60 None None
                (Samples.noon + Samples.seconds 45)
                (Samples.noon + Samples.seconds 45)).
  set (done_row := Schedule.mk 100 1 "welcome mail" EMAIL Samples.noon "UTC" "{...}"
                     COMPLETED (Some (Samples.noon + Samples.seconds 45)) 1 0 60
                     (Some "{...}") None
                     (Samples.noon + Samples.seconds 45)
                     (Samples.noon + Samples.seconds 45)).
  eexists _, _.
  assert (∀ (w : World) (waiting : list Schedule.t),
            rtc (@interleaved_step C) (Samples.world [], []) (w, waiting) →
            schedules w !! 100 = Some done_row →
            ∃ s, schedules w !! 100 = Some s
                 ∧ is_Some (Schedule.executed_at s)
                 ∧ is_Some (Schedule.result s)) as Hcolumns.
  { intros w waiting Hrun Hrow. exists done_row. split; [exact Hrow |].
    destruct (@completed_rows_have_executed_at C (Samples.world []) w waiting 100
                done_row eq_refl Hrun Hrow) as (Hat & Hboth & Hresult).
    split; [by apply Hat |]. apply Hresult; [intros result; discriminate | reflexivity]. }
  split; [| split; [| split]].
  - eapply rtc_l;
      [eapply (@interleaved_submit C Samples.submission 1 (EmailService.mk true));
       [vm_compute; reflexivity | apply surjective_pairing] |].
    eapply rtc_l; [eapply (@interleaved_handler C); apply (@execute_pending_run C) |].
    eapply rtc_l; [eapply (@interleaved_handler C); apply (@execute_pending_run C) |].
    apply rtc_once. apply (@interleaved_unit_at C _ _ 0%nat row).
    vm_compute. reflexivity.
  - vm_compute. reflexivity.
  - vm_compute. reflexivity.
  - eapply Hcolumns; [| vm_compute; reflexivity].
    eapply rtc_l;
      [eapply (@interleaved_submit C Samples.submission 1 (EmailService.mk true));
       [vm_compute; reflexivity | apply surjective_pairing] |].
    eapply rtc_l; [eapply (@interleaved_handler C); apply (@execute_pending_run C) |].
    eapply rtc_l; [eapply (@interleaved_handler C); apply (@execute_pending_run C) |].
    apply rtc_once. apply (@interleaved_unit_at C _ _ 0%nat row).
    vm_compute. reflexivity.
Defined.

(** Two cycles handled before the unit of the first has run, with a provider
    that accepts the first message only: the first unit completes the
    schedule, the second takes it in hand again and fails, and the FAILED
    row keeps the [executed_at] and the [result] of the completion. *)
Example second_unit_keeps_executed_at :
  let C := Samples.flaky (Samples.noon + Samples.seconds 45) in
  let columns s := (Schedule.status s, Schedule.retry_count s,
                    Schedule.executed_at s, Schedule.result s) in
  let w0 := (@email_router.create_email_schedule C Samples.submission 1
               (EmailService.mk true) (Samples.world [])).1 in
  match @email_router.execute_pending_email_schedules C w0 with
  | (w1, Returned (_, [first])) =>
      match @email_router.execute_pending_email_schedules C w1 with
      | (w2, Returned (_, [second])) =>
          let w3 := (@email_router.execute_single_email_schedule C first w2).1 in
          let w4 := (@email_router.execute_single_email_schedule C second w3).1 in
          columns <$> schedules w3 !! 100
          = Some (COMPLETED, 0, Some (Samples.noon + Samples.seconds 45), Some "{...}")
          ∧ columns <$> schedules w4 !! 100
            = Some (FAILED, 1, Some (Samples.noon + Samples.seconds 45), Some "{...}")
      | _ => False
      end
  | _ => False
  end.
Proof. vm_compute. done. Qed.

(** X23: in a run of the engine from an empty store the schedules
    [get_retry_pending_schedules] returns are exactly the due PENDING
    schedules that have failed before: the upper bound of the query on the
    retry count excludes none of them. *)
Theorem retry_pending_are_the_retried `{!Collaborators} (w0 w : World)
    (current_time : datetime) :
  schedules w0 = ∅ →
  rtc engine_step w0 w →
  ∃ rows,
    ScheduleRepositoryQueries.get_retry_pending_schedules current_time w
    = (w, Returned rows)
    ∧ ∀ s, s ∈ rows
           ↔ (∃ k, schedules w !! k = Some s)
             ∧ Schedule.status s = PENDING
             ∧ Schedule.scheduled_at s ≤ current_time
             ∧ 0 < Schedule.retry_count s.
Proof.
  intros Hempty Hreach. eexists. split; [reflexivity |].
  destruct (reachable_retry_bounded w0 w Hempty Hreach) as [_ Hb].
  intros s. rewrite list_elem_of_filter, list_elem_of_fmap. split.
  - intros ((Hat & Hst & Hcount & _) & [k s'] & -> & Hk%elem_of_map_to_list).
    split; [by exists k |]. split; [done |]. split; [done | lia].
  - intros ((k & Hk) & Hst & Hat & Hcount).
    destruct (Hb k s Hk) as (_ & _ & _ & Hleft). specialize (Hleft Hst).
    split; [repeat split; try done; lia |].
    exists (k, s). split; [done |]. by apply elem_of_map_to_list.
Qed.

Lemma retry_pending_are_the_retried_witness :
  ∃ rows,
    ScheduleRepositoryQueries.get_retry_pending_schedules Samples.noon Samples.after_cycle
    = (Samples.after_cycle, Returned rows)
    ∧ ∀ s, s ∈ rows
           ↔ (∃ k, schedules Samples.after_cycle !! k = Some s)
             ∧ Schedule.status s = PENDING
             ∧ Schedule.scheduled_at s ≤ Samples.noon
             ∧ 0 < Schedule.retry_count s.
Proof.
  apply (@retry_pending_are_the_retried Samples.failing (Samples.world [])
           Samples.after_cycle Samples.noon eq_refl sample_run).
Defined.

(** ** Execution units under a clock within the datetimes *)

Section InRange.
Context `{!Collaborators}.
Import ScheduleRepository email_router.

Lemma clock_in_range_representable (n : nat) (interval : Z) :
  clock_in_range → 0 ≤ interval ≤ 3600 →
  representable (clock n) = true
  ∧ representable (replace_second_microsecond (clock n) 0 0 + interval * us_per_second)
    = true.
Proof.
  intros Hclock Hint. specialize (Hclock n).
  pose proof (replace_second_microsecond_bounds (clock n)) as Hfloor.
  pose proof (replace_second_microsecond_floor (clock n)) as Heq.
  pose proof (Z.mod_pos_bound (clock n) us_per_minute
                ltac:(unfold us_per_minute, us_per_second; lia)) as Hmod.
  pose proof (Z.mod_le (clock n) us_per_minute (proj1 Hclock)
                ltac:(unfold us_per_minute, us_per_second; lia)) as Hle.
  rewrite !representable_spec.
  unfold datetime_max, MAXORDINAL, us_per_day, us_per_minute, us_per_second in *.
  lia.
Qed.

(** With such a clock and a retry interval of at most an hour the unit
    runs to its end. *)
Lemma execute_single_in_range (w : World) (t : Schedule.t) :
  clock_in_range →
  schedules w !! Schedule.id t = Some t →
  0 ≤ Schedule.retry_interval t ≤ 3600 →
  ∃ s' w',
    execute_single_email_schedule t w = (w', Returned tt)
    ∧ schedules w' = <[Schedule.id t := s']> (schedules w)
    ∧ unit_result (ticks w) t s' (Returned tt).
Proof.
  intros Hclock Ht Hint. destruct (execute_single_run w t Ht) as [Hsch ->].
  cbv zeta in *.
  set (p := processing_row t (clock (ticks w))) in *.
  set (w1 := with_schedules (<[Schedule.id t := p]> (schedules w))
                            (with_ticks (S (ticks w)) w)) in *.
  set (w2 := (send_scheduled_email t w1).1) in *.
  assert (schedules w2 !! Schedule.id t = Some p) as Hp
    by (rewrite Hsch; apply lookup_insert_eq).
  destruct (send_scheduled_email t w1).2 as [result|e].
  { eexists _, _. split; [reflexivity |]. split; [done | constructor]. }
  destruct (decide (Schedule.max_retry t ≤ Schedule.retry_count t + 1)) as [Hex|Hre].
  - rewrite (handle_failure_exhausted w2 _ p (str_exn e) Hp) by (cbn; lia).
    eexists _, _. split; [reflexivity |]. cbn.
    rewrite Hsch, insert_insert_eq. split; [done | by constructor].
  - destruct (clock_in_range_representable (S (ticks w2)) (Schedule.retry_interval t)
                Hclock Hint) as [Hnow Hat].
    rewrite (handle_failure_rearmed w2 _ p (str_exn e) Hp); [| cbn; lia | done | done].
    eexists _, _. split; [reflexivity |]. cbn.
    rewrite Hsch, insert_insert_eq. split; [done |]. apply unit_rearmed. lia.
Qed.

Lemma run_background_tasks_in_range (queue : list Schedule.t) (w : World) :
  clock_in_range →
  NoDup (Schedule.id <$> queue) →
  (∀ t, t ∈ queue →
        schedules w !! Schedule.id t = Some t
        ∧ 0 ≤ Schedule.retry_interval t ≤ 3600) →
  (run_background_tasks queue w).2 = Returned tt.
Proof.
  intros Hclock. revert w. induction queue as [|t queue IH]; intros w Hnodup Hrows;
    [done |].
  rewrite fmap_cons in Hnodup. apply NoDup_cons in Hnodup as [Hfresh Hnodup].
  destruct (Hrows t) as [Ht Hint]; [left |].
  destruct (execute_single_in_range w t Hclock Ht Hint) as (s1 & w1 & Hrun & Hsch & _).
  cbn [run_background_tasks]. unfold mbind, Exec_bind, bind. rewrite Hrun.
  apply IH; [done |]. intros t' Hin.
  destruct (Hrows t') as [Ht' Hint']; [by right |]. split; [| done].
  rewrite Hsch, lookup_insert_ne; [done |].
  intros Heq. apply Hfresh. rewrite Heq. apply list_elem_of_fmap. eauto.
Qed.

(** With such a clock every unit of a cycle runs to its end: a row after
    the cycle is a row of before or what a finished unit left. *)
Lemma cycle_rows_in_range (w w1 w2 : World) (response : EmailScheduleExecuteResponse.t)
    (queue : list Schedule.t) (o : outcome unit) :
  clock_in_range →
  store_retry_bounded w →
  execute_pending_email_schedules w = (w1, Returned (response, queue)) →
  run_background_tasks queue w1 = (w2, o) →
  o = Returned tt
  ∧ ∀ k s', schedules w2 !! k = Some s' →
      schedules w !! k = Some s'
      ∨ ∃ t n, schedules w !! k = Some t ∧ Schedule.status t = PENDING
               ∧ unit_result n t s' (Returned tt).
Proof.
  intros Hclock [Hwf Hb] Hpending Hrun.
  apply execute_pending_facts in Hpending as (-> & Hqueue & _).
  destruct (queue_rows w queue Hwf Hqueue) as [Hnodup Hrows].
  assert (o = Returned tt) as ->.
  { pose proof (run_background_tasks_in_range queue (with_ticks (S (ticks w)) w)
                  Hclock Hnodup) as Hend.
    rewrite Hrun in Hend. apply Hend. intros t Hin.
    destruct (Hrows t Hin) as [Ht _]. split; [done |].
    destruct (Hb _ _ Ht) as (_ & Hint & _). lia. }
  split; [done |]. intros k s' Hk.
  destruct (run_background_tasks_effect queue (with_ticks (S (ticks w)) w) Hnodup)
    as (w' & o' & Hrun' & Hframe & _ & Hall).
  { intros t Hin. by apply Hrows. }
  rewrite Hrun in Hrun'. injection Hrun' as <- <-.
  destruct (decide (k ∈ Schedule.id <$> queue)) as [Hin|Hout].
  - apply list_elem_of_fmap in Hin as (t & -> & Hin).
    destruct (Hrows t Hin) as [Ht Hst]. cbn in Ht.
    destruct (Hall eq_refl t Hin) as (s'' & n & Hs'' & Hres).
    assert (s'' = s') as -> by congruence.
    right. by exists t, n.
  - left. rewrite (Hframe k Hout) in Hk. exact Hk.
Qed.

End InRange.

Lemma sample_clock_in_range (now : datetime) (delivers queue_full : bool) :
  0 ≤ now ≤ datetime_max - 3660 * us_per_second →
  @clock_in_range (Samples.collaborators now delivers queue_full).
Proof. intros Hnow n. exact Hnow. Qed.

(** X24: with a clock whose readings lie at least 3660 seconds before
    [datetime.max], an execution unit started for a stored schedule with a
    retry interval the schema admits never raises, and it leaves the
    schedule COMPLETED, FAILED or PENDING again, not PROCESSING. *)
Theorem execution_unit_settles `{!Collaborators} (w : World) (t : Schedule.t) :
  clock_in_range →
  schedules w !! Schedule.id t = Some t →
  60 ≤ Schedule.retry_interval t ≤ 3600 →
  ∃ w' s',
    email_router.execute_single_email_schedule t w = (w', Returned tt)
    ∧ schedules w' !! Schedule.id t = Some s'
    ∧ (Schedule.status s' = COMPLETED
       ∨ Schedule.status s' = FAILED
       ∨ Schedule.status s' = PENDING).
Proof.
  intros Hclock Ht Hint.
  destruct (execute_single_in_range w t Hclock Ht) as (s' & w' & Hrun & Hsch & Hres);
    [lia |].
  exists w', s'. split; [exact Hrun |]. split; [rewrite Hsch; apply lookup_insert_eq |].
  inversion Hres; subst.
  - left. unfold completed_row.
    match goal with |- context [truthy ?x] => by destruct (truthy x) end.
  - right. by left.
  - right. by right.
Qed.

Lemma execution_unit_settles_witness :
  ∃ w' s',
    @email_router.execute_single_email_schedule
      (Samples.collaborators Samples.noon false false)
      (Samples.schedule 7 Samples.noon PENDING 3 0 300)
      (Samples.world [Samples.schedule 7 Samples.noon PENDING 3 0 300])
    = (w', Returned tt)
    ∧ schedules w' !! Schedule.id (Samples.schedule 7 Samples.noon PENDING 3 0 300)
      = Some s'
    ∧ (Schedule.status s' = COMPLETED
       ∨ Schedule.status s' = FAILED
       ∨ Schedule.status s' = PENDING).
Proof.
  apply (@execution_unit_settles (Samples.collaborators Samples.noon false false)
           (Samples.world [Samples.schedule 7 Samples.noon PENDING 3 0 300])
           (Samples.schedule 7 Samples.noon PENDING 3 0 300)).
  - apply sample_clock_in_range. vm_compute. split; discriminate.
  - vm_compute. reflexivity.
  - cbn. lia.
Defined.

(** X25: with such a clock no schedule is left in PROCESSING: in a run of
    the engine from an empty store, every row is PENDING, COMPLETED, FAILED
    or CANCELLED after each submission, cycle and cancellation. *)
Theorem no_schedule_left_processing `{!Collaborators} (w0 w : World)
    (k : Z) (s : Schedule.t) :
  clock_in_range →
  schedules w0 = ∅ →
  rtc engine_step w0 w →
  schedules w !! k = Some s →
  Schedule.status s ≠ PROCESSING.
Proof.
  intros Hclock Hempty Hreach. revert k s. revert w Hreach.
  apply (rtc_ind_r (λ w, ∀ k s, schedules w !! k = Some s →
                                Schedule.status s ≠ PROCESSING)).
  { intros k s. by rewrite Hempty, lookup_empty. }
  intros w1 w Hsteps Hstep IH k s' Hs'.
  pose proof (reachable_retry_bounded w0 w1 Hempty Hsteps) as Hinv.
  pose proof Hinv as [Hwf _].
  assert (∀ row, newly_created row →
                 schedules w = <[next_schedule_id w1 := row]> (schedules w1) →
                 Schedule.status s' ≠ PROCESSING) as Hcreated.
  { intros row (_ & Hst & _) Hrows. rewrite Hrows in Hs'.
    destruct (decide (k = next_schedule_id w1)) as [->|Hne].
    - rewrite lookup_insert_eq in Hs'. injection Hs' as <-. by rewrite Hst.
    - rewrite lookup_insert_ne in Hs' by done. by apply (IH k). }
  revert Hcreated.
  destruct Hstep as [request api_key_id email_service w1 w o Hvalid Hrun
                    |request api_key_id email_service w1 w o Hvalid Hrun
                    |w1 w' response queue w o Hpending Hrun
                    |schedule_id api_key_id w1 w o Hrun]; intros Hcreated.
  - destruct (submit_rows _ _ _ _ _ _ Hvalid Hrun)
      as [[-> _] | (row & r & Hnew & _ & _ & Hrows & _)]; [by apply (IH k) | eauto].
  - destruct (submit_bulk_rows _ _ _ _ _ _ Hvalid Hrun)
      as [[-> _] | (row & r & Hnew & _ & _ & Hrows & _)]; [by apply (IH k) | eauto].
  - destruct (cycle_rows_in_range w1 w' w response queue o Hclock Hinv Hpending Hrun)
      as [_ Hrows].
    destruct (Hrows k s' Hs') as [Hold | (t & n & Ht & Hst & Hres)];
      [by apply (IH k) |].
    inversion Hres; subst; try discriminate.
    unfold completed_row.
    match goal with |- context [truthy ?x] => by destruct (truthy x) end.
  - destruct (cancel_rows _ _ _ _ _ Hwf Hrun)
      as [-> | (s & Hs & Hst & Hrows & _)]; [by apply (IH k) |].
    rewrite Hrows in Hs'.
    destruct (decide (k = schedule_id)) as [->|Hne].
    + rewrite lookup_insert_eq in Hs'. by injection Hs' as <-.
    + rewrite lookup_insert_ne in Hs' by done. by apply (IH k).
Qed.

Lemma no_schedule_left_processing_witness :
  ∃ s,
    schedules Samples.after_cycle !! 100 = Some s
    ∧ Schedule.status s ≠ PROCESSING.
Proof.
  destruct (schedules Samples.after_cycle !! 100) as [s|] eqn:Hs;
    [| vm_compute in Hs; discriminate Hs].
  exists s. split; [done |].
  apply (@no_schedule_left_processing Samples.failing (Samples.world [])
           Samples.after_cycle 100 s).
  - apply sample_clock_in_range. vm_compute. split; discriminate.
  - reflexivity.
  - exact sample_run.
  - exact Hs.
Defined.

(** ** What an execution unit records *)

(** X26: when sending succeeds, the execution unit returns and leaves the
    schedule COMPLETED with the clock reading that follows the sending as
    [executed_at] and the serialised send result as [result]; the retry
    count, the error message of an earlier failed attempt and the scheduled
    time stay, and no other row of the schedules is touched. *)
Theorem execution_unit_success `{!Collaborators} (w w1 : World) (t : Schedule.t)
    (result : SendResult.t) :
  schedules w !! Schedule.id t = Some t →
  email_router.send_scheduled_email t
    (with_schedules (<[Schedule.id t := processing_row t (clock (ticks w))]> (schedules w))
                    (with_ticks (S (ticks w)) w))
  = (w1, Returned result) →
  ∃ w' s',
    email_router.execute_single_email_schedule t w = (w', Returned tt)
    ∧ schedules w' !! Schedule.id t = Some s'
    ∧ Schedule.status s' = COMPLETED
    ∧ Schedule.executed_at s' = Some (clock (ticks w1))
    ∧ (json_dumps_result result ≠ "" →
       Schedule.result s' = Some (json_dumps_result result))
    ∧ Schedule.retry_count s' = Schedule.retry_count t
    ∧ Schedule.error_message s' = Schedule.error_message t
    ∧ Schedule.scheduled_at s' = Schedule.scheduled_at t
    ∧ ∀ k, k ≠ Schedule.id t → schedules w' !! k = schedules w !! k.
Proof.
  intros Ht Hsend. destruct (execute_single_run w t Ht) as [_ ->]. cbv zeta.
  rewrite Hsend. cbn [fst snd].
  eexists _, _. split; [reflexivity |]. split; [cbn; apply lookup_insert_eq |].
  unfold completed_row, truthy.
  case_decide as Hempty; cbn;
    (repeat (split; [done |]); intros k Hk; by rewrite lookup_insert_ne).
Qed.

Lemma execution_unit_success_witness :
  ∃ w' s',
    @email_router.execute_single_email_schedule
      (Samples.collaborators Samples.noon true false)
      (Samples.schedule 7 Samples.noon PENDING 3 1 300)
      (Samples.world [Samples.schedule 7 Samples.noon PENDING 3 1 300])
    = (w', Returned tt)
    ∧ schedules w' !! 7 = Some s'
    ∧ EmailLog.status <$> email_logs w' = ["sent"]
    ∧ ticks w' = 7%nat
    ∧ Schedule.status s' = COMPLETED
    ∧ Schedule.executed_at s' = Some Samples.noon
    ∧ ("{...}" ≠ "" → Schedule.result s' = Some "{...}")
    ∧ Schedule.retry_count s' = 1
    ∧ Schedule.error_message s' = None
    ∧ Schedule.scheduled_at s' = Samples.noon
    ∧ ∀ k, k ≠ 7 →
        schedules w' !! k
        = schedules (Samples.world [Samples.schedule 7 Samples.noon PENDING 3 1 300]) !! k.
Proof.
  pose proof (@execution_unit_success (Samples.collaborators Samples.noon true false)
                (Samples.world [Samples.schedule 7 Samples.noon PENDING 3 1 300]) _
                (Samples.schedule 7 Samples.noon PENDING 3 1 300)
                (SendResult.mk true "이메일이 성공적으로 발송되었습니다"
                   (Some "noreply@example.com") 1 "2026-01-01T21:00:45.000000")
                ltac:(vm_compute; reflexivity)
                ltac:(apply pair_eta_snd; vm_compute; reflexivity))
    as (w' & s' & Hrun & Hrow & Hrest).
  exists w', s'. split; [exact Hrun |]. split; [exact Hrow |].
  split; [apply (f_equal fst) in Hrun; cbn in Hrun; rewrite <- Hrun;
          vm_compute; reflexivity |].
  split; [apply (f_equal fst) in Hrun; cbn in Hrun; rewrite <- Hrun;
          vm_compute; reflexivity |].
  exact Hrest.
Defined.

(** X27: when sending raises, a unit that returns has recorded the failure
    on the schedule: the text of the exception is the [error_message], the
    retry count is one higher, and the schedule is FAILED if that count has
    reached [max_retry] and PENDING again if it has not. *)
Theorem execution_unit_failure `{!Collaborators} (w w1 w' : World) (t : Schedule.t)
    (e : exn) :
  schedules w !! Schedule.id t = Some t →
  email_router.send_scheduled_email t
    (with_schedules (<[Schedule.id t := processing_row t (clock (ticks w))]> (schedules w))
                    (with_ticks (S (ticks w)) w))
  = (w1, Raised e) →
  email_router.execute_single_email_schedule t w = (w', Returned tt) →
  ∃ s',
    schedules w' !! Schedule.id t = Some s'
    ∧ Schedule.error_message s' = Some (str_exn e)
    ∧ Schedule.retry_count s' = Schedule.retry_count t + 1
    ∧ (Schedule.max_retry t ≤ Schedule.retry_count t + 1 → Schedule.status s' = FAILED)
    ∧ (Schedule.retry_count t + 1 < Schedule.max_retry t → Schedule.status s' = PENDING)
    ∧ Schedule.executed_at s' = Schedule.executed_at t
    ∧ Schedule.result s' = Schedule.result t.
Proof. apply unit_records_failure. Qed.

Lemma execution_unit_failure_witness :
  ∃ s',
    schedules (@email_router.execute_single_email_schedule
                 (Samples.collaborators Samples.noon false false)
                 (Samples.schedule 7 Samples.noon PENDING 3 0 300)
                 (Samples.world [Samples.schedule 7 Samples.noon PENDING 3 0 300])).1
      !! 7 = Some s'
    ∧ Schedule.error_message s'
      = Some "이메일 발송 서비스 오류: API 요청 시간 초과 (30초)"
    ∧ Schedule.retry_count s' = 0 + 1
    ∧ (3 ≤ 0 + 1 → Schedule.status s' = FAILED)
    ∧ (0 + 1 < 3 → Schedule.status s' = PENDING)
    ∧ Schedule.executed_at s' = None
    ∧ Schedule.result s' = None.
Proof.
  refine (@execution_unit_failure (Samples.collaborators Samples.noon false false)
            (Samples.world [Samples.schedule 7 Samples.noon PENDING 3 0 300]) _ _
            (Samples.schedule 7 Samples.noon PENDING 3 0 300)
            (ApiError "이메일 발송 서비스 오류: API 요청 시간 초과 (30초)") _ _ _).
  - vm_compute. reflexivity.
  - apply pair_eta_snd. vm_compute. reflexivity.
  - apply pair_eta_snd. vm_compute. reflexivity.
Defined.

(** ** The counts of a cycle *)

(** X28: the handler of a cycle returns, reads the clock once and writes
    nothing else; its two counts add up to the number of due e-mail
    schedules, of which there is one detail each; the queue holds as many
    units as [executed_count] says, each for a due schedule, and
    [failed_count] is the number of details marked failed. *)
Theorem cycle_counts_add_up `{!Collaborators} (w : World) :
  ∃ response queue,
    email_router.execute_pending_email_schedules w
    = (with_ticks (S (ticks w)) w, Returned (response, queue))
    ∧ EmailScheduleExecuteResponse.execution_time response = clock (ticks w)
    ∧ EmailScheduleExecuteResponse.executed_count response
      + EmailScheduleExecuteResponse.failed_count response
      = Z.of_nat (length (due_of w))
    ∧ length (EmailScheduleExecuteResponse.details response) = length (due_of w)
    ∧ EmailScheduleExecuteResponse.executed_count response = Z.of_nat (length queue)
    ∧ EmailScheduleExecuteResponse.failed_count response
      = Z.of_nat (length (filter (λ d, ExecutionDetail.status d = "failed")
                                 (EmailScheduleExecuteResponse.details response)))
    ∧ ∀ t, t ∈ queue → t ∈ due_of w.
Proof.
  destruct (email_router.execute_pending_email_schedules w) as [w1 o] eqn:Hrun.
  pose proof Hrun as Hrun'. rewrite execute_pending_run in Hrun'. cbv zeta in Hrun'.
  injection Hrun' as <- <-.
  destruct (execute_pending_facts _ _ _ _ Hrun) as (_ & Hqueue & Hexec & Hfail & Hdet).
  eexists _, _. split; [reflexivity |]. split; [reflexivity |].
  split; [| split; [| split; [| split]]].
  - rewrite Hexec, Hfail, Hqueue.
    pose proof (filter_app_complement
                  (λ s, add_task_raises (S (ticks w)) s = None) (due_of w)) as Hperm.
    apply Permutation_length in Hperm. rewrite length_app in Hperm. lia.
  - by rewrite Hdet, length_fmap.
  - exact Hexec.
  - rewrite Hfail, Hdet. by rewrite failed_details_length.
  - intros t. rewrite Hqueue. by intros [_ Hin]%list_elem_of_filter.
Qed.

(** ** The frame of [handle_failure] *)

(** X29: [handle_failure] writes one row at most: every other row, the
    API keys, the environment and the next id are as before, and of the
    row of the schedule only [retry_count], [error_message], [status],
    [scheduled_at] and [updated_at] can differ. *)
Theorem handle_failure_frame `{!Collaborators} (w w' : World) (schedule_id : Z)
    (msg : string) (o : outcome (option Schedule.t)) :
  store_wf w →
  ScheduleRepository.handle_failure schedule_id msg w = (w', o) →
  (∀ k, k ≠ schedule_id → schedules w' !! k = schedules w !! k)
  ∧ api_keys w' = api_keys w
  ∧ environ w' = environ w
  ∧ next_schedule_id w' = next_schedule_id w
  ∧ (schedules w !! schedule_id = None → schedules w' !! schedule_id = None)
  ∧ ∀ s, schedules w !! schedule_id = Some s →
      ∃ s', schedules w' !! schedule_id = Some s'
            ∧ Schedule.id s' = Schedule.id s
            ∧ Schedule.api_key_id s' = Schedule.api_key_id s
            ∧ Schedule.schedule_name s' = Schedule.schedule_name s
            ∧ Schedule.schedule_type s' = Schedule.schedule_type s
            ∧ Schedule.timezone s' = Schedule.timezone s
            ∧ Schedule.payload s' = Schedule.payload s
            ∧ Schedule.max_retry s' = Schedule.max_retry s
            ∧ Schedule.retry_interval s' = Schedule.retry_interval s
            ∧ Schedule.executed_at s' = Schedule.executed_at s
            ∧ Schedule.result s' = Schedule.result s
            ∧ Schedule.created_at s' = Schedule.created_at s.
Proof.
  intros Hwf.
  destruct (schedules w !! schedule_id) as [s|] eqn:Hs.
  2: { rewrite (handle_failure_missing w schedule_id msg Hs). intros [= <- <-].
       repeat (split; [done |]). intros s. by rewrite Hs. }
  pose proof (Hwf _ _ Hs) as Hid. cbn in Hid.
  assert (∀ s' n,
            w' = with_schedules (<[Schedule.id s := s']> (schedules w)) (with_ticks n w) →
            Schedule.id s' = Schedule.id s →
            Schedule.api_key_id s' = Schedule.api_key_id s →
            Schedule.schedule_name s' = Schedule.schedule_name s →
            Schedule.schedule_type s' = Schedule.schedule_type s →
            Schedule.timezone s' = Schedule.timezone s →
            Schedule.payload s' = Schedule.payload s →
            Schedule.max_retry s' = Schedule.max_retry s →
            Schedule.retry_interval s' = Schedule.retry_interval s →
            Schedule.executed_at s' = Schedule.executed_at s →
            Schedule.result s' = Schedule.result s →
            Schedule.created_at s' = Schedule.created_at s →
            (∀ k, k ≠ schedule_id → schedules w' !! k = schedules w !! k)
            ∧ api_keys w' = api_keys w
            ∧ environ w' = environ w
            ∧ next_schedule_id w' = next_schedule_id w
            ∧ (Some s = None → schedules w' !! schedule_id = None)
            ∧ ∀ s0, Some s = Some s0 →
                ∃ s', schedules w' !! schedule_id = Some s'
                      ∧ Schedule.id s' = Schedule.id s0
                      ∧ Schedule.api_key_id s' = Schedule.api_key_id s0
                      ∧ Schedule.schedule_name s' = Schedule.schedule_name s0
                      ∧ Schedule.schedule_type s' = Schedule.schedule_type s0
                      ∧ Schedule.timezone s' = Schedule.timezone s0
                      ∧ Schedule.payload s' = Schedule.payload s0
                      ∧ Schedule.max_retry s' = Schedule.max_retry s0
                      ∧ Schedule.retry_interval s' = Schedule.retry_interval s0
                      ∧ Schedule.executed_at s' = Schedule.executed_at s0
                      ∧ Schedule.result s' = Schedule.result s0
                      ∧ Schedule.created_at s' = Schedule.created_at s0) as Hwritten.
  { intros s' n -> ? ? ? ? ? ? ? ? ? ? ?. cbn. rewrite Hid.
    split; [intros k Hk; by rewrite lookup_insert_ne |].
    repeat (split; [done |]). intros s0 [= <-]. exists s'.
    rewrite lookup_insert_eq. done. }
  assert (∀ n,
            w' = with_ticks n w →
            (∀ k, k ≠ schedule_id → schedules w' !! k = schedules w !! k)
            ∧ api_keys w' = api_keys w
            ∧ environ w' = environ w
            ∧ next_schedule_id w' = next_schedule_id w
            ∧ (Some s = None → schedules w' !! schedule_id = None)
            ∧ ∀ s0, Some s = Some s0 →
                ∃ s', schedules w' !! schedule_id = Some s'
                      ∧ Schedule.id s' = Schedule.id s0
                      ∧ Schedule.api_key_id s' = Schedule.api_key_id s0
                      ∧ Schedule.schedule_name s' = Schedule.schedule_name s0
                      ∧ Schedule.schedule_type s' = Schedule.schedule_type s0
                      ∧ Schedule.timezone s' = Schedule.timezone s0
                      ∧ Schedule.payload s' = Schedule.payload s0
                      ∧ Schedule.max_retry s' = Schedule.max_retry s0
                      ∧ Schedule.retry_interval s' = Schedule.retry_interval s0
                      ∧ Schedule.executed_at s' = Schedule.executed_at s0
                      ∧ Schedule.result s' = Schedule.result s0
                      ∧ Schedule.created_at s' = Schedule.created_at s0) as Hkept.
  { intros n ->. cbn. repeat (split; [done |]). intros s0 [= <-]. exists s.
    by rewrite Hs. }
  destruct (decide (Schedule.max_retry s ≤ Schedule.retry_count s + 1)) as [Hex|Hre].
  - rewrite (handle_failure_exhausted w schedule_id s msg Hs Hex). cbv zeta.
    intros [= <- <-]. by eapply Hwritten.
  - rewrite (handle_failure_rearm w schedule_id s msg Hs) by lia.
    destruct (timedelta_of_seconds _) as [delta|e];
      [destruct (add _ _) as [at_|e] |]; intros [= <- <-];
      [by eapply Hwritten | by eapply Hkept | by eapply Hkept].
Qed.

Lemma handle_failure_frame_witness :
  (∀ k, k ≠ 1 →
        schedules (@ScheduleRepository.handle_failure
                     (Samples.collaborators Samples.noon false false)
                     1 "timeout" Listing.world).1 !! k
        = schedules Listing.world !! k)
  ∧ schedules (@ScheduleRepository.handle_failure
                 (Samples.collaborators Samples.noon false false)
                 1 "timeout" Listing.world).1 !! 5
    = Some (Listing.row 5 1 EMAIL PENDING (Samples.noon - Samples.seconds 100)).
Proof.
  pose proof (@handle_failure_frame (Samples.collaborators Samples.noon false false)
                Listing.world _ 1 "timeout" _
                (sample_world_wf _) (surjective_pairing _)) as [Hframe _].
  split; [exact Hframe |].
  rewrite Hframe by done. vm_compute. reflexivity.
Defined.

(** ** Paging through the whole table *)

(** X30: [get_list] is [get_by_filters] with the filters made optional,
    and with a limit of at least the size of the table and no offset it
    returns every row of the table once, with or without an empty
    dictionary of filters. *)
Theorem get_list_pages_whole_table (w : World)
    (filters : option ScheduleRepositoryQueries.Filters) (limit offset : Z) :
  ScheduleRepositoryQueries.get_list filters limit offset w
  = ScheduleRepositoryQueries.get_by_filters
      (default (ScheduleRepositoryQueries.mkFilters None None None) filters)
      limit offset w
  ∧ (Z.of_nat (size (schedules w)) ≤ limit →
     (filters = None ∨ filters = Some (ScheduleRepositoryQueries.mkFilters None None None)) →
     ∃ rows,
       ScheduleRepositoryQueries.get_list filters limit 0 w = (w, Returned rows)
       ∧ rows ≡ₚ (map_to_list (schedules w)).*2).
Proof.
  split; [by destruct filters |].
  intros Hsize Hnone.
  assert (ScheduleRepositoryQueries.get_list filters limit 0 w
          = ScheduleRepositoryQueries.get_by_filters
              (ScheduleRepositoryQueries.mkFilters None None None) limit 0 w) as ->
    by (by destruct Hnone as [-> | ->]).
  rewrite get_by_filters_run by lia. eexists. split; [reflexivity |].
  change (Z.to_nat 0) with 0%nat. rewrite drop_0. cbn.
  rewrite take_ge; [apply merge_sort_Permutation |].
  unfold ScheduleRepositoryQueries.order_by_created_at_desc.
  rewrite merge_sort_Permutation, length_fmap, length_map_to_list. lia.
Qed.
